(** * StepperAxis: axis calibration, travel limits and mm/step conversion

    Shallow embedding of [firmware/src/MightyBoard/Motherboard/StepperAxis.cc]
    (Sailfish MightyBoard firmware) and the properties its specification
    states about it.

    Conventions of the embedding:
    - the firmware target is an 8-bit AVR built with avr-gcc, where [float]
      and [double] are both IEEE 754 binary32 and [int] is 16 bits wide;
      floating point values are [spec_float] values at precision 24 and
      exponent bound 128, with round-to-nearest-even arithmetic;
    - fixed-width integers are [Z] with their wrap-around written out;
    - the global arrays are lists indexed by the loop counter. *)

From Stdlib Require Import ZArith Lia Bool List QArith Qabs Qpower Lqa.
From Stdlib Require Import Floats.SpecFloat.
From stdpp Require Import base list.

Local Open Scope Z_scope.

(** ** Fixed-width integers *)

Module Int.

(** Value of the low [bits] bits of [z] read as an unsigned number. *)
Definition unsigned (bits z : Z) : Z := z mod 2 ^ bits.

(** Value of the low [bits] bits of [z] read in two's complement. *)
Definition signed (bits z : Z) : Z :=
  (z + 2 ^ (bits - 1)) mod 2 ^ bits - 2 ^ (bits - 1).

Definition min_signed (bits : Z) : Z := - 2 ^ (bits - 1).
Definition max_signed (bits : Z) : Z := 2 ^ (bits - 1) - 1.

Definition in_signed (bits z : Z) : bool :=
  (min_signed bits <=? z) && (z <=? max_signed bits).

Definition uint8 : Z -> Z := unsigned 8.
Definition uint32 : Z -> Z := unsigned 32.
Definition int32 : Z -> Z := signed 32.
Definition int64 : Z -> Z := signed 64.

End Int.

(** ** Floating point *)

Module Float.

Definition prec : Z := 24.
Definition emax : Z := 128.

Definition float : Type := spec_float.

Definition mul : float -> float -> float := SFmul prec emax.
Definition div : float -> float -> float := SFdiv prec emax.

(** Conversion of an integer to the nearest [float]; also the value of a
    literal such as [1000.0]. *)
Definition of_Z (z : Z) : float := binary_normalize prec emax z 0 false.

(** The integer part of a finite [float] (rounding toward zero);
    nothing for NaN and the infinities. *)
Definition trunc (x : float) : option Z :=
  match x with
  | S754_zero _ => Some 0
  | S754_finite s m e => Some (cond_Zopp s (Z.shiftl (Zpos m) e))
  | S754_infinity _ | S754_nan => None
  end.

(** The nearest integer to a finite [float], halves away from zero (the
    C library's [round]); it appears in no code path and serves to state
    what the specification says of rounding. *)
Definition round (x : float) : option Z :=
  match x with
  | S754_zero _ => Some 0
  | S754_finite s m e =>
      Some (cond_Zopp s
              (match e with
               | Zneg p => (2 * Zpos m + 2 ^ Zpos p) / (2 * 2 ^ Zpos p)
               | _ => Zpos m * 2 ^ e
               end))
  | S754_infinity _ | S754_nan => None
  end.

(** The exact rational value of a finite [float]. *)
Definition to_Q (x : float) : option Q :=
  match x with
  | S754_zero _ => Some 0%Q
  | S754_finite s m e => Some (inject_Z (cond_Zopp s (Zpos m)) * 2 ^ e)%Q
  | S754_infinity _ | S754_nan => None
  end.

Section Casts.

(** A cast of a floating point value to an integer type is defined by the
    language only when the truncated value fits the destination type.
    [fix_overflow bits x] stands for whatever the conversion routine
    leaves in the destination otherwise. *)
Variable fix_overflow : Z -> float -> Z.

Definition cast_defined (bits : Z) (x : float) : bool :=
  match trunc x with
  | Some z => Int.in_signed bits z
  | None => false
  end.

Definition to_int (bits : Z) (x : float) : Z :=
  match trunc x with
  | Some z => if Int.in_signed bits z then z
              else Int.signed bits (fix_overflow bits x)
  | None => Int.signed bits (fix_overflow bits x)
  end.

End Casts.

End Float.

Import Float(float).

(** ** What the translation unit takes from its headers

    [StepperAxis.hh], [EepromMap.hh], [Eeprom.hh] and the board configuration
    are not part of the verified file.  Their macros, constants and the
    persistent store enter the model as the fields of a [Platform]. *)

(** A [StepperIOPort] names one signal line by its registers and pin. *)
Record StepperIOPort := {
  port : Z;
  iport : Z;
  pin : Z;
  ddr : Z
}.

Record Platform := {
  (** number representation of feed rates and its two conversion macros *)
  FPTYPE : Type;
  FTOFP : float -> FPTYPE;
  FPTOF : FPTYPE -> float;
  (** build configuration *)
  EXTRUDERS : nat;
  PSTOP_SUPPORT : bool;
  Z_HOME_MAX : bool;
  (** persistent store: [getEeprom8 offset default], [getEeprom32 offset default] *)
  getEeprom8 : Z -> Z -> Z;
  getEeprom32 : Z -> Z -> Z;
  (** [eeprom_offsets] *)
  AXIS_INVERSION : Z;
  ENDSTOP_INVERSION : Z;
  PSTOP_ENABLE : Z;
  AXIS_STEPS_PER_MM : Z;
  AXIS_MAX_FEEDRATES : Z;
  AXIS_LENGTHS : Z;
  AXIS_HOME_POSITIONS_STEPS : Z;
  (** compiled-in defaults, per axis *)
  axis_steps_per_mm : nat -> Z;
  axis_max_feedrates : nat -> Z;
  axis_lengths : nat -> Z;
  (** port macros *)
  STEPPER_IOPORT_NULL : StepperIOPort -> bool;
  X_STEPPER_MIN : StepperIOPort;
  (** result of a float-to-integer conversion the language leaves undefined *)
  fix_overflow : Z -> float -> Z
}.

(** Axis indices, in the order of the port table. *)
Definition X_AXIS : nat := 0.
Definition Y_AXIS : nat := 1.
Definition Z_AXIS : nat := 2.
Definition A_AXIS : nat := 3.
Definition B_AXIS : nat := 4.
Definition STEPPER_COUNT : nat := 5.

Definition STEPPER_NULL : StepperIOPort :=
  {| port := 0; iport := 0; pin := 0; ddr := 0 |}.

Record StepperAxisPorts := {
  step : StepperIOPort;
  dir : StepperIOPort;
  enable : StepperIOPort;
  minimum : StepperIOPort;
  maximum : StepperIOPort
}.

(** Hardware accesses, recorded in the order they are issued. *)
Inductive PortOp :=
| SET_DIRECTION (p : StepperIOPort) (output : bool)
| WRITE (p : StepperIOPort) (level : bool)
| PSTOP_setDirection (output : bool)
| PSTOP_setValue (level : bool).

Record DDA := {
  eAxis : bool;
  counter : Z;
  direction : Z;
  stepperDir : bool;
  master : bool;
  master_steps : Z;
  steps_completed : Z;
  steps : Z
}.

Section Firmware.

Variable hw : Platform.

Record StepperAxis := {
  invert_endstop : bool;
  invert_axis : bool;
  steps_per_mm : float;
  max_feedrate : FPTYPE hw;
  min_interval : Z;
  max_axis_steps_limit : Z;
  min_axis_steps_limit : Z;
  hasHomed : bool;
  hasDefinePosition : bool;
  dda : DDA
}.

(** The file-scope variables. *)
Record State := {
  stepperAxisPorts : list StepperAxisPorts;
  stepperAxis : list StepperAxis;
  dda_position : list Z;
  axis_homing : list bool;
  e_steps : list Z;
  axesEnabled : Z;
  axesHardwareEnabled : Z;
  pstop_enable : Z;
  io : list PortOp
}.

(** *** Reads of the persistent store, at the width of their C type *)

Definition eeprom8 (offset default : Z) : Z :=
  Int.uint8 (getEeprom8 hw offset default).

Definition eeprom32 (offset default : Z) : Z :=
  Int.uint32 (getEeprom32 hw offset default).

(** [offset + i * sizeof(uint32_t)] *)
Definition slot (offset : Z) (i : nat) : Z := offset + Z.of_nat i * 4.

Definition to_int32 : float -> Z := Float.to_int (fix_overflow hw) 32.
Definition to_int64 : float -> Z := Float.to_int (fix_overflow hw) 64.

(** [(mask & (1 << i)) != 0] *)
Definition bit_set (mask : Z) (i : Z) : bool :=
  negb (Z.land mask (Z.shiftl 1 i) =? 0).

(** *** [stepperAxisInit]: the statements run before the axis loop *)

Definition set_x_minimum (p : StepperIOPort) (ports : list StepperAxisPorts)
  : list StepperAxisPorts :=
  alter (fun a => {| step := step a; dir := dir a; enable := enable a;
                     minimum := p; maximum := maximum a |}) X_AXIS ports.

Definition load_pstop (s : State) : State :=
  if PSTOP_SUPPORT hw then
    let pe := eeprom8 (PSTOP_ENABLE hw) 0 in
    {| stepperAxisPorts :=
         set_x_minimum (if negb (pe =? 1) then X_STEPPER_MIN hw else STEPPER_NULL)
                       (stepperAxisPorts s);
       stepperAxis := stepperAxis s;
       dda_position := dda_position s;
       axis_homing := axis_homing s;
       e_steps := e_steps s;
       axesEnabled := axesEnabled s;
       axesHardwareEnabled := axesHardwareEnabled s;
       pstop_enable := pe;
       io := io s |}
  else s.

(** *** The part of the loop body guarded by [hard_reset] *)

(** Steps of travel in the axis length stored for axis [i]. *)
Definition axis_length_steps (i : nat) (spm : float) : Z :=
  to_int32 (Float.mul
              (Float.of_Z (eeprom32 (slot (AXIS_LENGTHS hw) i) (axis_lengths hw i)))
              spm).

Definition home_position_steps (i : nat) : Z :=
  Int.int32 (eeprom32 (slot (AXIS_HOME_POSITIONS_STEPS hw) i) 0).

(** The [switch (i)]: the pair (maximum, minimum) of the travel limits. *)
Definition axis_limits (i : nat) (length : Z) (old : Z * Z) : Z * Z :=
  match i with
  | 0%nat | 1%nat =>
      let axisMax := Z.quot length 2 in
      (axisMax, Int.int32 (- axisMax))
  | 2%nat =>
      let axisMax :=
        if Z_HOME_MAX hw then home_position_steps i
        else Int.int32 (length - home_position_steps i) in
      (axisMax, 0)
  | 3%nat | 4%nat => (length, Int.int32 (- length))
  | _ => old
  end.

Definition load_axis (axes_invert endstops_invert : Z) (i : nat)
           (a : StepperAxis) : StepperAxis :=
  let endstops_present := bit_set endstops_invert 7 in
  let inv_endstop :=
    negb endstops_present || bit_set endstops_invert (Z.of_nat i) in
  let inv_axis := bit_set axes_invert (Z.of_nat i) in
  let spm :=
    Float.div
      (Float.of_Z (eeprom32 (slot (AXIS_STEPS_PER_MM hw) i) (axis_steps_per_mm hw i)))
      (Float.of_Z 1000000) in
  let feed :=
    FTOFP hw
      (Float.div
         (Float.of_Z (eeprom32 (slot (AXIS_MAX_FEEDRATES hw) i) (axis_max_feedrates hw i)))
         (Float.of_Z 60)) in
  let f := to_int32 (Float.mul spm (FPTOF hw feed)) in
  let interval := if f =? 0 then 500 else Z.quot 1000000 f in
  let length := axis_length_steps i spm in
  let limits :=
    axis_limits i length (max_axis_steps_limit a, min_axis_steps_limit a) in
  {| invert_endstop := inv_endstop;
     invert_axis := inv_axis;
     steps_per_mm := spm;
     max_feedrate := feed;
     min_interval := interval;
     max_axis_steps_limit := fst limits;
     min_axis_steps_limit := snd limits;
     hasHomed := false;
     hasDefinePosition := false;
     dda := dda a |}.

(** Pin set-up of axis [i], given its port bindings and endstop polarity. *)
Definition setup_pins (p : StepperAxisPorts) (inv_endstop : bool) : list PortOp :=
  [SET_DIRECTION (dir p) true;
   SET_DIRECTION (step p) true;
   WRITE (enable p) true;
   SET_DIRECTION (enable p) true]
  ++ (if negb (STEPPER_IOPORT_NULL hw (maximum p))
      then [SET_DIRECTION (maximum p) false; WRITE (maximum p) inv_endstop]
      else [])
  ++ (if negb (STEPPER_IOPORT_NULL hw (minimum p))
      then [SET_DIRECTION (minimum p) false; WRITE (minimum p) inv_endstop]
      else []).

Definition axis_pin_ops (ports : list StepperAxisPorts) (axes : list StepperAxis)
           (i : nat) : list PortOp :=
  match ports !! i, axes !! i with
  | Some p, Some a => setup_pins p (invert_endstop a)
  | _, _ => []
  end.

Definition hard_axis (axes_invert endstops_invert : Z) (i : nat) (s : State) : State :=
  let axes := alter (load_axis axes_invert endstops_invert i) i (stepperAxis s) in
  {| stepperAxisPorts := stepperAxisPorts s;
     stepperAxis := axes;
     dda_position := <[i := 0]> (dda_position s);
     axis_homing := axis_homing s;
     e_steps := e_steps s;
     axesEnabled := axesEnabled s;
     axesHardwareEnabled := axesHardwareEnabled s;
     pstop_enable := pstop_enable s;
     io := io s ++ axis_pin_ops (stepperAxisPorts s) axes i |}.

(** *** The part of the loop body run on every call *)

Definition reset_dda (i : nat) (a : StepperAxis) : StepperAxis :=
  {| invert_endstop := invert_endstop a;
     invert_axis := invert_axis a;
     steps_per_mm := steps_per_mm a;
     max_feedrate := max_feedrate a;
     min_interval := min_interval a;
     max_axis_steps_limit := max_axis_steps_limit a;
     min_axis_steps_limit := min_axis_steps_limit a;
     hasHomed := hasHomed a;
     hasDefinePosition := hasDefinePosition a;
     dda := {| eAxis := (A_AXIS <=? i)%nat;
               counter := 0;
               direction := 1;
               stepperDir := false;
               master := false;
               master_steps := 0;
               steps_completed := 0;
               steps := 0 |} |}.

Definition soft_axis (i : nat) (s : State) : State :=
  {| stepperAxisPorts := stepperAxisPorts s;
     stepperAxis := alter (reset_dda i) i (stepperAxis s);
     dda_position := dda_position s;
     axis_homing := <[i := false]> (axis_homing s);
     e_steps := e_steps s;
     axesEnabled := axesEnabled s;
     axesHardwareEnabled := axesHardwareEnabled s;
     pstop_enable := pstop_enable s;
     io := io s |}.

Definition axis_body (hard_reset : bool) (axes_invert endstops_invert : Z)
           (s : State) (i : nat) : State :=
  soft_axis i (if hard_reset then hard_axis axes_invert endstops_invert i s else s).

(** *** The statements after the axis loop *)

Definition clear_enabled (s : State) : State :=
  {| stepperAxisPorts := stepperAxisPorts s;
     stepperAxis := stepperAxis s;
     dda_position := dda_position s;
     axis_homing := axis_homing s;
     e_steps := e_steps s;
     axesEnabled := 0;
     axesHardwareEnabled := 0;
     pstop_enable := pstop_enable s;
     io := io s ++ (if PSTOP_SUPPORT hw && (pstop_enable s =? 1)
                    then [PSTOP_setDirection false; PSTOP_setValue false]
                    else []) |}.

Definition clear_e_steps (s : State) : State :=
  {| stepperAxisPorts := stepperAxisPorts s;
     stepperAxis := stepperAxis s;
     dda_position := dda_position s;
     axis_homing := axis_homing s;
     e_steps := foldl (fun l i => <[i := 0]> l) (e_steps s) (seq 0 (EXTRUDERS hw));
     axesEnabled := axesEnabled s;
     axesHardwareEnabled := axesHardwareEnabled s;
     pstop_enable := pstop_enable s;
     io := io s |}.

(** *** [void stepperAxisInit(bool hard_reset)] *)

Definition stepperAxisInit (hard_reset : bool) (s : State) : State :=
  let axes_invert := if hard_reset then eeprom8 (AXIS_INVERSION hw) 0 else 0 in
  let endstops_invert := if hard_reset then eeprom8 (ENDSTOP_INVERSION hw) 0 else 0 in
  let s1 := if hard_reset then load_pstop s else s in
  let s2 := foldl (axis_body hard_reset axes_invert endstops_invert) s1
                  (seq 0 STEPPER_COUNT) in
  let s3 := if hard_reset then clear_enabled s2 else s2 in
  clear_e_steps s3.

(** *** The conversion functions

    Each reads [stepperAxis[axis]]; the source does not check the index,
    and an index outside the array has no result here. *)

(** [float stepperAxisStepsPerMM(uint8_t axis)] *)
Definition stepperAxisStepsPerMM (s : State) (axis : nat) : option float :=
  a ← stepperAxis s !! axis;
  Some (steps_per_mm a).

(** [float stepperAxisStepsToMM(int32_t steps, uint8_t axis)] *)
Definition stepperAxisStepsToMM (s : State) (steps : Z) (axis : nat) : option float :=
  a ← stepperAxis s !! axis;
  Some (Float.div (Float.of_Z steps) (steps_per_mm a)).

(** [int32_t stepperAxisMMToSteps(float mm, uint8_t axis)] *)
Definition stepperAxisMMToSteps (s : State) (mm : float) (axis : nat) : option Z :=
  a ← stepperAxis s !! axis;
  let intmm := to_int64 (Float.mul mm (Float.of_Z 1000)) in
  let ret := Int.int64 (intmm * to_int64 (steps_per_mm a)) in
  let ret := Z.quot ret 1000 in
  Some (Int.int32 ret).

(** *** Names for what the loop does to one axis *)

(** The record of axis [i] after its loop iteration, from the one before. *)
Definition axis_update (hard_reset : bool) (ai ei : Z) (i : nat)
           (a : StepperAxis) : StepperAxis :=
  reset_dda i (if hard_reset then load_axis ai ei i a else a).

(** The values read for axis [i]. *)
Definition stored_steps_per_mm (i : nat) : Z :=
  eeprom32 (slot (AXIS_STEPS_PER_MM hw) i) (axis_steps_per_mm hw i).
Definition stored_max_feedrate (i : nat) : Z :=
  eeprom32 (slot (AXIS_MAX_FEEDRATES hw) i) (axis_max_feedrates hw i).
Definition stored_length (i : nat) : Z :=
  eeprom32 (slot (AXIS_LENGTHS hw) i) (axis_lengths hw i).

(** The product whose integer part is the axis length in steps. *)
Definition length_product (i : nat) (spm : float) : float :=
  Float.mul (Float.of_Z (stored_length i)) spm.

End Firmware.

Arguments invert_endstop {hw} _.
Arguments invert_axis {hw} _.
Arguments steps_per_mm {hw} _.
Arguments max_feedrate {hw} _.
Arguments min_interval {hw} _.
Arguments max_axis_steps_limit {hw} _.
Arguments min_axis_steps_limit {hw} _.
Arguments hasHomed {hw} _.
Arguments hasDefinePosition {hw} _.
Arguments dda {hw} _.
Arguments stepperAxisPorts {hw} _.
Arguments stepperAxis {hw} _.
Arguments dda_position {hw} _.
Arguments axis_homing {hw} _.
Arguments e_steps {hw} _.
Arguments axesEnabled {hw} _.
Arguments axesHardwareEnabled {hw} _.
Arguments pstop_enable {hw} _.
Arguments io {hw} _.


(** ** Notions the properties are stated with *)

(** The sign bit is clear, or the value is not a number. *)
Definition not_negative (x : float) : Prop :=
  match x with
  | S754_nan => True
  | S754_zero s | S754_infinity s | S754_finite s _ _ => s = false
  end.


(** ** Rounding: where a shifted mantissa lies, and what it rounds to *)

(** A shift record [r] locates the fraction [N / D]: its mantissa is the
    integer part, its round bit tells whether the rest reaches one half, its
    sticky bit whether the rest is neither zero nor exactly one half. *)
Definition located (r : shr_record) (N D : Z) : Prop :=
  0 <= shr_m r /\ 0 < D /\
  0 <= N - shr_m r * D < D /\
  (if shr_r r then D <= 2 * (N - shr_m r * D) else 2 * (N - shr_m r * D) < D) /\
  (if shr_s r
   then N - shr_m r * D <> 0 /\ 2 * (N - shr_m r * D) <> D
   else N - shr_m r * D = 0 \/ 2 * (N - shr_m r * D) = D).

(** The float that [binary_round_aux] builds from a rounded mantissa [m1]
    at exponent [e1]. *)
Definition pack (s : bool) (m1 e1 : Z) : spec_float :=
  if m1 =? 0 then S754_zero s
  else if m1 =? 2 ^ Float.prec
       then if e1 + 1 <=? Float.emax - Float.prec
            then S754_finite s (Z.to_pos (2 ^ (Float.prec - 1))) (e1 + 1)
            else S754_infinity s
       else if e1 <=? Float.emax - Float.prec
            then S754_finite s (Z.to_pos m1) e1
            else S754_infinity s.

(** [m * 2 ^ e]. *)
Definition mag (m e : Z) : Q := (inject_Z m * 2 ^ e)%Q.

(** The magnitude carrying the sign bit [s]. *)
Definition signed_mag (s : bool) (q : Q) : Q := if s then (- q)%Q else q.

(** ** Millimetres to steps, as specified *)

(** The conversion in the words of the specification, over unbounded
    integers, to compare [stepperAxisMMToSteps] with: scale [mm] by 1000 in
    floating point, truncate to an integer, multiply by the integer part
    of [steps_per_mm], divide by 1000 discarding the remainder. *)
Definition mmToSteps_spec (mm spm : float) : option Z :=
  intmm ← Float.trunc (Float.mul mm (Float.of_Z 1000));
  k ← Float.trunc spm;
  Some (Z.quot (intmm * k) 1000).

(** The [float] nearest to 1.2345. *)
Definition mm_1_2345 : float := S754_finite false 10355737 (-23).

(** The axis length in the words of the specification, to compare the code
    with: the nearest integer to the stored length times [steps_per_mm]. *)
Definition spec_axis_length (hw : Platform) (i : nat) (spm : float) : option Z :=
  Float.round (length_product hw i spm).

(** ** Millimetres to steps and back, as specified *)

(** [stepperAxisStepsToMM(stepperAxisMMToSteps(x, axis), axis)] *)
Definition round_trip (hw : Platform) (s : State hw) (x : float) (axis : nat)
  : option float :=
  steps ← stepperAxisMMToSteps hw s x axis;
  stepperAxisStepsToMM hw s steps axis.

(** The distance between [x] and its round trip. *)
Definition round_trip_error (hw : Platform) (s : State hw) (x : float) (axis : nat)
  : option Q :=
  back ← round_trip hw s x axis;
  b ← Float.to_Q back;
  v ← Float.to_Q x;
  Some (Qabs (b - v)).

(** One step's worth of distance on the axis: [1 / steps_per_mm]. *)
Definition one_step (hw : Platform) (s : State hw) (axis : nat) : option Q :=
  spm ← stepperAxisStepsPerMM hw s axis;
  k ← Float.to_Q spm;
  Some (1 / k)%Q.

(** [x] lies between the travel limits of the axis. *)
Definition in_travel_range (hw : Platform) (s : State hw) (x : float) (axis : nat)
  : Prop :=
  match stepperAxis s !! axis, Float.to_Q x with
  | Some a, Some v =>
      match Float.to_Q (steps_per_mm a) with
      | Some k => (inject_Z (min_axis_steps_limit a) <= v * k
                   /\ v * k <= inject_Z (max_axis_steps_limit a))%Q
      | None => False
      end
  | _, _ => False
  end.

(** ** Notions the further properties are stated with *)

(** Unary minus. *)
Definition opp (x : float) : float := SFopp x.

(** Two floats are the same finite number in the same representation. *)
Definition same_finite (x y : float) : bool :=
  match x, y with
  | S754_finite s m e, S754_finite s' m' e' =>
      Bool.eqb s s' && (m =? m')%positive && (e =? e')
  | _, _ => false
  end.

(** The calibration word [k * 1000000] loads as the float of [k], whose
    value and integer part are [k]. *)
Definition loads_whole (k : Z) : bool :=
  same_finite (Float.div (Float.of_Z (k * 1000000)) (Float.of_Z 1000000)) (Float.of_Z k)
  && match Float.trunc (Float.of_Z k), Float.to_Q (Float.of_Z k) with
     | Some t, Some q => (t =? k) && Qeq_bool q (inject_Z k)
     | _, _ => false
     end.

(** * A concrete machine

    A dual-extruder build with the feed rates kept as [float] and a small
    persistent store, to run the model on.  The X calibration is left
    open; the other axes carry fixed values. *)

Module Machine.

(** Offsets of the store. *)
Definition at_axis_inversion : Z := 2.
Definition at_endstop_inversion : Z := 4.
Definition at_home_positions : Z := 14.
Definition at_axis_lengths : Z := 396.
Definition at_steps_per_mm : Z := 424.
Definition at_max_feedrates : Z := 500.
Definition at_pstop : Z := 4000.

(** Bytes and 32-bit words held by the store; other offsets are unset and
    read as the default the caller passes. *)
Definition bytes : list (Z * Z) :=
  [(at_axis_inversion, 23); (at_endstop_inversion, 151); (at_pstop, 1)].

Definition words (x_steps_per_mm x_length : Z) : list (Z * Z) :=
  [(at_steps_per_mm, x_steps_per_mm); (at_steps_per_mm + 4, 94139704);
   (at_steps_per_mm + 8, 400000000); (at_steps_per_mm + 12, 96275202);
   (at_steps_per_mm + 16, 96275202);
   (at_max_feedrates, 18000); (at_max_feedrates + 4, 18000);
   (at_max_feedrates + 8, 1170); (at_max_feedrates + 12, 1600);
   (at_max_feedrates + 16, 1600);
   (at_axis_lengths, x_length); (at_axis_lengths + 4, 148);
   (at_axis_lengths + 8, 150); (at_axis_lengths + 12, 100000);
   (at_axis_lengths + 16, 100000)].

Fixpoint read (cells : list (Z * Z)) (offset default : Z) : Z :=
  match cells with
  | [] => default
  | (o, v) :: rest => if o =? offset then v else read rest offset default
  end.

Definition line (n : Z) : StepperIOPort :=
  {| port := n; iport := n + 1; pin := 1; ddr := n + 2 |}.

Definition hw (x_steps_per_mm x_length : Z) : Platform :=
  {| FPTYPE := float;
     FTOFP := fun x => x;
     FPTOF := fun x => x;
     EXTRUDERS := 2;
     PSTOP_SUPPORT := true;
     Z_HOME_MAX := false;
     getEeprom8 := read bytes;
     getEeprom32 := read (words x_steps_per_mm x_length);
     AXIS_INVERSION := at_axis_inversion;
     ENDSTOP_INVERSION := at_endstop_inversion;
     PSTOP_ENABLE := at_pstop;
     AXIS_STEPS_PER_MM := at_steps_per_mm;
     AXIS_MAX_FEEDRATES := at_max_feedrates;
     AXIS_LENGTHS := at_axis_lengths;
     AXIS_HOME_POSITIONS_STEPS := at_home_positions;
     axis_steps_per_mm := fun _ => 0;
     axis_max_feedrates := fun _ => 0;
     axis_lengths := fun _ => 0;
     STEPPER_IOPORT_NULL := fun p => port p =? 0;
     X_STEPPER_MIN := line 40;
     fix_overflow := fun _ _ => 0 |}.

Definition ports (n : Z) (endstops : bool) : StepperAxisPorts :=
  {| step := line n; dir := line (n + 3); enable := line (n + 6);
     minimum := if endstops then line (n + 9) else STEPPER_NULL;
     maximum := if endstops then line (n + 12) else STEPPER_NULL |}.

(** An axis in the middle of a move, homed, with stale calibration. *)
Definition busy_axis (p : Platform) (feed : FPTYPE p) : StepperAxis p :=
  {| invert_endstop := false; invert_axis := true;
     steps_per_mm := Float.of_Z 47; max_feedrate := feed;
     min_interval := 70; max_axis_steps_limit := 900;
     min_axis_steps_limit := -900;
     hasHomed := true; hasDefinePosition := true;
     dda := {| eAxis := false; counter := -12; direction := -1;
               stepperDir := true; master := true; master_steps := 640;
               steps_completed := 77; steps := 320 |} |}.

Definition running (x_steps_per_mm x_length : Z) : State (hw x_steps_per_mm x_length) :=
  {| stepperAxisPorts := [ports 100 true; ports 200 true; ports 300 true;
                          ports 400 false; ports 500 false];
     stepperAxis := replicate 5 (busy_axis (hw x_steps_per_mm x_length) (Float.of_Z 30));
     dda_position := [120; -45; 3000; 77; -8];
     axis_homing := [true; false; true; false; false];
     e_steps := [5; -3];
     axesEnabled := 31;
     axesHardwareEnabled := 7;
     pstop_enable := 0;
     io := [] |}.

End Machine.

(** X calibrated to 88 steps per mm over 200 mm. *)
Definition hw88 : Platform := Machine.hw 88000000 200.
Definition s88 : State hw88 := Machine.running 88000000 200.

(** X calibrated to 100 steps per mm, after a hard reset. *)
Definition hw100 : Platform := Machine.hw 100000000 200.
Definition s100 : State hw100 :=
  stepperAxisInit hw100 true (Machine.running 100000000 200).

(** The [float] nearest to 0.0029. *)
Definition mm_0_0029 : float := S754_finite false 12455405 (-32).

(** The machine after a hard reset. *)
Definition ready88 : State hw88 := stepperAxisInit hw88 true s88.
Definition hw94 : Platform := Machine.hw 94139704 227.
Definition ready94 : State hw94 := stepperAxisInit hw94 true (Machine.running 94139704 227).

(** The machine at rest, never homed. *)
Definition parked_axis : StepperAxis hw88 :=
  {| invert_endstop := true; invert_axis := false;
     steps_per_mm := Float.of_Z 1; max_feedrate := (Float.of_Z 1 : FPTYPE hw88);
     min_interval := 0; max_axis_steps_limit := 0;
     min_axis_steps_limit := 0;
     hasHomed := false; hasDefinePosition := false;
     dda := {| eAxis := true; counter := 0; direction := 1;
               stepperDir := false; master := false;
               master_steps := 0; steps_completed := 0;
               steps := 0 |} |}.

Definition idle88 : State hw88 :=
  {| stepperAxisPorts := stepperAxisPorts s88;
     stepperAxis := replicate 5 parked_axis;
     dda_position := [0; 0; 0; 0; 0];
     axis_homing := [false; false; false; false; false];
     e_steps := [0; 0];
     axesEnabled := 0;
     axesHardwareEnabled := 0;
     pstop_enable := 1;
     io := [] |}.

(** X calibrated to half a step per mm, and not calibrated at all. *)
Definition hw_half : Platform := Machine.hw 500000 200.
Definition s_half : State hw_half := Machine.running 500000 200.
Definition hw_uncal : Platform := Machine.hw 0 200.
Definition s_uncal : State hw_uncal := Machine.running 0 200.

(** A build without P-Stop that homes Z to its maximum, the home position
    stored at 60000 steps. *)
Definition hw_zmax : Platform :=
  {| FPTYPE := float;
     FTOFP := fun x => x;
     FPTOF := fun x => x;
     EXTRUDERS := 2;
     PSTOP_SUPPORT := false;
     Z_HOME_MAX := true;
     getEeprom8 := Machine.read Machine.bytes;
     getEeprom32 :=
       Machine.read ((Machine.at_home_positions + 8, 60000) :: Machine.words 88000000 200);
     AXIS_INVERSION := Machine.at_axis_inversion;
     ENDSTOP_INVERSION := Machine.at_endstop_inversion;
     PSTOP_ENABLE := Machine.at_pstop;
     AXIS_STEPS_PER_MM := Machine.at_steps_per_mm;
     AXIS_MAX_FEEDRATES := Machine.at_max_feedrates;
     AXIS_LENGTHS := Machine.at_axis_lengths;
     AXIS_HOME_POSITIONS_STEPS := Machine.at_home_positions;
     axis_steps_per_mm := fun _ => 0;
     axis_max_feedrates := fun _ => 0;
     axis_lengths := fun _ => 0;
     STEPPER_IOPORT_NULL := fun p => port p =? 0;
     X_STEPPER_MIN := Machine.line 40;
     fix_overflow := fun _ _ => 0 |}.

Definition s_zmax : State hw_zmax :=
  {| stepperAxisPorts := [Machine.ports 100 true; Machine.ports 200 true;
                          Machine.ports 300 true; Machine.ports 400 false;
                          Machine.ports 500 false];
     stepperAxis := replicate 5 (Machine.busy_axis hw_zmax (Float.of_Z 30));
     dda_position := [120; -45; 3000; 77; -8];
     axis_homing := [true; false; true; false; false];
     e_steps := [5; -3];
     axesEnabled := 31;
     axesHardwareEnabled := 7;
     pstop_enable := 0;
     io := [] |}.

(** A build without P-Stop whose X axis is stored as 3000000000 mm at one
    step per mm, more steps than an [int32_t] holds; the conversion
    routine leaves the most negative [int32_t] for a value out of range.
    Endstops are present, with Y alone inverted. *)
Definition hw_long : Platform :=
  {| FPTYPE := float;
     FTOFP := fun x => x;
     FPTOF := fun x => x;
     EXTRUDERS := 2;
     PSTOP_SUPPORT := false;
     Z_HOME_MAX := false;
     getEeprom8 :=
       Machine.read [(Machine.at_axis_inversion, 23); (Machine.at_endstop_inversion, 130)];
     getEeprom32 := Machine.read (Machine.words 1000000 3000000000);
     AXIS_INVERSION := Machine.at_axis_inversion;
     ENDSTOP_INVERSION := Machine.at_endstop_inversion;
     PSTOP_ENABLE := Machine.at_pstop;
     AXIS_STEPS_PER_MM := Machine.at_steps_per_mm;
     AXIS_MAX_FEEDRATES := Machine.at_max_feedrates;
     AXIS_LENGTHS := Machine.at_axis_lengths;
     AXIS_HOME_POSITIONS_STEPS := Machine.at_home_positions;
     axis_steps_per_mm := fun _ => 0;
     axis_max_feedrates := fun _ => 0;
     axis_lengths := fun _ => 0;
     STEPPER_IOPORT_NULL := fun p => port p =? 0;
     X_STEPPER_MIN := Machine.line 40;
     fix_overflow := fun _ _ => -2147483648 |}.

Definition s_long : State hw_long :=
  {| stepperAxisPorts := [Machine.ports 100 true; Machine.ports 200 true;
                          Machine.ports 300 true; Machine.ports 400 false;
                          Machine.ports 500 false];
     stepperAxis := replicate 5 (Machine.busy_axis hw_long (Float.of_Z 30));
     dda_position := [120; -45; 3000; 77; -8];
     axis_homing := [true; false; true; false; false];
     e_steps := [5; -3];
     axesEnabled := 31;
     axesHardwareEnabled := 7;
     pstop_enable := 0;
     io := [] |}.

(** * Properties *)

(** ** Fixed-width integers *)

Lemma signed_in_range bits z :
  0 < bits -> Int.in_signed bits z = true -> Int.signed bits z = z.
Proof.
  unfold Int.in_signed, Int.min_signed, Int.max_signed, Int.signed.
  intros Hb Hr. apply andb_true_iff in Hr as [Hlo Hhi].
  apply Z.leb_le in Hlo, Hhi.
  assert (Hp : 2 ^ bits = 2 * 2 ^ (bits - 1)).
  { rewrite <- Z.pow_succ_r by lia. f_equal. lia. }
  assert (0 < 2 ^ (bits - 1)) by (apply Z.pow_pos_nonneg; lia).
  rewrite Z.mod_small by lia. lia.
Qed.

Lemma int32_in_range z : Int.in_signed 32 z = true -> Int.int32 z = z.
Proof. apply signed_in_range. lia. Qed.

Lemma int64_in_range z : Int.in_signed 64 z = true -> Int.int64 z = z.
Proof. apply signed_in_range. lia. Qed.

Lemma in_signed32_bounds z :
  Int.in_signed 32 z = true <-> -2147483648 <= z <= 2147483647.
Proof.
  unfold Int.in_signed, Int.min_signed, Int.max_signed.
  rewrite andb_true_iff, !Z.leb_le. change (2 ^ (32 - 1)) with 2147483648. lia.
Qed.

(** [(mask & (1 << i)) != 0] reads bit [i] of [mask]. *)
Lemma bit_set_testbit mask i : 0 <= i -> bit_set mask i = Z.testbit mask i.
Proof.
  intros Hi. unfold bit_set.
  rewrite Z.shiftl_1_l.
  destruct (Z.testbit mask i) eqn:Hb.
  - apply negb_true_iff, Z.eqb_neq. intros H0.
    assert (Ht : Z.testbit (Z.land mask (2 ^ i)) i = true).
    { rewrite Z.land_spec, Hb, Z.pow2_bits_true by lia. reflexivity. }
    rewrite H0, Z.bits_0 in Ht. discriminate.
  - apply negb_false_iff, Z.eqb_eq. apply Z.bits_inj'. intros n Hn.
    rewrite Z.land_spec, Z.bits_0.
    destruct (Z.eq_dec i n) as [<- | Hne].
    + rewrite Hb. reflexivity.
    + rewrite Z.pow2_bits_false by lia. apply andb_false_r.
Qed.

(** ** Loops that visit each index of an array once *)

Section IndexLoops.

Context {A : Type}.

Lemma foldl_alter_lookup (f : nat -> A -> A) (l : list A) (n j : nat) :
  foldl (fun l i => alter (f i) i l) l (seq 0 n) !! j
  = if decide (j < n)%nat then f j <$> l !! j else l !! j.
Proof.
  induction n as [| n IH]; [reflexivity |].
  rewrite seq_S, foldl_app. cbn [foldl Nat.add].
  rewrite list_lookup_alter. destruct (decide (n = j)) as [-> | Hne].
  - rewrite IH. rewrite decide_False by lia. rewrite decide_True by lia. reflexivity.
  - rewrite IH. destruct (decide (j < n)%nat).
    + rewrite decide_True by lia. reflexivity.
    + rewrite decide_False by lia. reflexivity.
Qed.

Lemma foldl_insert_lookup (v : A) (l : list A) (n j : nat) :
  foldl (fun l i => <[i := v]> l) l (seq 0 n) !! j
  = if decide (j < n)%nat then (fun _ => v) <$> l !! j else l !! j.
Proof.
  induction n as [| n IH]; [reflexivity |].
  rewrite seq_S, foldl_app. cbn [foldl Nat.add].
  destruct (decide (n = j)) as [-> | Hne].
  - rewrite decide_True by lia.
    destruct (l !! j) as [x |] eqn:Hl.
    + apply list_lookup_insert_eq.
      assert (is_Some (foldl (fun l i => <[i := v]> l) l (seq 0 j) !! j)) as Hs.
      { rewrite IH. rewrite decide_False by lia. eauto. }
      apply lookup_lt_is_Some in Hs. exact Hs.
    + apply list_lookup_insert_None. rewrite IH. rewrite decide_False by lia. reflexivity.
  - rewrite list_lookup_insert_ne by exact Hne. rewrite IH.
    destruct (decide (j < n)%nat).
    + rewrite decide_True by lia. reflexivity.
    + rewrite decide_False by lia. reflexivity.
Qed.

Lemma foldl_insert_length (v : A) (idx : list nat) (l : list A) :
  length (foldl (fun l i => <[i := v]> l) l idx) = length l.
Proof.
  revert l. induction idx as [| i idx IH]; intros l; [reflexivity |].
  cbn [foldl]. rewrite IH. apply length_insert.
Qed.

Lemma foldl_insert_replicate (v : A) (l : list A) :
  foldl (fun l i => <[i := v]> l) l (seq 0 (length l)) = replicate (length l) v.
Proof.
  apply list_eq. intros j. rewrite foldl_insert_lookup.
  destruct (decide (j < length l)%nat) as [Hj | Hj].
  - destruct (lookup_lt_is_Some_2 l j Hj) as [x Hx]. rewrite Hx. cbn.
    symmetry. apply lookup_replicate_2. exact Hj.
  - rewrite lookup_ge_None_2 by lia.
    symmetry. apply lookup_replicate_None. lia.
Qed.

End IndexLoops.

(** ** What one call of [stepperAxisInit] does to each global *)

Section InitFacts.

Variable hw : Platform.

Local Abbreviation axes_invert := (eeprom8 hw (AXIS_INVERSION hw) 0).
Local Abbreviation endstops_invert := (eeprom8 hw (ENDSTOP_INVERSION hw) 0).

Lemma loop_stepperAxis h ai ei idx (s : State hw) :
  stepperAxis (foldl (axis_body hw h ai ei) s idx)
  = foldl (fun l i => alter (axis_update hw h ai ei i) i l) (stepperAxis s) idx.
Proof.
  revert s. induction idx as [| i idx IH]; intros s; [reflexivity |].
  cbn [foldl]. rewrite IH. f_equal.
  unfold axis_update. destruct h; cbn [axis_body soft_axis hard_axis stepperAxis];
    [| reflexivity].
  apply (list_alter_alter_eq (reset_dda hw i)).
Qed.

Lemma loop_dda_position h ai ei idx (s : State hw) :
  dda_position (foldl (axis_body hw h ai ei) s idx)
  = if h then foldl (fun l i => <[i := 0]> l) (dda_position s) idx
    else dda_position s.
Proof.
  revert s. induction idx as [| i idx IH]; intros s.
  - destruct h; reflexivity.
  - cbn [foldl]. rewrite IH. destruct h; reflexivity.
Qed.

Lemma loop_axis_homing h ai ei idx (s : State hw) :
  axis_homing (foldl (axis_body hw h ai ei) s idx)
  = foldl (fun l i => <[i := false]> l) (axis_homing s) idx.
Proof.
  revert s. induction idx as [| i idx IH]; intros s; [reflexivity |].
  cbn [foldl]. rewrite IH. destruct h; reflexivity.
Qed.

(** The loop leaves the extruder counters and the enable masks alone. *)
Lemma loop_frame h ai ei idx (s : State hw) :
  let s' := foldl (axis_body hw h ai ei) s idx in
  e_steps s' = e_steps s /\
  axesEnabled s' = axesEnabled s /\
  axesHardwareEnabled s' = axesHardwareEnabled s /\
  stepperAxisPorts s' = stepperAxisPorts s /\
  pstop_enable s' = pstop_enable s.
Proof.
  revert s. induction idx as [| i idx IH]; intros s; [cbn; tauto |].
  cbn [foldl]. cbn zeta in *.
  destruct (IH (axis_body hw h ai ei s i)) as (-> & -> & -> & -> & ->).
  destruct h; cbn; tauto.
Qed.

Lemma load_pstop_frame (s : State hw) :
  let s' := load_pstop hw s in
  stepperAxis s' = stepperAxis s /\
  dda_position s' = dda_position s /\
  axis_homing s' = axis_homing s /\
  e_steps s' = e_steps s /\
  axesEnabled s' = axesEnabled s /\
  axesHardwareEnabled s' = axesHardwareEnabled s.
Proof. unfold load_pstop. destruct (PSTOP_SUPPORT hw); cbn; tauto. Qed.

Lemma clear_enabled_frame (s : State hw) :
  let s' := clear_enabled hw s in
  stepperAxis s' = stepperAxis s /\
  dda_position s' = dda_position s /\
  axis_homing s' = axis_homing s /\
  e_steps s' = e_steps s /\
  axesEnabled s' = 0 /\
  axesHardwareEnabled s' = 0.
Proof. cbn. tauto. Qed.

Lemma clear_e_steps_frame (s : State hw) :
  let s' := clear_e_steps hw s in
  stepperAxis s' = stepperAxis s /\
  dda_position s' = dda_position s /\
  axis_homing s' = axis_homing s /\
  axesEnabled s' = axesEnabled s /\
  axesHardwareEnabled s' = axesHardwareEnabled s /\
  e_steps s' = foldl (fun l i => <[i := 0]> l) (e_steps s) (seq 0 (EXTRUDERS hw)).
Proof. cbn. tauto. Qed.

(** The two control paths of [stepperAxisInit]. *)
Lemma stepperAxisInit_hard (s : State hw) :
  stepperAxisInit hw true s
  = clear_e_steps hw
      (clear_enabled hw
         (foldl (axis_body hw true axes_invert endstops_invert)
                (load_pstop hw s) (seq 0 STEPPER_COUNT))).
Proof. reflexivity. Qed.

Lemma stepperAxisInit_soft (s : State hw) :
  stepperAxisInit hw false s
  = clear_e_steps hw (foldl (axis_body hw false 0 0) s (seq 0 STEPPER_COUNT)).
Proof. reflexivity. Qed.

Lemma init_hard_stepperAxis (s : State hw) (j : nat) :
  stepperAxis (stepperAxisInit hw true s) !! j
  = if decide (j < STEPPER_COUNT)%nat
    then axis_update hw true axes_invert endstops_invert j <$> stepperAxis s !! j
    else stepperAxis s !! j.
Proof.
  rewrite stepperAxisInit_hard.
  destruct (clear_e_steps_frame
              (clear_enabled hw
                 (foldl (axis_body hw true axes_invert endstops_invert)
                        (load_pstop hw s) (seq 0 STEPPER_COUNT)))) as (-> & _).
  destruct (clear_enabled_frame
              (foldl (axis_body hw true axes_invert endstops_invert)
                     (load_pstop hw s) (seq 0 STEPPER_COUNT))) as (-> & _).
  rewrite loop_stepperAxis.
  rewrite (foldl_alter_lookup (axis_update hw true axes_invert endstops_invert)).
  destruct (load_pstop_frame s) as (-> & _). reflexivity.
Qed.

Lemma init_soft_stepperAxis (s : State hw) (j : nat) :
  stepperAxis (stepperAxisInit hw false s) !! j
  = if decide (j < STEPPER_COUNT)%nat
    then reset_dda hw j <$> stepperAxis s !! j
    else stepperAxis s !! j.
Proof.
  rewrite stepperAxisInit_soft.
  destruct (clear_e_steps_frame
              (foldl (axis_body hw false 0 0) s (seq 0 STEPPER_COUNT))) as (-> & _).
  rewrite loop_stepperAxis.
  apply (foldl_alter_lookup (axis_update hw false 0 0)).
Qed.

Lemma init_soft_dda_position (s : State hw) :
  dda_position (stepperAxisInit hw false s) = dda_position s.
Proof.
  rewrite stepperAxisInit_soft.
  destruct (clear_e_steps_frame
              (foldl (axis_body hw false 0 0) s (seq 0 STEPPER_COUNT)))
    as (_ & -> & _).
  apply (loop_dda_position false).
Qed.

Lemma init_hard_dda_position (s : State hw) (j : nat) :
  dda_position (stepperAxisInit hw true s) !! j
  = if decide (j < STEPPER_COUNT)%nat
    then (fun _ => 0) <$> dda_position s !! j
    else dda_position s !! j.
Proof.
  rewrite stepperAxisInit_hard.
  destruct (clear_e_steps_frame
              (clear_enabled hw
                 (foldl (axis_body hw true axes_invert endstops_invert)
                        (load_pstop hw s) (seq 0 STEPPER_COUNT)))) as (_ & -> & _).
  destruct (clear_enabled_frame
              (foldl (axis_body hw true axes_invert endstops_invert)
                     (load_pstop hw s) (seq 0 STEPPER_COUNT))) as (_ & -> & _).
  rewrite (loop_dda_position true), foldl_insert_lookup.
  destruct (load_pstop_frame s) as (_ & -> & _). reflexivity.
Qed.

Lemma init_axis_homing h (s : State hw) (j : nat) :
  axis_homing (stepperAxisInit hw h s) !! j
  = if decide (j < STEPPER_COUNT)%nat
    then (fun _ => false) <$> axis_homing s !! j
    else axis_homing s !! j.
Proof.
  destruct h.
  - rewrite stepperAxisInit_hard.
    destruct (clear_e_steps_frame
                (clear_enabled hw
                   (foldl (axis_body hw true axes_invert endstops_invert)
                          (load_pstop hw s) (seq 0 STEPPER_COUNT)))) as (_ & _ & -> & _).
    destruct (clear_enabled_frame
                (foldl (axis_body hw true axes_invert endstops_invert)
                       (load_pstop hw s) (seq 0 STEPPER_COUNT))) as (_ & _ & -> & _).
    rewrite loop_axis_homing, foldl_insert_lookup.
    destruct (load_pstop_frame s) as (_ & _ & -> & _). reflexivity.
  - rewrite stepperAxisInit_soft.
    destruct (clear_e_steps_frame
                (foldl (axis_body hw false 0 0) s (seq 0 STEPPER_COUNT)))
      as (_ & _ & -> & _).
    rewrite loop_axis_homing. apply foldl_insert_lookup.
Qed.

Lemma init_e_steps h (s : State hw) :
  e_steps (stepperAxisInit hw h s)
  = foldl (fun l i => <[i := 0]> l) (e_steps s) (seq 0 (EXTRUDERS hw)).
Proof.
  destruct h.
  - rewrite stepperAxisInit_hard.
    destruct (clear_e_steps_frame
                (clear_enabled hw
                   (foldl (axis_body hw true axes_invert endstops_invert)
                          (load_pstop hw s) (seq 0 STEPPER_COUNT))))
      as (_ & _ & _ & _ & _ & ->).
    destruct (clear_enabled_frame
                (foldl (axis_body hw true axes_invert endstops_invert)
                       (load_pstop hw s) (seq 0 STEPPER_COUNT))) as (_ & _ & _ & -> & _).
    destruct (loop_frame true axes_invert endstops_invert (seq 0 STEPPER_COUNT)
                         (load_pstop hw s)) as (-> & _).
    destruct (load_pstop_frame s) as (_ & _ & _ & -> & _). reflexivity.
  - rewrite stepperAxisInit_soft.
    destruct (clear_e_steps_frame
                (foldl (axis_body hw false 0 0) s (seq 0 STEPPER_COUNT)))
      as (_ & _ & _ & _ & _ & ->).
    destruct (loop_frame false 0 0 (seq 0 STEPPER_COUNT) s) as (-> & _).
    reflexivity.
Qed.

Lemma init_soft_enabled (s : State hw) :
  axesEnabled (stepperAxisInit hw false s) = axesEnabled s /\
  axesHardwareEnabled (stepperAxisInit hw false s) = axesHardwareEnabled s.
Proof.
  rewrite stepperAxisInit_soft.
  destruct (clear_e_steps_frame
              (foldl (axis_body hw false 0 0) s (seq 0 STEPPER_COUNT)))
    as (_ & _ & _ & -> & -> & _).
  destruct (loop_frame false 0 0 (seq 0 STEPPER_COUNT) s) as (_ & -> & -> & _).
  tauto.
Qed.

Lemma init_hard_enabled (s : State hw) :
  axesEnabled (stepperAxisInit hw true s) = 0 /\
  axesHardwareEnabled (stepperAxisInit hw true s) = 0.
Proof.
  rewrite stepperAxisInit_hard.
  destruct (clear_e_steps_frame
              (clear_enabled hw
                 (foldl (axis_body hw true axes_invert endstops_invert)
                        (load_pstop hw s) (seq 0 STEPPER_COUNT))))
    as (_ & _ & _ & -> & -> & _).
  apply clear_enabled_frame.
Qed.

End InitFacts.

(** ** Soft reset: what is reset and what is kept *)

Section SoftReset.

Variable hw : Platform.

Lemma soft_axis_lookup (s : State hw) (i : nat) :
  length (stepperAxis s) = STEPPER_COUNT -> (i < STEPPER_COUNT)%nat ->
  exists a, stepperAxis s !! i = Some a /\
            stepperAxis (stepperAxisInit hw false s) !! i = Some (reset_dda hw i a).
Proof.
  intros Hlen Hi.
  destruct (lookup_lt_is_Some_2 (stepperAxis s) i) as [a Ha]; [lia |].
  exists a. split; [exact Ha |].
  rewrite init_soft_stepperAxis, decide_True, Ha by exact Hi. reflexivity.
Qed.

Lemma axis_homing_cleared h (s : State hw) (i : nat) :
  length (axis_homing s) = STEPPER_COUNT -> (i < STEPPER_COUNT)%nat ->
  axis_homing (stepperAxisInit hw h s) !! i = Some false.
Proof.
  intros Hlen Hi.
  destruct (lookup_lt_is_Some_2 (axis_homing s) i) as [b Hb]; [lia |].
  rewrite init_axis_homing, decide_True, Hb by exact Hi. reflexivity.
Qed.

(** C5: a call with [hard_reset = false] leaves [steps_per_mm],
    [max_feedrate] and both travel limits of every axis and the whole of
    [dda_position] as they were, sets [axis_homing] of every axis to
    false, and puts the motion descriptor of every axis (counter,
    direction, stepperDir, master, master_steps, steps_completed, steps)
    back to its initial values. *)
Theorem soft_reset_keeps_calibration (s : State hw) :
  length (stepperAxis s) = STEPPER_COUNT ->
  length (axis_homing s) = STEPPER_COUNT ->
  let s' := stepperAxisInit hw false s in
  dda_position s' = dda_position s /\
  forall i, (i < STEPPER_COUNT)%nat ->
    exists a a',
      stepperAxis s !! i = Some a /\ stepperAxis s' !! i = Some a' /\
      steps_per_mm a' = steps_per_mm a /\
      max_feedrate a' = max_feedrate a /\
      min_axis_steps_limit a' = min_axis_steps_limit a /\
      max_axis_steps_limit a' = max_axis_steps_limit a /\
      axis_homing s' !! i = Some false /\
      counter (dda a') = 0 /\
      direction (dda a') = 1 /\
      stepperDir (dda a') = false /\
      master (dda a') = false /\
      master_steps (dda a') = 0 /\
      steps_completed (dda a') = 0 /\
      steps (dda a') = 0.
Proof.
  intros Hax Hhome s'. split; [apply init_soft_dda_position |].
  intros i Hi.
  destruct (soft_axis_lookup s i Hax Hi) as (a & Ha & Ha').
  exists a, (reset_dda hw i a).
  repeat (split; [first [exact Ha | exact Ha' | reflexivity
                        | apply axis_homing_cleared; assumption] |]).
  reflexivity.
Qed.

(** C10: a call with [hard_reset = false] also leaves [hasHomed],
    [hasDefinePosition], [invert_axis], [invert_endstop] and
    [min_interval] of every axis, and the two enable masks, as they
    were. *)
Theorem soft_reset_keeps_flags (s : State hw) :
  length (stepperAxis s) = STEPPER_COUNT ->
  let s' := stepperAxisInit hw false s in
  axesEnabled s' = axesEnabled s /\
  axesHardwareEnabled s' = axesHardwareEnabled s /\
  forall i, (i < STEPPER_COUNT)%nat ->
    exists a a',
      stepperAxis s !! i = Some a /\ stepperAxis s' !! i = Some a' /\
      hasHomed a' = hasHomed a /\
      hasDefinePosition a' = hasDefinePosition a /\
      invert_axis a' = invert_axis a /\
      invert_endstop a' = invert_endstop a /\
      min_interval a' = min_interval a.
Proof.
  intros Hax s'.
  destruct (init_soft_enabled hw s) as [He Hh].
  split; [exact He |]. split; [exact Hh |].
  intros i Hi.
  destruct (soft_axis_lookup s i Hax Hi) as (a & Ha & Ha').
  exists a, (reset_dda hw i a). auto 10.
Qed.

End SoftReset.

(** ** The extruder step counters *)

(** C8: after a call with either value of [hard_reset], every entry of
    [e_steps] is zero. *)
Theorem e_steps_zero_after_init (hw : Platform) (h : bool) (s : State hw) :
  length (e_steps s) = EXTRUDERS hw ->
  e_steps (stepperAxisInit hw h s) = replicate (EXTRUDERS hw) 0.
Proof.
  intros Hlen. rewrite init_e_steps, <- Hlen. apply foldl_insert_replicate.
Qed.

(** ** Signs of the floating point operations *)

Section FloatSigns.

Lemma binary_round_aux_sign s m e l :
  match binary_round_aux Float.prec Float.emax s m e l with
  | S754_zero s' | S754_infinity s' | S754_finite s' _ _ => s' = s
  | S754_nan => True
  end.
Proof.
  unfold binary_round_aux.
  destruct (shr_fexp Float.prec Float.emax m e l) as [mrs e'].
  destruct (shr_fexp Float.prec Float.emax
              (round_nearest_even (shr_m mrs) (loc_of_shr_record mrs)) e' loc_Exact)
    as [mrs' e''].
  destruct (shr_m mrs'); [reflexivity | | exact I].
  destruct (e'' <=? Float.emax - Float.prec); reflexivity.
Qed.

Lemma round_aux_not_negative m e l :
  not_negative (binary_round_aux Float.prec Float.emax false m e l).
Proof.
  pose proof (binary_round_aux_sign false m e l) as H. unfold not_negative.
  destruct (binary_round_aux Float.prec Float.emax false m e l); auto.
Qed.

Lemma of_Z_not_negative z : 0 <= z -> not_negative (Float.of_Z z).
Proof.
  intros Hz. unfold Float.of_Z, binary_normalize.
  destruct z as [| p | p]; [reflexivity | | lia].
  unfold binary_round.
  destruct (shl_align p 0 (fexp Float.prec Float.emax (Z.pos (digits2_pos p) + 0)))
    as [mz ez].
  apply round_aux_not_negative.
Qed.

Lemma mul_not_negative x y :
  not_negative x -> not_negative y -> not_negative (Float.mul x y).
Proof.
  destruct x as [sx | sx | | sx mx ex], y as [sy | sy | | sy my ey];
    cbn [not_negative Float.mul SFmul]; intros Hx Hy; subst;
    try exact I; try reflexivity.
  apply round_aux_not_negative.
Qed.

Lemma div_not_negative x y :
  not_negative x -> not_negative y -> not_negative (Float.div x y).
Proof.
  destruct x as [sx | sx | | sx mx ex], y as [sy | sy | | sy my ey];
    cbn [not_negative Float.div SFdiv]; intros Hx Hy; subst;
    try exact I; try reflexivity.
  destruct (SFdiv_core_binary Float.prec Float.emax (Z.pos mx) ex (Z.pos my) ey)
    as [[mz ez] lz].
  apply round_aux_not_negative.
Qed.

Lemma trunc_not_negative x z :
  not_negative x -> Float.trunc x = Some z -> 0 <= z.
Proof.
  destruct x as [sx | sx | | sx mx ex]; cbn [not_negative Float.trunc];
    intros Hx Hz; try discriminate.
  - injection Hz as <-. lia.
  - subst sx. injection Hz as <-. cbn [cond_Zopp].
    apply Z.shiftl_nonneg. lia.
Qed.

(** A defined cast is the truncation, whatever the platform does with
    the undefined ones. *)
Lemma to_int_defined fo bits x :
  Float.cast_defined bits x = true ->
  exists z, Float.trunc x = Some z /\ Int.in_signed bits z = true /\
            Float.to_int fo bits x = z.
Proof.
  unfold Float.cast_defined, Float.to_int.
  destruct (Float.trunc x) as [z |]; [| discriminate].
  intros Hr. exists z. rewrite Hr. auto.
Qed.

Lemma to_int_trunc fo bits x z :
  Float.trunc x = Some z -> Int.in_signed bits z = true ->
  Float.to_int fo bits x = z.
Proof. unfold Float.to_int. intros -> ->. reflexivity. Qed.

End FloatSigns.

(** ** Hard reset: what is loaded from the persistent store *)

Section HardReset.

Variable hw : Platform.

Local Abbreviation axes_invert := (eeprom8 hw (AXIS_INVERSION hw) 0).
Local Abbreviation endstops_invert := (eeprom8 hw (ENDSTOP_INVERSION hw) 0).

Lemma eeprom32_nonneg offset default : 0 <= eeprom32 hw offset default.
Proof. unfold eeprom32, Int.uint32, Int.unsigned. apply Z.mod_pos_bound. lia. Qed.

Lemma hard_axis_lookup (s : State hw) (i : nat) :
  length (stepperAxis s) = STEPPER_COUNT -> (i < STEPPER_COUNT)%nat ->
  exists a, stepperAxis s !! i = Some a /\
            stepperAxis (stepperAxisInit hw true s) !! i
            = Some (axis_update hw true axes_invert endstops_invert i a).
Proof.
  intros Hlen Hi.
  destruct (lookup_lt_is_Some_2 (stepperAxis s) i) as [a Ha]; [lia |].
  exists a. split; [exact Ha |].
  rewrite init_hard_stepperAxis, decide_True, Ha by exact Hi. reflexivity.
Qed.

Lemma loaded_steps_per_mm ai ei i (a : StepperAxis hw) :
  steps_per_mm (axis_update hw true ai ei i a)
  = Float.div (Float.of_Z (stored_steps_per_mm hw i)) (Float.of_Z 1000000).
Proof. reflexivity. Qed.

Lemma loaded_steps_per_mm_sign ai ei i (a : StepperAxis hw) :
  not_negative (steps_per_mm (axis_update hw true ai ei i a)).
Proof.
  rewrite loaded_steps_per_mm.
  apply div_not_negative; apply of_Z_not_negative; [apply eeprom32_nonneg | lia].
Qed.

Lemma loaded_limits ai ei i (a : StepperAxis hw) :
  let a' := axis_update hw true ai ei i a in
  (max_axis_steps_limit a', min_axis_steps_limit a')
  = axis_limits hw i (to_int32 hw (length_product hw i (steps_per_mm a')))
                (max_axis_steps_limit a, min_axis_steps_limit a).
Proof.
  cbv zeta. rewrite loaded_steps_per_mm.
  unfold axis_update, reset_dda, load_axis.
  cbn [max_axis_steps_limit min_axis_steps_limit].
  symmetry. apply surjective_pairing.
Qed.

(** C3: after a hard reset, if bit 7 of the stored endstop-inversion mask
    is clear then [invert_endstop] is true on every axis; if bit 7 is
    set then [invert_endstop] of axis [i] is bit [i] of the mask. *)
Theorem endstop_inversion_after_hard_reset (s : State hw) (i : nat) :
  length (stepperAxis s) = STEPPER_COUNT -> (i < STEPPER_COUNT)%nat ->
  exists a,
    stepperAxis (stepperAxisInit hw true s) !! i = Some a /\
    (Z.testbit endstops_invert 7 = false -> invert_endstop a = true) /\
    (Z.testbit endstops_invert 7 = true ->
     invert_endstop a = Z.testbit endstops_invert (Z.of_nat i)).
Proof.
  intros Hlen Hi.
  destruct (hard_axis_lookup s i Hlen Hi) as (a & _ & Ha').
  eexists. split; [exact Ha' |].
  change (invert_endstop (axis_update hw true axes_invert endstops_invert i a))
    with (negb (bit_set endstops_invert 7)
          || bit_set endstops_invert (Z.of_nat i)).
  rewrite !bit_set_testbit by lia.
  split; intros ->; reflexivity.
Qed.

(** C7: during a hard reset, for every axis, the value [f] that the
    conversion to [int32_t] makes of [steps_per_mm * max_feedrate]
    decides [min_interval]: 500 when [f] is zero, with no division, and
    [1000000 / f] otherwise; [f] is the integer part of the product
    whenever that fits the type. *)
Theorem min_interval_after_hard_reset (s : State hw) (i : nat) :
  length (stepperAxis s) = STEPPER_COUNT -> (i < STEPPER_COUNT)%nat ->
  exists a,
    stepperAxis (stepperAxisInit hw true s) !! i = Some a /\
    let product := Float.mul (steps_per_mm a) (FPTOF hw (max_feedrate a)) in
    let f := to_int32 hw product in
    (f = 0 -> min_interval a = 500) /\
    (f <> 0 -> min_interval a = Z.quot 1000000 f) /\
    (forall t, Float.trunc product = Some t -> Int.in_signed 32 t = true -> f = t).
Proof.
  intros Hlen Hi.
  destruct (hard_axis_lookup s i Hlen Hi) as (a & _ & Ha').
  eexists. split; [exact Ha' |].
  set (a' := axis_update hw true axes_invert endstops_invert i a).
  intros product f.
  assert (Hint : min_interval a' = if f =? 0 then 500 else Z.quot 1000000 f)
    by reflexivity.
  rewrite Hint. repeat split.
  - intros ->. reflexivity.
  - intros Hf. apply Z.eqb_neq in Hf. rewrite Hf. reflexivity.
  - intros t Ht Hr. apply to_int_trunc; assumption.
Qed.

Lemma length_steps_bounds i (spm : float) :
  not_negative spm ->
  Float.cast_defined 32 (length_product hw i spm) = true ->
  exists L, Float.trunc (length_product hw i spm) = Some L /\
            to_int32 hw (length_product hw i spm) = L /\
            0 <= L <= 2147483647.
Proof.
  intros Hs Hd.
  destruct (to_int_defined (fix_overflow hw) 32 _ Hd) as (L & Ht & Hr & Hc).
  exists L. split; [exact Ht |]. split; [exact Hc |].
  apply in_signed32_bounds in Hr.
  assert (0 <= L); [| lia].
  apply (trunc_not_negative (length_product hw i spm)); [| exact Ht].
  apply mul_not_negative; [| exact Hs].
  apply of_Z_not_negative, eeprom32_nonneg.
Qed.

Lemma int32_opp_nonneg z : 0 <= z <= 2147483647 -> Int.int32 (- z) = - z.
Proof. intros Hz. apply int32_in_range, in_signed32_bounds. lia. Qed.

Lemma quot2_bounds z : 0 <= z <= 2147483647 -> 0 <= Z.quot z 2 <= 2147483647.
Proof. intros Hz. rewrite Z.quot_div_nonneg by lia. split; [apply Z.div_pos; lia |].
  apply Z.le_trans with z; [apply Z.div_le_upper_bound; lia | lia]. Qed.

(** C6, as the code has it: after a hard reset [min_axis_steps_limit] of
    the Z axis is zero, and zero lies between the two limits of each of
    X, Y, A and B wherever the axis length in steps, the integer part of
    the stored length times [steps_per_mm], fits [int32_t], so that the
    conversion is defined. *)
Theorem limits_contain_origin (s : State hw) (i : nat) :
  length (stepperAxis s) = STEPPER_COUNT -> (i < STEPPER_COUNT)%nat ->
  exists a,
    stepperAxis (stepperAxisInit hw true s) !! i = Some a /\
    (i = Z_AXIS -> min_axis_steps_limit a = 0) /\
    (i <> Z_AXIS ->
     Float.cast_defined 32 (length_product hw i (steps_per_mm a)) = true ->
     min_axis_steps_limit a <= 0 <= max_axis_steps_limit a).
Proof.
  intros Hlen Hi.
  destruct (hard_axis_lookup s i Hlen Hi) as (a & _ & Ha').
  eexists. split; [exact Ha' |].
  pose proof (loaded_limits axes_invert endstops_invert i a) as Hlim.
  pose proof (loaded_steps_per_mm_sign axes_invert endstops_invert i a) as Hsign.
  cbv zeta in Hlim.
  set (a' := axis_update hw true axes_invert endstops_invert i a) in *.
  split.
  - intros ->. cbn [axis_limits Z_AXIS] in Hlim. congruence.
  - intros Hz Hd.
    destruct (length_steps_bounds i _ Hsign Hd) as (L & _ & HL & Hb).
    rewrite HL in Hlim.
    assert (Hcases : (i = 0 \/ i = 1 \/ i = 3 \/ i = 4)%nat)
      by (unfold STEPPER_COUNT, Z_AXIS in *; lia).
    pose proof (quot2_bounds L Hb) as Hq.
    destruct Hcases as [-> | [-> | [-> | ->]]]; cbn [axis_limits] in Hlim;
      first [rewrite (int32_opp_nonneg _ Hq) in Hlim
            | rewrite (int32_opp_nonneg _ Hb) in Hlim];
      apply pair_equal_spec in Hlim as [-> ->]; lia.
Qed.

(** C4, as the code has it: after a hard reset the travel limits of each
    axis come from [L], the integer part (toward zero, not the nearest
    integer) of the stored axis length times [steps_per_mm], whenever [L]
    fits [int32_t]: for X and Y the maximum is [L / 2] and the minimum
    its negation; for A and B they are [L] and [- L]; for Z, when homing
    to the minimum, the minimum is 0 and the maximum is [L] less the
    stored home position (where that difference fits [int32_t]).  With
    88 steps per mm and 200 mm stored for X the limits are 8800 and
    -8800. *)
Theorem travel_limits_after_hard_reset (s : State hw) (i : nat) :
  length (stepperAxis s) = STEPPER_COUNT -> (i < STEPPER_COUNT)%nat ->
  exists a,
    stepperAxis (stepperAxisInit hw true s) !! i = Some a /\
    (forall L,
        Float.trunc (length_product hw i (steps_per_mm a)) = Some L ->
        Int.in_signed 32 L = true ->
        (i = X_AXIS \/ i = Y_AXIS ->
         max_axis_steps_limit a = Z.quot L 2 /\
         min_axis_steps_limit a = - max_axis_steps_limit a) /\
        (i = A_AXIS \/ i = B_AXIS ->
         max_axis_steps_limit a = L /\ min_axis_steps_limit a = - L) /\
        (i = Z_AXIS -> Z_HOME_MAX hw = false ->
         min_axis_steps_limit a = 0 /\
         (Int.in_signed 32 (L - home_position_steps hw i) = true ->
          max_axis_steps_limit a = L - home_position_steps hw i))) /\
    (i = X_AXIS -> stored_steps_per_mm hw i = 88000000 -> stored_length hw i = 200 ->
     max_axis_steps_limit a = 8800 /\ min_axis_steps_limit a = -8800).
Proof.
  intros Hlen Hi.
  destruct (hard_axis_lookup s i Hlen Hi) as (a & _ & Ha').
  eexists. split; [exact Ha' |].
  pose proof (loaded_limits axes_invert endstops_invert i a) as Hlim.
  pose proof (loaded_steps_per_mm_sign axes_invert endstops_invert i a) as Hsign.
  pose proof (loaded_steps_per_mm axes_invert endstops_invert i a) as Hspm.
  cbv zeta in Hlim.
  set (a' := axis_update hw true axes_invert endstops_invert i a) in *.
  assert (Hgen : forall L,
             Float.trunc (length_product hw i (steps_per_mm a')) = Some L ->
             Int.in_signed 32 L = true ->
             (max_axis_steps_limit a', min_axis_steps_limit a')
             = axis_limits hw i L (max_axis_steps_limit a, min_axis_steps_limit a)
             /\ 0 <= L <= 2147483647).
  { intros L Ht Hr. rewrite Hlim.
    rewrite (to_int_trunc (fix_overflow hw) 32 _ L Ht Hr : to_int32 hw _ = L).
    split; [reflexivity |].
    apply in_signed32_bounds in Hr.
    assert (0 <= L); [| lia].
    apply (trunc_not_negative (length_product hw i (steps_per_mm a'))); [| exact Ht].
    apply mul_not_negative; [| exact Hsign].
    apply of_Z_not_negative, eeprom32_nonneg. }
  split.
  - intros L Ht Hr. destruct (Hgen L Ht Hr) as [HL Hb].
    pose proof (quot2_bounds L Hb) as Hq.
    split; [| split].
    + intros [-> | ->]; cbn [axis_limits X_AXIS Y_AXIS] in HL;
        rewrite (int32_opp_nonneg _ Hq) in HL;
        apply pair_equal_spec in HL as [-> ->]; split; reflexivity.
    + intros [-> | ->]; cbn [axis_limits A_AXIS B_AXIS] in HL;
        rewrite (int32_opp_nonneg _ Hb) in HL;
        apply pair_equal_spec in HL as [-> ->]; split; reflexivity.
    + intros -> Hhome. cbn [axis_limits Z_AXIS] in HL. rewrite Hhome in HL.
      apply pair_equal_spec in HL as [Hmax Hmin].
      split; [exact Hmin |].
      intros Hfit. rewrite Hmax. apply int32_in_range, Hfit.
  - intros -> Hs Hl.
    assert (Ht : Float.trunc (length_product hw X_AXIS (steps_per_mm a')) = Some 17600).
    { rewrite Hspm. unfold length_product. rewrite Hs, Hl. vm_compute. reflexivity. }
    destruct (Hgen 17600 Ht eq_refl) as [HL _].
    split; [exact (f_equal fst HL) | exact (f_equal snd HL)].
Qed.

End HardReset.

(** ** Calling [stepperAxisInit] twice *)

Section Idempotence.

Variable hw : Platform.

Lemma axis_limits_again i L (old : Z * Z) :
  axis_limits hw i L (fst (axis_limits hw i L old), snd (axis_limits hw i L old))
  = axis_limits hw i L old.
Proof.
  destruct i as [| [| [| [| [| i]]]]]; cbn [axis_limits]; try reflexivity.
  destruct old; reflexivity.
Qed.

Lemma axis_update_again h ai ei i (a : StepperAxis hw) :
  axis_update hw h ai ei i (axis_update hw h ai ei i a) = axis_update hw h ai ei i a.
Proof.
  destruct h; [| reflexivity].
  unfold axis_update, reset_dda, load_axis.
  cbn [invert_endstop invert_axis steps_per_mm max_feedrate min_interval
       max_axis_steps_limit min_axis_steps_limit hasHomed hasDefinePosition dda].
  rewrite axis_limits_again. reflexivity.
Qed.

Lemma fmap_const_again {A} (v : A) (o : option A) :
  (fun _ => v) <$> ((fun _ => v) <$> o) = (fun _ => v) <$> o.
Proof. destruct o; reflexivity. Qed.

(** C9: for either value of [hard_reset], a second call in succession,
    reading the same persistent store, leaves the axis records,
    [dda_position], [axis_homing], [e_steps] and both enable masks as
    the first call left them. *)
Theorem stepperAxisInit_idempotent (h : bool) (s : State hw) :
  let s1 := stepperAxisInit hw h s in
  let s2 := stepperAxisInit hw h s1 in
  stepperAxis s2 = stepperAxis s1 /\
  dda_position s2 = dda_position s1 /\
  axis_homing s2 = axis_homing s1 /\
  e_steps s2 = e_steps s1 /\
  axesEnabled s2 = axesEnabled s1 /\
  axesHardwareEnabled s2 = axesHardwareEnabled s1.
Proof.
  intros s1 s2. subst s2 s1. repeat split.
  - apply list_eq. intros j. destruct h.
    + rewrite !init_hard_stepperAxis.
      destruct (decide (j < STEPPER_COUNT)%nat); [| reflexivity].
      destruct (stepperAxis s !! j) as [a |]; [| reflexivity].
      cbn [fmap option_fmap option_map]. rewrite axis_update_again. reflexivity.
    + rewrite !init_soft_stepperAxis.
      destruct (decide (j < STEPPER_COUNT)%nat); [| reflexivity].
      destruct (stepperAxis s !! j) as [a |]; reflexivity.
  - destruct h.
    + apply list_eq. intros j. rewrite !init_hard_dda_position.
      destruct (decide (j < STEPPER_COUNT)%nat); [| reflexivity].
      apply fmap_const_again.
    + rewrite !init_soft_dda_position. reflexivity.
  - apply list_eq. intros j. rewrite !init_axis_homing.
    destruct (decide (j < STEPPER_COUNT)%nat); [| reflexivity].
    apply fmap_const_again.
  - apply list_eq. intros j. rewrite !init_e_steps, !foldl_insert_lookup.
    destruct (decide (j < EXTRUDERS hw)%nat); [| reflexivity].
    apply fmap_const_again.
  - destruct h.
    + destruct (init_hard_enabled hw (stepperAxisInit hw true s)) as [H2 _].
      destruct (init_hard_enabled hw s) as [H1 _].
      exact (eq_trans H2 (eq_sym H1)).
    + exact (proj1 (init_soft_enabled hw (stepperAxisInit hw false s))).
  - destruct h.
    + destruct (init_hard_enabled hw (stepperAxisInit hw true s)) as [_ H2].
      destruct (init_hard_enabled hw s) as [_ H1].
      exact (eq_trans H2 (eq_sym H1)).
    + exact (proj2 (init_soft_enabled hw (stepperAxisInit hw false s))).
Qed.

End Idempotence.

(** ** Rounding to nearest, step by step *)

Section Rounding.

Lemma digits2_bounds p :
  2 ^ (Zpos (digits2_pos p) - 1) <= Zpos p < 2 ^ Zpos (digits2_pos p).
Proof.
  induction p as [p IH | p IH |]; cbn [digits2_pos].
  - rewrite Pos2Z.inj_succ.
    replace (Z.succ (Z.pos (digits2_pos p)) - 1) with (Z.succ (Z.pos (digits2_pos p) - 1)) by lia.
    rewrite !Z.pow_succ_r by lia. lia.
  - rewrite Pos2Z.inj_succ.
    replace (Z.succ (Z.pos (digits2_pos p)) - 1) with (Z.succ (Z.pos (digits2_pos p) - 1)) by lia.
    rewrite !Z.pow_succ_r by lia. lia.
  - cbn. lia.
Qed.

Lemma shr_1_located r N D : located r N D -> located (shr_1 r) N (2 * D).
Proof.
  unfold located. destruct r as [m r s]. cbn [shr_m shr_r shr_s].
  intros (Hm & HD & Hrem & Hr & Hs).
  destruct m as [| p | p]; [| | lia].
  - cbn [shr_1 shr_m shr_r shr_s].
    destruct r, s; cbn [orb]; lia.
  - destruct p as [p | p |]; cbn [shr_1 shr_m shr_r shr_s];
      [rewrite (Pos2Z.inj_xI p) in * | rewrite (Pos2Z.inj_xO p) in * |];
      destruct r, s; cbn [orb]; lia.
Qed.

Lemma pow2_xI p : 2 ^ Z.pos p~1 = 2 * 2 ^ Z.pos p * 2 ^ Z.pos p.
Proof.
  rewrite (Pos2Z.inj_xI p).
  replace (2 * Z.pos p + 1) with (1 + Z.pos p + Z.pos p) by lia.
  rewrite (Z.pow_add_r 2 (1 + Z.pos p) (Z.pos p)) by lia.
  rewrite (Z.pow_add_r 2 1 (Z.pos p)) by lia. reflexivity.
Qed.

Lemma pow2_xO p : 2 ^ Z.pos p~0 = 2 ^ Z.pos p * 2 ^ Z.pos p.
Proof.
  rewrite (Pos2Z.inj_xO p).
  replace (2 * Z.pos p) with (Z.pos p + Z.pos p) by lia.
  apply Z.pow_add_r; lia.
Qed.

Lemma iter_shr_located p : forall r N D,
  located r N D -> located (SpecFloat.iter_pos shr_1 p r) N (D * 2 ^ Zpos p).
Proof.
  induction p as [p IH | p IH |]; intros r N D H; cbn [SpecFloat.iter_pos].
  - apply shr_1_located in H. apply IH, IH in H.
    rewrite pow2_xI.
    replace (D * (2 * 2 ^ Z.pos p * 2 ^ Z.pos p))
      with (2 * D * 2 ^ Z.pos p * 2 ^ Z.pos p) by ring.
    exact H.
  - apply IH, IH in H.
    rewrite pow2_xO.
    replace (D * (2 ^ Z.pos p * 2 ^ Z.pos p))
      with (D * 2 ^ Z.pos p * 2 ^ Z.pos p) by ring.
    exact H.
  - apply shr_1_located in H. replace (D * 2 ^ 1) with (2 * D) by lia. exact H.
Qed.

Lemma round_nearest_even_located r N D :
  located r N D ->
  let m := round_nearest_even (shr_m r) (loc_of_shr_record r) in
  shr_m r <= m <= shr_m r + 1 /\ - D <= 2 * (m * D - N) <= D.
Proof.
  unfold located. destruct r as [m r s]. cbn [shr_m shr_r shr_s loc_of_shr_record].
  intros (Hm & HD & Hrem & Hr & Hs).
  destruct r, s; cbn [round_nearest_even]; try destruct (Z.even m); lia.
Qed.

Lemma Zdigits2_bound m : 0 <= m -> m < 2 ^ Zdigits2 m.
Proof.
  destruct m as [| p | p]; intros Hm; [reflexivity | | lia].
  apply digits2_bounds.
Qed.

Lemma fexp_ge_emin e : -149 <= fexp Float.prec Float.emax e.
Proof. unfold fexp, emin, Float.prec, Float.emax. lia. Qed.

Lemma shr_fexp_located m e l N D :
  0 <= m ->
  located (shr_record_of_loc m l) N D ->
  let e1 := Z.max (fexp Float.prec Float.emax (Zdigits2 m + e)) e in
  exists r1, shr_fexp Float.prec Float.emax m e l = (r1, e1) /\ located r1 N (D * 2 ^ (e1 - e)).
Proof.
  intros Hm Hloc e1. unfold shr_fexp, shr. subst e1.
  set (fe := fexp Float.prec Float.emax (Zdigits2 m + e)).
  destruct (fe - e) as [| p | p] eqn:Hn.
  - exists (shr_record_of_loc m l). split; [f_equal; lia |].
    replace (Z.max fe e - e) with 0 by lia. rewrite Z.mul_1_r. exact Hloc.
  - exists (SpecFloat.iter_pos shr_1 p (shr_record_of_loc m l)). split; [f_equal; lia |].
    replace (Z.max fe e - e) with (Z.pos p) by lia.
    apply iter_shr_located, Hloc.
  - exists (shr_record_of_loc m l). split; [f_equal; lia |].
    replace (Z.max fe e - e) with 0 by lia. rewrite Z.mul_1_r. exact Hloc.
Qed.

Lemma located_mantissa_bound m l r1 N D t :
  0 <= m -> 0 <= t -> Zdigits2 m - Float.prec <= t ->
  located (shr_record_of_loc m l) N D ->
  located r1 N (D * 2 ^ t) ->
  shr_m r1 < 2 ^ Float.prec.
Proof.
  intros Hm Ht Hd (_ & HD & Hrem & _) (Hm1 & _ & Hrem1 & _).
  assert (Hmm : shr_m (shr_record_of_loc m l) = m) by (destruct l as [| []]; reflexivity).
  rewrite Hmm in Hrem.
  pose proof (Zdigits2_bound m Hm) as Hb.
  assert (Hpt : 0 < 2 ^ t) by (apply Z.pow_pos_nonneg; lia).
  assert (Hpow : 2 ^ Zdigits2 m <= 2 ^ Float.prec * 2 ^ t).
  { rewrite <- Z.pow_add_r by (unfold Float.prec; lia).
    apply Z.pow_le_mono_r; unfold Float.prec in *; lia. }
  assert (H1 : shr_m r1 * (D * 2 ^ t) < 2 ^ Float.prec * (D * 2 ^ t)) by nia.
  apply Z.mul_lt_mono_pos_r in H1; [exact H1 | nia].
Qed.

Lemma second_shr_fexp m1 e1 :
  0 <= m1 <= 2 ^ Float.prec -> -149 <= e1 ->
  shr_fexp Float.prec Float.emax m1 e1 loc_Exact
  = if m1 =? 2 ^ Float.prec
    then ({| shr_m := 2 ^ (Float.prec - 1); shr_r := false; shr_s := false |}, e1 + 1)
    else ({| shr_m := m1; shr_r := false; shr_s := false |}, e1).
Proof.
  intros Hm He. destruct (Z.eqb_spec m1 (2 ^ Float.prec)) as [-> | Hne].
  - unfold shr_fexp. change (Zdigits2 (2 ^ Float.prec)) with 25.
    replace (fexp Float.prec Float.emax (25 + e1) - e1) with 1
      by (unfold fexp, emin, Float.prec, Float.emax; lia).
    reflexivity.
  - unfold shr_fexp, shr. cbn [shr_record_of_loc].
    assert (Hn : fexp Float.prec Float.emax (Zdigits2 m1 + e1) - e1 <= 0).
    { unfold fexp, emin, Float.prec, Float.emax in *.
      destruct m1 as [| p | p]; [cbn [Zdigits2]; lia | | lia].
      cbn [Zdigits2]. pose proof (digits2_bounds p) as [Hlo _].
      assert (Z.pos (digits2_pos p) - 1 < 24); [| lia].
      apply (Z.pow_lt_mono_r_iff 2); lia. }
    destruct (fexp Float.prec Float.emax (Zdigits2 m1 + e1) - e1) as [| p | p]; [reflexivity | lia | reflexivity].
Qed.

Lemma round_aux_spec s m e l N D :
  0 <= m ->
  located (shr_record_of_loc m l) N D ->
  let e1 := Z.max (fexp Float.prec Float.emax (Zdigits2 m + e)) e in
  exists m1,
    0 <= m1 <= 2 ^ Float.prec /\
    - (D * 2 ^ (e1 - e)) <= 2 * (m1 * (D * 2 ^ (e1 - e)) - N) <= D * 2 ^ (e1 - e) /\
    binary_round_aux Float.prec Float.emax s m e l = pack s m1 e1.
Proof.
  intros Hm Hloc e1.
  destruct (shr_fexp_located m e l N D Hm Hloc) as (r1 & Hshr & Hloc1).
  fold e1 in Hshr, Hloc1.
  pose proof (round_nearest_even_located r1 N _ Hloc1) as [Hm1 Herr].
  set (m1 := round_nearest_even (shr_m r1) (loc_of_shr_record r1)) in *.
  assert (Hlt : shr_m r1 < 2 ^ Float.prec).
  { apply (located_mantissa_bound m l r1 N D (e1 - e)); try assumption.
    - subst e1. lia.
    - subst e1. unfold fexp. lia. }
  assert (H0 : 0 <= shr_m r1) by apply Hloc1.
  exists m1. split; [lia |]. split; [exact Herr |].
  unfold binary_round_aux. rewrite Hshr. fold m1.
  rewrite second_shr_fexp; [| lia | subst e1; pose proof (fexp_ge_emin (Zdigits2 m + e)); lia].
  unfold pack.
  destruct (Z.eqb_spec m1 (2 ^ Float.prec)) as [-> | Hne]; [reflexivity |].
  cbn [shr_m]. destruct m1 as [| p | p]; [reflexivity | reflexivity | lia].
Qed.

(** ** Values as rationals *)

Local Open Scope Q_scope.

Lemma pow2_pos e : 0 < 2 ^ e.
Proof. apply Qpower_0_lt. reflexivity. Qed.

Lemma pow2_add a b : 2 ^ (a + b) == 2 ^ a * 2 ^ b.
Proof. apply Qpower_plus. discriminate. Qed.

Lemma pow2_inject n : (0 <= n)%Z -> 2 ^ n == inject_Z (2 ^ n).
Proof. intros Hn. symmetry. apply (Zpower_Qpower 2 n Hn). Qed.

Lemma pow2_split e e1 : (e <= e1)%Z -> 2 ^ e1 == inject_Z (2 ^ (e1 - e)) * 2 ^ e.
Proof.
  intros H. rewrite <- pow2_inject by lia. rewrite <- pow2_add.
  replace (e1 - e + e)%Z with e1 by lia. reflexivity.
Qed.

Lemma pow2_le a b : (a <= b)%Z -> 2 ^ a <= 2 ^ b.
Proof. intros H. apply Qpower_le_compat_l; [exact H | discriminate]. Qed.

Lemma pow2_lt_inv a b : 2 ^ a < 2 ^ b -> (a < b)%Z.
Proof. intros H. apply (Qpower_lt_compat_l_inv 2); [exact H | reflexivity]. Qed.

Lemma mag_nonneg m e : (0 <= m)%Z -> 0 <= mag m e.
Proof.
  intros Hm. unfold mag. apply Qmult_le_0_compat.
  - change 0 with (inject_Z 0). rewrite <- Zle_Qle. exact Hm.
  - apply Qlt_le_weak, pow2_pos.
Qed.

Lemma mag_split m e e1 : (e <= e1)%Z -> mag m e1 == mag (m * 2 ^ (e1 - e)) e.
Proof.
  intros H. unfold mag. rewrite (pow2_split e e1 H), inject_Z_mult. ring.
Qed.

(** Digit counts bound the magnitude. *)
Lemma mag_digits_lt p e : mag (Zpos p) e < 2 ^ (Zpos (digits2_pos p) + e).
Proof.
  unfold mag. rewrite pow2_add.
  apply Qmult_lt_compat_r; [apply pow2_pos |].
  rewrite pow2_inject by lia. rewrite <- Zlt_Qlt. apply digits2_bounds.
Qed.

Lemma mag_digits_ge p e : 2 ^ (Zpos (digits2_pos p) - 1 + e) <= mag (Zpos p) e.
Proof.
  unfold mag. rewrite pow2_add.
  apply Qmult_le_compat_r; [| apply Qlt_le_weak, pow2_pos].
  rewrite pow2_inject by lia. rewrite <- Zle_Qle. apply digits2_bounds.
Qed.

(** The integer part of [m * 2 ^ e]. *)
Lemma shiftl_floor m e :
  (0 <= m)%Z ->
  inject_Z (Z.shiftl m e) <= mag m e /\ mag m e < inject_Z (Z.shiftl m e) + 1.
Proof.
  intros Hm. unfold mag. destruct (Z_le_gt_dec 0 e) as [He | He].
  - rewrite Z.shiftl_mul_pow2 by exact He.
    rewrite inject_Z_mult, pow2_inject by exact He. split; lra.
  - rewrite Z.shiftl_div_pow2 by lia.
    set (P := (2 ^ (- e))%Z).
    assert (HP : (0 < P)%Z) by (apply Z.pow_pos_nonneg; lia).
    assert (Hinv : 2 ^ e * inject_Z P == 1).
    { subst P. rewrite <- pow2_inject by lia. rewrite <- pow2_add.
      replace (e + - e)%Z with 0%Z by lia. reflexivity. }
    pose proof (Z.mul_div_le m P HP) as Hlo.
    pose proof (Z.mul_succ_div_gt m P HP) as Hhi.
    assert (HPq : 0 < inject_Z P) by (change 0 with (inject_Z 0); rewrite <- Zlt_Qlt; exact HP).
    rewrite Zle_Qle in Hlo. rewrite Zlt_Qlt in Hhi.
    rewrite inject_Z_mult in Hlo.
    unfold Z.succ in Hhi. rewrite inject_Z_mult, inject_Z_plus in Hhi.
    set (q := inject_Z (m / P)) in *. set (M := inject_Z m) in *.
    set (t := 2 ^ e) in *. set (p := inject_Z P) in *.
    assert (Ht : 0 < t) by apply pow2_pos.
    assert (E1 : M * t * p == M) by (rewrite <- Qmult_assoc, Hinv; ring).
    change (inject_Z 1) with 1 in Hhi. clearbody q M t p.
    split.
    + apply Qmult_le_r with p; [exact HPq |]. rewrite E1. nra.
    + apply Qmult_lt_r with p; [exact HPq |]. rewrite E1. nra.
Qed.

Local Open Scope Z_scope.

(** In the normal range the rounded mantissa is within one part in
    [2 ^ 24] of the located fraction. *)
Lemma round_aux_relative s m e l N D :
  1 <= m ->
  located (shr_record_of_loc m l) N D ->
  (24 <= Zdigits2 m /\ -149 <= Zdigits2 m + e - 24) \/ (N = m * D /\ -149 <= e) ->
  let e1 := Z.max (fexp Float.prec Float.emax (Zdigits2 m + e)) e in
  exists m1,
    1 <= m1 <= 2 ^ 24 /\
    2 ^ 24 * Z.abs (m1 * (D * 2 ^ (e1 - e)) - N) <= N /\
    e1 <= Zdigits2 m + e /\
    binary_round_aux Float.prec Float.emax s m e l = pack s m1 e1.
Proof.
  intros Hm Hloc Hcase e1.
  destruct (round_aux_spec s m e l N D ltac:(lia) Hloc) as (m1 & Hm1 & Herr & Hres).
  fold e1 in Herr, Hres.
  assert (Hmm : shr_m (shr_record_of_loc m l) = m) by (destruct l as [| []]; reflexivity).
  destruct Hloc as (_ & HD & Hrem & _). rewrite Hmm in Hrem.
  destruct m as [| p | p]; try lia.
  pose proof (digits2_bounds p) as [Hlo Hhi].
  cbn [Zdigits2] in *. set (d := Z.pos (digits2_pos p)) in *.
  assert (Hd1 : 1 <= d) by (subst d; lia).
  assert (Hsplit : (24 <= d /\ -149 <= d + e - 24) \/ (d < 24 /\ N = Z.pos p * D /\ -149 <= e)) by lia.
  clear Hcase. destruct Hsplit as [[Hd He] | (Hd & HN & He)].
  - assert (He1 : e1 = d + e - 24) by (subst e1; unfold fexp, emin, Float.prec, Float.emax; lia).
    rewrite He1 in *. replace (d + e - 24 - e) with (d - 24) in * by lia.
    assert (Hpow : 2 ^ (d - 1) = 2 ^ 23 * 2 ^ (d - 24)).
    { rewrite <- Z.pow_add_r by lia. f_equal. lia. }
    set (T := 2 ^ (d - 24)) in *.
    assert (HT : 0 < T) by (apply Z.pow_pos_nonneg; lia).
    assert (HDT : 2 ^ 23 * (D * T) <= N) by nia.
    exists m1. change (2 ^ Float.prec) with 16777216 in Hm1.
    change (2 ^ 24) with 16777216. change (2 ^ 23) with 8388608 in *.
    set (Y := D * T) in *. set (X := m1 * Y) in *.
    assert (HY : 0 < Y) by (subst Y; nia).
    assert (Hm1' : 1 <= m1) by (subst X; nia).
    split; [lia |]. split; [lia |]. split; [lia | exact Hres].
  - assert (He1 : e1 = e) by (subst e1; unfold fexp, emin, Float.prec, Float.emax; lia).
    rewrite He1 in *. replace (e - e) with 0 in * by lia.
    change (2 ^ 0) with 1 in *. rewrite Z.mul_1_r in *.
    assert (m1 = Z.pos p) by nia. subst m1.
    exists (Z.pos p). change (2 ^ 24) with 16777216. change (2 ^ Float.prec) with 16777216 in Hm1.
    split; [lia |]. split; [lia |]. split; [lia | exact Hres].
Qed.

Local Open Scope Q_scope.

Lemma relative_error_Q m1 N D e e1 :
  (0 < D)%Z -> (e <= e1)%Z ->
  (2 ^ 24 * Z.abs (m1 * (D * 2 ^ (e1 - e)) - N) <= N)%Z ->
  Qabs (mag m1 e1 * inject_Z D - mag N e) <= mag N e * (1 # 16777216).
Proof.
  intros HD He H.
  rewrite (mag_split m1 e e1 He). unfold mag.
  set (T := (2 ^ (e1 - e))%Z) in *. set (P := 2 ^ e).
  assert (HP : 0 < P) by apply pow2_pos.
  rewrite Zle_Qle in H. rewrite inject_Z_mult in H.
  change (inject_Z (2 ^ 24)) with (16777216 # 1) in H.
  apply Qabs_Qle_condition.
  assert (Hrw : inject_Z (m1 * T) * P * inject_Z D - inject_Z N * P
                == inject_Z (m1 * (D * T) - N) * P).
  { unfold Zminus. rewrite inject_Z_plus, inject_Z_opp, !inject_Z_mult. ring. }
  rewrite Hrw.
  assert (Habs : - inject_Z (Z.abs (m1 * (D * T) - N)) <= inject_Z (m1 * (D * T) - N)
                 <= inject_Z (Z.abs (m1 * (D * T) - N))).
  { rewrite <- inject_Z_opp, <- !Zle_Qle. lia. }
  set (a := inject_Z (m1 * (D * T) - N)) in *.
  set (b := inject_Z (Z.abs (m1 * (D * T) - N))) in *.
  set (n := inject_Z N) in *. clearbody a b n P.
  split; nra.
Qed.

(** A rounded mantissa that did not overflow is a finite float of the same
    magnitude. *)
Lemma pack_finite s m1 e1 :
  (1 <= m1 <= 2 ^ 24)%Z -> (e1 < 104)%Z ->
  exists p e', pack s m1 e1 = S754_finite s p e' /\ mag (Zpos p) e' == mag m1 e1.
Proof.
  intros Hm He. unfold pack.
  destruct (Z.eqb_spec m1 0); [lia |].
  destruct (Z.eqb_spec m1 (2 ^ Float.prec)) as [-> | Hne].
  - destruct (Z.leb_spec (e1 + 1) (Float.emax - Float.prec)); [| unfold Float.emax, Float.prec in *; lia].
    eexists _, _. split; [reflexivity |].
    change (Z.pos (Z.to_pos (2 ^ (Float.prec - 1)))) with (2 ^ 23)%Z.
    rewrite (mag_split (2 ^ 23) e1 (e1 + 1)) by lia.
    replace (e1 + 1 - e1)%Z with 1%Z by lia. reflexivity.
  - destruct (Z.leb_spec e1 (Float.emax - Float.prec)); [| unfold Float.emax, Float.prec in *; lia].
    eexists _, _. split; [reflexivity |].
    rewrite Z2Pos.id by lia. reflexivity.
Qed.

Local Open Scope Z_scope.

Lemma located_exact m : 0 <= m -> located (shr_record_of_loc m loc_Exact) m 1.
Proof. intros Hm. unfold located. cbn [shr_record_of_loc shr_m shr_r shr_s]. lia. Qed.

Local Open Scope Q_scope.

(** [mm * 1000.0]: the product is within one part in [2 ^ 24] of the exact
    one, or both are below one. *)
Lemma mul_1000_spec s mx ex :
  mag (Zpos mx) ex <= 2 ^ 30 ->
  exists m1 e1,
    Float.mul (S754_finite s mx ex) (Float.of_Z 1000) = pack s m1 e1 /\
    (0 <= m1 <= 2 ^ 24)%Z /\ (e1 < 104)%Z /\
    (Qabs (mag m1 e1 - 1000 * mag (Zpos mx) ex) <= 1000 * mag (Zpos mx) ex * (1 # 16777216)
     \/ (mag m1 e1 < 1 /\ 1000 * mag (Zpos mx) ex < 1)).
Proof.
  intros Hx.
  change (Float.of_Z 1000) with (S754_finite false 16384000 (-14)).
  cbn [Float.mul SFmul]. rewrite xorb_false_r.
  set (m := Zpos (mx * 16384000)). set (e := (ex + -14)%Z).
  assert (HV : mag m e == 1000 * mag (Zpos mx) ex).
  { unfold mag, m, e. rewrite Pos2Z.inj_mul, inject_Z_mult, pow2_add.
    assert (H14 : inject_Z 16384000 * 2 ^ (-14) == 1000) by reflexivity.
    rewrite <- H14. ring. }
  pose proof (mag_digits_ge (mx * 16384000) e) as Hge.
  pose proof (mag_digits_lt (mx * 16384000) e) as Hlt.
  fold m in Hge, Hlt.
  pose proof (digits2_bounds (mx * 16384000)) as [_ Hd].
  set (d := Zpos (digits2_pos (mx * 16384000))) in *.
  assert (Hd24 : (24 <= d)%Z).
  { assert (H23 : (2 ^ 23 < 2 ^ d)%Z) by (rewrite Pos2Z.inj_mul in Hd; lia).
    apply Z.pow_lt_mono_r_iff in H23; lia. }
  assert (Hde : (d + e <= 41)%Z).
  { assert (H40 : 2 ^ (d - 1 + e) < 2 ^ 41).
    { eapply Qle_lt_trans; [exact Hge |]. rewrite HV.
      assert (2 ^ 30 == 1073741824) by reflexivity.
      assert (2 ^ 41 == 2199023255552) by reflexivity. lra. }
    apply pow2_lt_inv in H40. lia. }
  destruct (Z_le_gt_dec (-149) (d + e - 24)) as [Hnorm | Hsub].
  - destruct (round_aux_relative s m e loc_Exact m 1) as (m1 & Hm1 & Herr & He1 & Hres).
    + subst m. lia.
    + apply located_exact. subst m. lia.
    + left. split; [exact Hd24 | exact Hnorm].
    + change (Zdigits2 m) with d in *.
      set (e1 := Z.max (fexp Float.prec Float.emax (d + e)) e) in *.
      assert (He1' : e1 = (d + e - 24)%Z) by (subst e1; unfold fexp, emin, Float.prec, Float.emax; lia).
      exists m1, e1. split; [exact Hres |]. split; [lia |]. split; [lia |].
      left. rewrite <- HV.
      pose proof (relative_error_Q m1 m 1 e e1 ltac:(lia) ltac:(lia) Herr) as HQ.
      change (inject_Z 1) with 1 in HQ. rewrite Qmult_1_r in HQ. exact HQ.
  - destruct (round_aux_spec s m e loc_Exact m 1) as (m1 & Hm1 & _ & Hres).
    + subst m. lia.
    + apply located_exact. subst m. lia.
    + change (Zdigits2 m) with d in *.
      set (e1 := Z.max (fexp Float.prec Float.emax (d + e)) e) in *.
      assert (He1' : e1 = (-149)%Z) by (subst e1; unfold fexp, emin, Float.prec, Float.emax; lia).
      exists m1, e1. split; [exact Hres |]. split; [exact Hm1 |]. split; [lia |].
      right. split.
      * rewrite He1'. unfold mag.
        assert (Hm1q : inject_Z m1 <= 16777216).
        { change 16777216 with (inject_Z (2 ^ Float.prec)). rewrite <- Zle_Qle. lia. }
        assert (Hp : 2 ^ (-149) * 16777216 < 1) by reflexivity.
        assert (0 < 2 ^ (-149)) by apply pow2_pos.
        set (P := 2 ^ (-149)) in *. clearbody P. nra.
      * rewrite <- HV. eapply Qlt_le_trans; [exact Hlt |].
        apply Qle_trans with (2 ^ (-125)); [apply pow2_le; lia | discriminate].
Qed.

Local Open Scope Z_scope.

Lemma iter_xO_pow2 p d : Zpos (Pos.iter xO p d) = Zpos p * 2 ^ Zpos d.
Proof.
  induction d as [| d IH] using Pos.peano_ind.
  - cbn [Pos.iter]. rewrite Pos2Z.inj_xO. lia.
  - rewrite Pos.iter_succ, Pos2Z.inj_xO, IH, Pos2Z.inj_succ, Z.pow_succ_r by lia. ring.
Qed.

Lemma shl_align_spec mx ex ex' :
  exists mz ez,
    shl_align mx ex ex' = (mz, ez) /\ ez <= ex /\ Z.min ex ex' <= ez /\
    Zpos mz = Zpos mx * 2 ^ (ex - ez).
Proof.
  unfold shl_align. destruct (ex' - ex) as [| d | d] eqn:Hd.
  - exists mx, ex. replace (ex - ex) with 0 by lia. repeat split; lia.
  - exists mx, ex. replace (ex - ex) with 0 by lia. repeat split; lia.
  - exists (Pos.iter xO mx d), ex'. replace (ex - ex') with (Zpos d) by lia.
    repeat split; try lia. apply iter_xO_pow2.
Qed.

Local Open Scope Q_scope.

(** [(float) n] for an integer of at most 31 bits. *)
Lemma of_Z_spec s p :
  (Zpos p < 2 ^ 31)%Z ->
  exists m1 e1,
    Float.of_Z (cond_Zopp s (Zpos p)) = pack s m1 e1 /\
    (1 <= m1 <= 2 ^ 24)%Z /\ (e1 < 104)%Z /\
    Qabs (mag m1 e1 - inject_Z (Zpos p)) <= inject_Z (Zpos p) * (1 # 16777216).
Proof.
  intros Hp.
  assert (Hof : Float.of_Z (cond_Zopp s (Zpos p)) = binary_round Float.prec Float.emax s p 0)
    by (destruct s; reflexivity).
  rewrite Hof. unfold binary_round.
  destruct (shl_align_spec p 0 (fexp Float.prec Float.emax (Zpos (digits2_pos p) + 0)))
    as (mz & ez & -> & Hez0 & Hez & Hmz).
  assert (Hez' : (-149 <= ez)%Z).
  { pose proof (fexp_ge_emin (Zpos (digits2_pos p) + 0)). lia. }
  assert (HV : mag (Zpos mz) ez == inject_Z (Zpos p)).
  { rewrite Hmz. rewrite <- (mag_split (Zpos p) ez 0 Hez0). unfold mag.
    change (2 ^ 0) with 1. ring. }
  destruct (round_aux_relative s (Zpos mz) ez loc_Exact (Zpos mz) 1)
    as (m1 & Hm1 & Herr & He1 & Hres).
  - lia.
  - apply located_exact. lia.
  - right. split; [lia | exact Hez'].
  - cbn [Zdigits2] in *.
    set (e1 := Z.max (fexp Float.prec Float.emax (Zpos (digits2_pos mz) + ez)) ez) in *.
    assert (Hde : (Zpos (digits2_pos mz) + ez <= 31)%Z).
    { pose proof (mag_digits_ge mz ez) as Hge. rewrite HV in Hge.
      assert (H31 : 2 ^ (Zpos (digits2_pos mz) - 1 + ez) < 2 ^ 31).
      { eapply Qle_lt_trans; [exact Hge |].
        change (2 ^ 31) with (inject_Z (2 ^ 31)). rewrite <- Zlt_Qlt. exact Hp. }
      apply pow2_lt_inv in H31. lia. }
    exists m1, e1. split; [exact Hres |]. split; [exact Hm1 |]. split; [lia |].
    rewrite <- HV.
    pose proof (relative_error_Q m1 (Zpos mz) 1 ez e1 ltac:(lia) ltac:(subst e1; lia) Herr) as HQ.
    change (inject_Z 1) with 1 in HQ. rewrite Qmult_1_r in HQ. exact HQ.
Qed.

(** The integer part of a rounded value. *)
Lemma trunc_pack s m1 e1 :
  (0 <= m1 <= 2 ^ 24)%Z -> (e1 < 104)%Z ->
  exists n,
    Float.trunc (pack s m1 e1) = Some (cond_Zopp s n) /\ (0 <= n)%Z /\
    inject_Z n <= mag m1 e1 /\ mag m1 e1 < inject_Z n + 1.
Proof.
  intros Hm He. destruct (Z.eq_dec m1 0%Z) as [-> | Hne].
  - exists 0%Z. unfold pack. cbn [Z.eqb Float.trunc]. split; [destruct s; reflexivity |].
    split; [lia |]. unfold mag. change (inject_Z 0) with 0. split; lra.
  - destruct (pack_finite s m1 e1 ltac:(lia) He) as (p & e' & -> & Hmag).
    exists (Z.shiftl (Zpos p) e'). cbn [Float.trunc]. split; [reflexivity |].
    split; [apply Z.shiftl_nonneg; lia |].
    destruct (shiftl_floor (Zpos p) e' ltac:(lia)) as [Hlo Hhi].
    split; [rewrite <- Hmag; exact Hlo | rewrite <- Hmag; exact Hhi].
Qed.

Lemma to_Q_pack s m1 e1 :
  (0 <= m1 <= 2 ^ 24)%Z -> (e1 < 104)%Z ->
  exists q, Float.to_Q (pack s m1 e1) = Some q /\ q == signed_mag s (mag m1 e1).
Proof.
  intros Hm He. destruct (Z.eq_dec m1 0%Z) as [-> | Hne].
  - exists 0. unfold pack. cbn [Z.eqb Float.to_Q]. split; [reflexivity |].
    unfold signed_mag, mag. change (inject_Z 0) with 0. destruct s; ring.
  - destruct (pack_finite s m1 e1 ltac:(lia) He) as (p & e' & -> & Hmag).
    eexists. cbn [Float.to_Q]. split; [reflexivity |].
    unfold signed_mag. destruct s; rewrite <- Hmag; unfold mag; cbn [cond_Zopp];
      [| reflexivity].
    change (Z.neg p) with (Z.opp (Zpos p)). rewrite inject_Z_opp. ring.
Qed.

Local Open Scope Z_scope.

Lemma new_location_located m2 q r :
  0 < m2 -> 0 <= r < m2 -> 0 <= q ->
  located (shr_record_of_loc q (new_location m2 r)) (m2 * q + r) m2.
Proof.
  intros Hm2 Hr Hq. unfold new_location.
  destruct (Z.even m2) eqn:Hev.
  - unfold new_location_even. destruct (Z.eqb_spec r 0) as [-> | Hr0].
    + unfold located. cbn [shr_record_of_loc shr_m shr_r shr_s]. lia.
    + destruct (Z.compare_spec (2 * r) m2);
        unfold located; cbn [shr_record_of_loc shr_m shr_r shr_s]; lia.
  - assert (Hodd : Z.odd m2 = true) by (rewrite <- Z.negb_even, Hev; reflexivity).
    apply Z.odd_spec in Hodd. destruct Hodd as [c Hc].
    unfold new_location_odd. destruct (Z.eqb_spec r 0) as [-> | Hr0].
    + unfold located. cbn [shr_record_of_loc shr_m shr_r shr_s]. lia.
    + destruct (Z.compare_spec (2 * r + 1) m2);
        unfold located; cbn [shr_record_of_loc shr_m shr_r shr_s]; lia.
Qed.

Lemma div_core_located m1 e1 m2 e2 :
  exists q e' l,
    SFdiv_core_binary Float.prec Float.emax (Zpos m1) e1 (Zpos m2) e2 = (q, e', l) /\
    e' = Z.min (fexp Float.prec Float.emax (Zpos (digits2_pos m1) + e1 - (Zpos (digits2_pos m2) + e2)))
               (e1 - e2) /\
    0 <= q /\ q = Zpos m1 * 2 ^ (e1 - e2 - e') / Zpos m2 /\
    located (shr_record_of_loc q l) (Zpos m1 * 2 ^ (e1 - e2 - e')) (Zpos m2).
Proof.
  unfold SFdiv_core_binary. cbn [Zdigits2].
  set (e' := Z.min (fexp Float.prec Float.emax (Zpos (digits2_pos m1) + e1 - (Zpos (digits2_pos m2) + e2)))
                   (e1 - e2)).
  set (sft := e1 - e2 - e').
  assert (Hs : 0 <= sft) by (subst sft e'; lia).
  set (m' := match sft with
             | 0 => Zpos m1
             | Zpos _ => Z.shiftl (Zpos m1) sft
             | Zneg _ => 0
             end).
  assert (Hm' : m' = Zpos m1 * 2 ^ sft).
  { subst m'. destruct sft as [| p | p] eqn:Hsft; [cbn; lia | | lia].
    apply Z.shiftl_mul_pow2. lia. }
  assert (Hm'pos : 0 <= m') by (rewrite Hm'; apply Z.mul_nonneg_nonneg; [lia | apply Z.pow_nonneg; lia]).
  pose proof (Z_div_mod m' (Zpos m2) ltac:(lia)) as Hdm.
  assert (Hq : fst (Z.div_eucl m' (Zpos m2)) = m' / Zpos m2) by reflexivity.
  destruct (Z.div_eucl m' (Zpos m2)) as [q r]. cbn [fst] in Hq.
  destruct Hdm as [Heq Hr].
  assert (Hq0 : 0 <= q) by (rewrite Hq; apply Z.div_pos; lia).
  exists q, e', (new_location (Zpos m2) r).
  split; [reflexivity |]. split; [reflexivity |]. split; [exact Hq0 |].
  fold sft. rewrite <- Hm'.
  split; [exact Hq |].
  rewrite Heq. apply new_location_located; lia.
Qed.

Local Open Scope Q_scope.

(** [(float) steps / steps_per_mm] for operands of moderate size: the
    quotient times the divisor is within one part in [2 ^ 24] of the
    dividend. *)
Lemma div_spec s mf ef mk ek :
  (1 # 2) <= mag (Zpos mf) ef <= 2 ^ 32 ->
  1 <= mag (Zpos mk) ek <= 2 ^ 31 ->
  exists m1 e1,
    Float.div (S754_finite s mf ef) (S754_finite false mk ek) = pack s m1 e1 /\
    (1 <= m1 <= 2 ^ 24)%Z /\ (e1 < 104)%Z /\
    Qabs (mag m1 e1 * mag (Zpos mk) ek - mag (Zpos mf) ef)
    <= mag (Zpos mf) ef * (1 # 16777216).
Proof.
  intros [HF1 HF2] [HK1 HK2].
  set (F := mag (Zpos mf) ef) in *. set (K := mag (Zpos mk) ek) in *.
  pose proof (mag_digits_lt mf ef) as HFlt. pose proof (mag_digits_ge mk ek) as HKge.
  pose proof (digits2_bounds mf) as [Hmf _]. pose proof (digits2_bounds mk) as [_ Hmk].
  fold F in HFlt. fold K in HKge.
  set (d1 := Zpos (digits2_pos mf)) in *. set (d2 := Zpos (digits2_pos mk)) in *.
  assert (Hd1 : (0 <= d1 + ef)%Z).
  { assert (H : 2 ^ (-1) < 2 ^ (d1 + ef)).
    { eapply Qle_lt_trans; [| exact HFlt]. exact HF1. }
    apply pow2_lt_inv in H. lia. }
  assert (Hd2 : (d2 + ek <= 32)%Z).
  { assert (H : 2 ^ (d2 - 1 + ek) <= 2 ^ 31) by (eapply Qle_trans; eassumption).
    apply Qpower_le_compat_l_inv in H; [lia | reflexivity]. }
  cbn [Float.div SFdiv]. rewrite xorb_false_r.
  destruct (div_core_located mf ef mk ek) as (q & e' & l & -> & He' & Hq0 & Hq & Hloc).
  fold d1 d2 in He'.
  assert (HA : fexp Float.prec Float.emax (d1 + ef - (d2 + ek)) = (d1 + ef - (d2 + ek) - 24)%Z)
    by (unfold fexp, emin, Float.prec, Float.emax; lia).
  rewrite HA in He'.
  set (sft := (ef - ek - e')%Z) in *.
  assert (Hsft : (0 <= sft /\ 24 - d1 + d2 <= sft)%Z) by (subst sft; lia).
  set (m' := (Zpos mf * 2 ^ sft)%Z) in *.
  (* the quotient has at least 24 bits *)
  assert (Hq23 : (2 ^ 23 <= q)%Z).
  { rewrite Hq. apply Z.div_le_lower_bound; [lia |].
    assert (Hpow : (2 ^ 23 * 2 ^ d2 <= 2 ^ (d1 - 1) * 2 ^ sft)%Z).
    { rewrite <- !Z.pow_add_r by lia. apply Z.pow_le_mono_r; lia. }
    assert (0 < 2 ^ sft)%Z by (apply Z.pow_pos_nonneg; lia).
    subst m'. nia. }
  pose proof (Zdigits2_bound q Hq0) as Hdq.
  set (dq := Zdigits2 q) in *.
  assert (Hdq24 : (24 <= dq)%Z).
  { assert (H23 : (2 ^ 23 < 2 ^ dq)%Z) by lia.
    assert (H0 : (0 <= dq)%Z) by (subst dq; destruct q; cbn [Zdigits2]; lia).
    apply Z.pow_lt_mono_r_iff in H23; lia. }
  (* the dividend in terms of the scaled mantissa *)
  assert (HFm : F == mag m' (e' + ek)).
  { subst F m'. rewrite (mag_split (Zpos mf) (e' + ek) ef) by lia.
    replace (ef - (e' + ek))%Z with sft by (subst sft; lia). reflexivity. }
  assert (HFK : F == mag m' e' * 2 ^ ek).
  { rewrite HFm. unfold mag. rewrite pow2_add. ring. }
  assert (HKk : K == inject_Z (Zpos mk) * 2 ^ ek) by reflexivity.
  pose proof Hloc as (_ & _ & Hrem & _).
  assert (Hmm : shr_m (shr_record_of_loc q l) = q) by (destruct l as [| []]; reflexivity).
  rewrite Hmm in Hrem.
  assert (Hek : 0 < 2 ^ ek) by apply pow2_pos.
  assert (He'p : 0 < 2 ^ e') by apply pow2_pos.
  (* bounds of the dividend by the quotient *)
  assert (Hlow : mag q e' * K <= F).
  { rewrite HFK, HKk. unfold mag.
    assert (H : inject_Z q * inject_Z (Zpos mk) <= inject_Z m').
    { rewrite <- inject_Z_mult, <- Zle_Qle. lia. }
    set (a := inject_Z q) in *. set (b := inject_Z (Zpos mk)) in *.
    set (c := inject_Z m') in *. set (P := 2 ^ e') in *. set (R := 2 ^ ek) in *.
    clearbody a b c P R. clear - H Hek He'p.
    assert (0 < P * R) by nra.
    assert (a * b * (P * R) <= c * (P * R)) by nra. nra. }
  assert (Hupp : F < 2 ^ (dq + e') * K).
  { rewrite HFK, HKk, pow2_add. unfold mag.
    assert (H : inject_Z m' < inject_Z (2 ^ dq) * inject_Z (Zpos mk)).
    { rewrite <- inject_Z_mult, <- Zlt_Qlt. nia. }
    rewrite <- pow2_inject in H by lia.
    set (a := 2 ^ dq) in *. set (b := inject_Z (Zpos mk)) in *.
    set (c := inject_Z m') in *. set (P := 2 ^ e') in *. set (R := 2 ^ ek) in *.
    clearbody a b c P R. clear - H Hek He'p.
    assert (0 < P * R) by nra.
    assert (c * (P * R) < a * b * (P * R)) by nra. nra. }
  assert (Hnorm : (-31 <= dq + e')%Z).
  { assert (H : 2 ^ (-32) < 2 ^ (dq + e')).
    { assert (Hp : 0 < 2 ^ (dq + e')) by apply pow2_pos.
      assert (H32 : 2 ^ (-32) * 2 ^ 31 == 1 # 2) by reflexivity.
      assert (H31 : 2 ^ 31 == 2147483648) by reflexivity.
      set (P := 2 ^ (dq + e')) in *. set (Q32 := 2 ^ (-32)) in *.
      rewrite H31 in *. clearbody P Q32. nra. }
    apply pow2_lt_inv in H. lia. }
  assert (Hover : (dq + e' <= 33)%Z).
  { assert (H : 2 ^ (dq - 1 + e') < 2 ^ 33).
    { assert (Hge : 2 ^ (dq - 1 + e') <= mag q e').
      { unfold mag. rewrite pow2_add.
        apply Qmult_le_compat_r; [| apply Qlt_le_weak, pow2_pos].
        rewrite pow2_inject by lia. rewrite <- Zle_Qle.
        destruct q as [| pq | pq]; try lia. apply digits2_bounds. }
      assert (H32 : 2 ^ 32 == 4294967296) by reflexivity.
      assert (H33 : 2 ^ 33 == 8589934592) by reflexivity.
      assert (Hmq : 0 <= mag q e') by (apply mag_nonneg; exact Hq0).
      set (P := 2 ^ (dq - 1 + e')) in *. set (M := mag q e') in *.
      rewrite H32 in *. rewrite H33. clearbody P M F K. nra. }
    apply pow2_lt_inv in H. lia. }
  destruct (round_aux_relative s q e' l m' (Zpos mk)) as (m1 & Hm1 & Herr & He1 & Hres).
  - lia.
  - exact Hloc.
  - left. fold dq. split; lia.
  - fold dq in Hres, He1, Herr.
    set (e1 := Z.max (fexp Float.prec Float.emax (dq + e')) e') in *.
    assert (He1v : e1 = (dq + e' - 24)%Z) by (subst e1; unfold fexp, emin, Float.prec, Float.emax; lia).
    exists m1, e1. split; [exact Hres |]. split; [exact Hm1 |]. split; [lia |].
    pose proof (relative_error_Q m1 m' (Zpos mk) e' e1 ltac:(lia) ltac:(lia) Herr) as HQ.
    apply Qabs_Qle_condition in HQ. apply Qabs_Qle_condition.
    rewrite HFK, HKk.
    set (a := mag m1 e1) in *. set (b := inject_Z (Zpos mk)) in *.
    set (c := mag m' e') in *. set (R := 2 ^ ek) in *.
    clearbody a b c R. clear - HQ Hek.
    destruct HQ as [HQ1 HQ2]. split; nra.
Qed.

End Rounding.

(** ** Millimetres to steps *)

Lemma mm_1_2345_nearest :
  mm_1_2345 = Float.div (Float.of_Z 12345) (Float.of_Z 10000) /\
  exists q, Float.to_Q mm_1_2345 = Some q /\
            (Qabs (q - (12345 # 10000)) < (1 # 16777216))%Q.
Proof.
  split; [vm_compute; reflexivity |].
  eexists. split; [reflexivity |]. vm_compute. reflexivity.
Qed.

Section Conversions.

Variable hw : Platform.

(** The conversion where every intermediate value fits its type. *)
Lemma mm_to_steps_in_range (s : State hw) (axis : nat) (a : StepperAxis hw) mm n k :
  stepperAxis s !! axis = Some a ->
  Float.trunc (Float.mul mm (Float.of_Z 1000)) = Some n ->
  Float.trunc (steps_per_mm a) = Some k ->
  Int.in_signed 64 n = true ->
  Int.in_signed 64 k = true ->
  Int.in_signed 64 (n * k) = true ->
  Int.in_signed 32 (Z.quot (n * k) 1000) = true ->
  stepperAxisMMToSteps hw s mm axis = Some (Z.quot (n * k) 1000).
Proof.
  intros Ha Hn Hk Rn Rk Rnk Rq.
  unfold stepperAxisMMToSteps. rewrite Ha. cbn [mbind option_bind].
  unfold to_int64.
  rewrite (to_int_trunc _ 64 _ n Hn Rn), (to_int_trunc _ 64 _ k Hk Rk).
  rewrite (int64_in_range _ Rnk), (int32_in_range _ Rq). reflexivity.
Qed.

(** C1, as the code has it: wherever the scaled value, the integer part
    of [steps_per_mm] and their product fit [int64_t] and the quotient
    fits the [int32_t] result, [stepperAxisMMToSteps] returns the
    truncation of [mm * 1000], times the truncated [steps_per_mm],
    divided by 1000 with the remainder discarded.  With 100 steps per mm,
    1.2345 mm gives 123 steps. *)
Theorem mm_to_steps_truncates (s : State hw) (axis : nat) (a : StepperAxis hw) :
  stepperAxis s !! axis = Some a ->
  (forall mm n k,
      Float.trunc (Float.mul mm (Float.of_Z 1000)) = Some n ->
      Float.trunc (steps_per_mm a) = Some k ->
      Int.in_signed 64 n = true ->
      Int.in_signed 64 k = true ->
      Int.in_signed 64 (n * k) = true ->
      Int.in_signed 32 (Z.quot (n * k) 1000) = true ->
      stepperAxisMMToSteps hw s mm axis = Some (Z.quot (n * k) 1000) /\
      stepperAxisMMToSteps hw s mm axis = mmToSteps_spec mm (steps_per_mm a)) /\
  (steps_per_mm a = Float.of_Z 100 ->
   stepperAxisMMToSteps hw s mm_1_2345 axis = Some 123).
Proof.
  intros Ha. split.
  - intros mm n k Hn Hk Rn Rk Rnk Rq.
    pose proof (mm_to_steps_in_range s axis a mm n k Ha Hn Hk Rn Rk Rnk Rq) as Hcode.
    split; [exact Hcode |].
    rewrite Hcode. unfold mmToSteps_spec. rewrite Hn, Hk. reflexivity.
  - intros Hspm. apply (mm_to_steps_in_range s axis a mm_1_2345 1234 100 Ha);
      try reflexivity.
    rewrite Hspm. reflexivity.
Qed.

End Conversions.

(** ** Millimetres to steps and back *)

Section RoundTrip.

Variable hw : Platform.

Local Open Scope Q_scope.

(** The arithmetic of the round trip on exact values: [X] the distance, [U]
    the scaled product, [n] its integer part, [S] the steps, [F] their
    float and [B] the distance returned. *)
Lemma round_trip_bound (X U n k S F B : Q) :
  0 <= X -> 1 <= k -> 0 <= n -> 0 <= S ->
  (Qabs (U - 1000 * X) <= 1000 * X * (1 # 16777216) \/ (n == 0 /\ 1000 * X < 1)) ->
  n <= U -> U < n + 1 ->
  1000 * S <= n * k -> n * k < 1000 * S + 1000 ->
  (S == 0 /\ B == 0) \/
  (1 <= S /\ Qabs (F - S) <= S * (1 # 16777216) /\ Qabs (B * k - F) <= F * (1 # 16777216)) ->
  Qabs (B - X) <= 1 / k + (1 # 1000) + X * (1 # 4194304).
Proof.
  intros HX Hk Hn HS HU Hn1 Hn2 HS1 HS2 HB.
  assert (Hk0 : 0 < k) by lra.
  set (G := 1 / k + (1 # 1000) + X * (1 # 4194304)).
  assert (HG : G * k == 1 + k * (1 # 1000) + X * k * (1 # 4194304)).
  { unfold G. field. lra. }
  assert (Hgoal : - (G * k) <= (B - X) * k <= G * k).
  { rewrite HG.
    assert (HUk1 : n * k <= U * k) by nra.
    assert (HUk2 : U * k < n * k + k) by nra.
    assert (HW : 0 <= X * k) by nra.
    assert (HUW : (- (1000 * (X * k) * (1 # 16777216)) <= U * k - 1000 * (X * k)
                   <= 1000 * (X * k) * (1 # 16777216))
                  \/ (n * k == 0 /\ 1000 * (X * k) < k)).
    { destruct HU as [HU | [HU1 HU2]].
      - left. apply Qabs_Qle_condition in HU. destruct HU. split; nra.
      - right. split; [rewrite HU1; ring | nra]. }
    assert (HBX : (B - X) * k == B * k - X * k) by ring.
    rewrite HBX.
    set (W := X * k) in *. set (Uk := U * k) in *. set (nk := n * k) in *.
    clearbody W Uk nk. clear HU HBX Hn1 Hn2 HG G.
    destruct HB as [[HS0 HB0] | (HS1' & HF & HBk)].
    - rewrite HB0. destruct HUW as [[H1 H2] | [H1 H2]]; split; lra.
    - apply Qabs_Qle_condition in HF, HBk.
      set (Bk := B * k) in *. clearbody Bk.
      destruct HF as [HF1 HF2]. destruct HBk as [HB1 HB2].
      destruct HUW as [[H1 H2] | [H1 H2]]; split; lra. }
  apply Qabs_Qle_condition. destruct Hgoal as [H1 H2]. split.
  - apply (Qmult_le_r _ _ k Hk0). lra.
  - apply (Qmult_le_r _ _ k Hk0). lra.
Qed.

(** An integer-valued positive [steps_per_mm] is its own integer part. *)
Lemma steps_per_mm_integer (spm : float) (K : Q) (k : Z) :
  Float.to_Q spm = Some K -> K == inject_Z k -> (1 <= k)%Z ->
  exists mk ek,
    spm = S754_finite false mk ek /\ mag (Zpos mk) ek == inject_Z k /\
    Float.trunc spm = Some k.
Proof.
  intros HK Hk Hk1.
  assert (Hkq : 1 <= inject_Z k) by (change 1 with (inject_Z 1); rewrite <- Zle_Qle; exact Hk1).
  destruct spm as [s | s | | s m e]; cbn [Float.to_Q] in HK; try discriminate.
  - injection HK as <-. lra.
  - injection HK as <-. pose proof (pow2_pos e) as He. destruct s; cbn [cond_Zopp] in Hk.
    + exfalso. rewrite inject_Z_opp in Hk.
      assert (Hpos : 0 < inject_Z (Zpos m)).
      { change 0 with (inject_Z 0). rewrite <- Zlt_Qlt. lia. }
      set (a := inject_Z (Zpos m)) in *. set (P := 2 ^ e) in *.
      set (c := inject_Z k) in *. clearbody a P c. nra.
    + exists m, e. split; [reflexivity |]. split; [exact Hk |].
      cbn [Float.trunc cond_Zopp]. f_equal.
      destruct (shiftl_floor (Zpos m) e ltac:(lia)) as [Hlo Hhi].
      unfold mag in Hlo, Hhi. rewrite Hk in Hlo, Hhi.
      change 1 with (inject_Z 1) in Hhi. rewrite <- inject_Z_plus in Hhi.
      rewrite <- Zle_Qle in Hlo. rewrite <- Zlt_Qlt in Hhi. lia.
Qed.

Local Open Scope Z_scope.

Lemma quot_cond_Zopp s n k :
  0 <= n -> 0 <= k -> Z.quot (cond_Zopp s n * k) 1000 = cond_Zopp s (n * k / 1000).
Proof.
  intros Hn Hk. destruct s; cbn [cond_Zopp].
  - rewrite Z.mul_opp_l, Z.quot_opp_l by lia.
    rewrite Z.quot_div_nonneg by nia. reflexivity.
  - apply Z.quot_div_nonneg; nia.
Qed.

Lemma in_signed_cond_Zopp bits s n :
  0 < bits -> 0 <= n < 2 ^ (bits - 1) -> Int.in_signed bits (cond_Zopp s n) = true.
Proof.
  intros Hb Hn. unfold Int.in_signed, Int.min_signed, Int.max_signed.
  apply andb_true_iff. rewrite !Z.leb_le. destruct s; cbn [cond_Zopp]; lia.
Qed.


Local Open Scope Q_scope.

(** The round trip from a zero. *)
Lemma round_trip_zero (s : State hw) (axis : nat) (a : StepperAxis hw) sx mk ek k :
  stepperAxis s !! axis = Some a ->
  steps_per_mm a = S754_finite false mk ek ->
  Float.trunc (steps_per_mm a) = Some k -> (1 <= k <= 2 ^ 31)%Z ->
  exists back,
    stepperAxisMMToSteps hw s (S754_zero sx) axis = Some 0%Z /\
    stepperAxisStepsToMM hw s 0 axis = Some back /\
    Float.to_Q back = Some 0.
Proof.
  intros Ha Hspm Hk Hkr.
  exists (S754_zero false). split; [| split].
  - rewrite (mm_to_steps_in_range hw s axis a (S754_zero sx) 0 k Ha); try reflexivity.
    + exact Hk.
    + apply (in_signed_cond_Zopp 64 false k); [lia |]. change (2 ^ (64 - 1))%Z with 9223372036854775808%Z. lia.
  - unfold stepperAxisStepsToMM. rewrite Ha. cbn [mbind option_bind]. rewrite Hspm. reflexivity.
  - reflexivity.
Qed.


(** The round trip from a finite non-zero distance of sign [sx] and
    magnitude [X], in magnitudes. *)
Lemma round_trip_finite (s : State hw) (axis : nat) (a : StepperAxis hw) sx mx ex mk ek k :
  stepperAxis s !! axis = Some a ->
  steps_per_mm a = S754_finite false mk ek ->
  mag (Zpos mk) ek == inject_Z k ->
  Float.trunc (steps_per_mm a) = Some k -> (1 <= k <= 2 ^ 31)%Z ->
  mag (Zpos mx) ex * inject_Z k <= 2 ^ 30 ->
  exists steps back b B,
    stepperAxisMMToSteps hw s (S754_finite sx mx ex) axis = Some steps /\
    stepperAxisStepsToMM hw s steps axis = Some back /\
    Float.to_Q back = Some b /\ b == signed_mag sx B /\
    Qabs (B - mag (Zpos mx) ex)
    <= 1 / inject_Z k + (1 # 1000) + mag (Zpos mx) ex * (1 # 4194304).
Proof.
  intros Ha Hspm HK Hk Hkr HXk.
  set (X := mag (Zpos mx) ex) in *.
  assert (HX0 : 0 <= X) by (apply mag_nonneg; lia).
  assert (Hkq : 1 <= inject_Z k <= 2147483648).
  { change 1 with (inject_Z 1). change 2147483648 with (inject_Z (2 ^ 31)).
    rewrite <- !Zle_Qle. exact Hkr. }
  assert (H30 : 2 ^ 30 == 1073741824) by reflexivity.
  rewrite H30 in HXk.
  assert (HX : X <= 2 ^ 30) by (rewrite H30; nra).
  (* mm * 1000.0 and its integer part *)
  destruct (mul_1000_spec sx mx ex HX) as (m1 & e1 & Hmul & Hm1 & He1 & HU).
  fold X in HU. set (U := mag m1 e1) in *.
  destruct (trunc_pack sx m1 e1 Hm1 He1) as (n & Htr & Hn0 & Hn1 & Hn2).
  fold U in Hn1, Hn2. rewrite <- Hmul in Htr.
  assert (Hnq : 0 <= inject_Z n) by (change 0 with (inject_Z 0); rewrite <- Zle_Qle; exact Hn0).
  assert (HU' : Qabs (U - 1000 * X) <= 1000 * X * (1 # 16777216)
                \/ (inject_Z n == 0 /\ 1000 * X < 1)).
  { destruct HU as [HU | [HU1 HU2]]; [left; exact HU | right].
    split; [| exact HU2].
    assert (Hn1' : inject_Z n < inject_Z 1) by (change (inject_Z 1) with 1; lra).
    rewrite <- Zlt_Qlt in Hn1'. replace n with 0%Z by lia. reflexivity. }
  (* the product with the integer steps per mm *)
  assert (Hnk : inject_Z (n * k) <= 1073741888000).
  { rewrite inject_Z_mult.
    destruct HU' as [HUr | [HUz _]].
    - apply Qabs_Qle_condition in HUr. destruct HUr as [_ HUr].
      set (nq := inject_Z n) in *. set (kq := inject_Z k) in *. clearbody nq kq U X. nra.
    - rewrite HUz. lra. }
  change 1073741888000 with (inject_Z 1073741888000) in Hnk. rewrite <- Zle_Qle in Hnk.
  set (S := (n * k / 1000)%Z).
  assert (HS : (0 <= S <= 1073741888)%Z).
  { subst S. split; [apply Z.div_pos; nia |].
    apply Z.div_le_upper_bound; lia. }
  assert (HSdiv : (1000 * S <= n * k < 1000 * S + 1000)%Z).
  { subst S. pose proof (Z.mul_div_le (n * k) 1000 ltac:(lia)).
    pose proof (Z.mul_succ_div_gt (n * k) 1000 ltac:(lia)). lia. }
  assert (Hsteps : stepperAxisMMToSteps hw s (S754_finite sx mx ex) axis
                   = Some (cond_Zopp sx S)).
  { replace (cond_Zopp sx S) with (Z.quot (cond_Zopp sx n * k) 1000)
      by (apply quot_cond_Zopp; lia).
    apply (mm_to_steps_in_range hw s axis a _ (cond_Zopp sx n) k Ha Htr Hk).
    - apply in_signed_cond_Zopp; [lia |].
      change (2 ^ (64 - 1))%Z with 9223372036854775808%Z. nia.
    - apply (in_signed_cond_Zopp 64 false k); [lia |].
      change (2 ^ (64 - 1))%Z with 9223372036854775808%Z. lia.
    - replace (cond_Zopp sx n * k)%Z with (cond_Zopp sx (n * k))
        by (destruct sx; cbn [cond_Zopp]; lia).
      apply in_signed_cond_Zopp; [lia |].
      change (2 ^ (64 - 1))%Z with 9223372036854775808%Z. nia.
    - rewrite (quot_cond_Zopp sx n k) by lia.
      apply in_signed_cond_Zopp; [lia |].
      change (2 ^ (32 - 1))%Z with 2147483648%Z. fold S. lia. }
  assert (Hback : stepperAxisStepsToMM hw s (cond_Zopp sx S) axis
                  = Some (Float.div (Float.of_Z (cond_Zopp sx S)) (S754_finite false mk ek))).
  { unfold stepperAxisStepsToMM. rewrite Ha. cbn [mbind option_bind]. rewrite Hspm. reflexivity. }
  assert (HSq1 : 1000 * inject_Z S <= inject_Z n * inject_Z k).
  { rewrite <- inject_Z_mult. change 1000 with (inject_Z 1000).
    rewrite <- inject_Z_mult, <- Zle_Qle. lia. }
  assert (HSq2 : inject_Z n * inject_Z k < 1000 * inject_Z S + 1000).
  { rewrite <- inject_Z_mult. change 1000 with (inject_Z 1000).
    rewrite <- inject_Z_mult, <- inject_Z_plus, <- Zlt_Qlt. lia. }
  assert (HSq0 : 0 <= inject_Z S) by (change 0 with (inject_Z 0); rewrite <- Zle_Qle; lia).
  destruct S as [| p | p] eqn:HSp; [| | lia].
  - (* no step at all *)
    exists 0%Z, (S754_zero false), 0, 0.
    replace (cond_Zopp sx 0) with 0%Z in Hsteps, Hback by (destruct sx; reflexivity).
    split; [exact Hsteps |]. split; [exact Hback |]. split; [reflexivity |].
    split; [destruct sx; reflexivity |].
    apply (round_trip_bound X U (inject_Z n) (inject_Z k) 0 0 0); try assumption; lra.
  - (* at least one step *)
    destruct (of_Z_spec sx p) as (mf & ef & Hof & Hmf & Hef & HF); [lia |].
    destruct (pack_finite sx mf ef Hmf Hef) as (pf & ef' & Hpf & Hmagf).
    set (F := mag mf ef) in *.
    assert (HSp1 : 1 <= inject_Z (Zpos p) <= 1073741888).
    { change 1 with (inject_Z 1). change 1073741888 with (inject_Z 1073741888).
      rewrite <- !Zle_Qle. lia. }
    assert (HFb : - (inject_Z (Zpos p) * (1 # 16777216)) <= F - inject_Z (Zpos p)
                  <= inject_Z (Zpos p) * (1 # 16777216))
      by (apply Qabs_Qle_condition; exact HF).
    destruct (div_spec sx pf ef' mk ek) as (mb & eb & Hdiv & Hmb & Heb & HB).
    + rewrite Hmagf. assert (H32 : 2 ^ 32 == 4294967296) by reflexivity.
      rewrite H32. split; lra.
    + rewrite HK. assert (H31 : 2 ^ 31 == 2147483648) by reflexivity.
      rewrite H31. exact Hkq.
    + destruct (to_Q_pack sx mb eb ltac:(lia) Heb) as (b & Hb & Hbs).
      exists (cond_Zopp sx (Zpos p)), (pack sx mb eb), b, (mag mb eb).
      split; [exact Hsteps |].
      split; [rewrite Hback, Hof, Hpf; f_equal; exact Hdiv |].
      split; [exact Hb |]. split; [exact Hbs |].
      apply (round_trip_bound X U (inject_Z n) (inject_Z k) (inject_Z (Zpos p)) F (mag mb eb));
        try assumption; try lra.
      right. split; [lra |]. split; [exact HF |].
      rewrite HK, Hmagf in HB. exact HB.
Qed.


(** C2, as the code has it: for an integer-valued [steps_per_mm = k] of at
    least 1 and every finite [x] no further from zero than [2 ^ 30] steps,
    [stepperAxisStepsToMM(stepperAxisMMToSteps(x, axis), axis)] is defined
    and differs from [x] by at most one step's worth of distance, plus the
    1/1000 mm to which the distance is cut, plus four units of float
    rounding: [1 / k + 1 / 1000 + |x| / 2 ^ 22]. *)
Theorem round_trip_within_step_and_milli
        (s : State hw) (axis : nat) (a : StepperAxis hw) (x : float) (K v : Q) (k : Z) :
  stepperAxis s !! axis = Some a ->
  Float.to_Q (steps_per_mm a) = Some K -> K == inject_Z k -> (1 <= k <= 2 ^ 31)%Z ->
  Float.to_Q x = Some v -> Qabs v * inject_Z k <= 2 ^ 30 ->
  exists back b,
    round_trip hw s x axis = Some back /\
    Float.to_Q back = Some b /\
    Qabs (b - v) <= 1 / inject_Z k + (1 # 1000) + Qabs v * (1 # 4194304).
Proof.
  intros Ha HK HKk Hk Hv Hrange.
  destruct (steps_per_mm_integer _ K k HK HKk ltac:(lia)) as (mk & ek & Hspm & Hmag & Htr).
  assert (Hkq : 0 < inject_Z k).
  { change 0 with (inject_Z 0). rewrite <- Zlt_Qlt. lia. }
  destruct x as [sx | sx | | sx mx ex]; cbn [Float.to_Q] in Hv; try discriminate.
  - injection Hv as <-.
    destruct (round_trip_zero s axis a sx mk ek k Ha Hspm Htr Hk) as (back & Hs & Hb & Hq).
    exists back, 0. unfold round_trip. rewrite Hs. cbn [mbind option_bind].
    split; [exact Hb |]. split; [exact Hq |].
    assert (Hinv : 0 < / inject_Z k) by (apply Qinv_lt_0_compat; exact Hkq).
    unfold Qdiv. rewrite Qmult_1_l.
    assert (H0 : Qabs (0 - 0) == 0) by reflexivity.
    assert (H1 : Qabs 0 == 0) by reflexivity.
    rewrite H0, H1. lra.
  - injection Hv as <-.
    set (X := mag (Zpos mx) ex).
    assert (HvX : inject_Z (cond_Zopp sx (Zpos mx)) * 2 ^ ex == signed_mag sx X).
    { unfold signed_mag, X, mag. destruct sx; cbn [cond_Zopp]; [| reflexivity].
      change (Z.neg mx) with (Z.opp (Zpos mx)). rewrite inject_Z_opp. ring. }
    assert (HX0 : 0 <= X) by (apply mag_nonneg; lia).
    assert (Habs : Qabs (signed_mag sx X) == X).
    { unfold signed_mag. destruct sx; [rewrite Qabs_opp |]; apply Qabs_pos; exact HX0. }
    rewrite HvX, Habs in Hrange.
    destruct (round_trip_finite s axis a sx mx ex mk ek k Ha Hspm Hmag Htr Hk Hrange)
      as (steps & back & b & B & Hs & Hb & Hq & HbB & Hbound).
    exists back, b. unfold round_trip. rewrite Hs. cbn [mbind option_bind].
    split; [exact Hb |]. split; [exact Hq |].
    fold X in Hbound.
    assert (Hsame : Qabs (b - signed_mag sx X) == Qabs (B - X)).
    { rewrite HbB. unfold signed_mag. destruct sx; [| reflexivity].
      rewrite <- (Qabs_opp (B - X)). apply Qabs_wd. ring. }
    rewrite HvX, Habs, Hsame. exact Hbound.
Qed.

End RoundTrip.

(** * Further properties of the code *)

(** ** Hardware accesses of [stepperAxisInit] *)

Section PinSetup.

Variable hw : Platform.

Local Abbreviation axes_invert := (eeprom8 hw (AXIS_INVERSION hw) 0).
Local Abbreviation endstops_invert := (eeprom8 hw (ENDSTOP_INVERSION hw) 0).

(** The P-Stop accesses at the end of a hard reset. *)
Local Abbreviation pstop_ops pe :=
  (if PSTOP_SUPPORT hw && (pe =? 1)
   then [PSTOP_setDirection false; PSTOP_setValue false] else []).

(** The pin set-up of an axis looks at its port bindings and its endstop
    polarity only. *)
Lemma axis_pin_ops_ext (ports ports' : list StepperAxisPorts)
      (axes axes' : list (StepperAxis hw)) (i : nat) :
  ports !! i = ports' !! i ->
  invert_endstop <$> axes !! i = invert_endstop <$> axes' !! i ->
  axis_pin_ops hw ports axes i = axis_pin_ops hw ports' axes' i.
Proof.
  unfold axis_pin_ops. intros -> Hinv.
  destruct (ports' !! i) as [p |]; [| reflexivity].
  destruct (axes !! i) as [a |], (axes' !! i) as [a' |]; try discriminate;
    [| reflexivity].
  injection Hinv as ->. reflexivity.
Qed.

Lemma soft_loop_io idx (s : State hw) :
  io (foldl (axis_body hw false 0 0) s idx) = io s.
Proof.
  revert s. induction idx as [| i idx IH]; intros s; [reflexivity |].
  cbn [foldl]. rewrite IH. reflexivity.
Qed.

Lemma hard_loop_io ai ei n (s : State hw) :
  io (foldl (axis_body hw true ai ei) s (seq 0 n))
  = io s ++ concat (map (axis_pin_ops hw (stepperAxisPorts s)
                           (stepperAxis (foldl (axis_body hw true ai ei) s (seq 0 n))))
                        (seq 0 n)).
Proof.
  induction n as [| n IH]; [cbn; rewrite app_nil_r; reflexivity |].
  rewrite seq_S, foldl_app. cbn [foldl Nat.add].
  set (s' := foldl (axis_body hw true ai ei) s (seq 0 n)) in *.
  destruct (loop_frame hw true ai ei (seq 0 n) s) as (_ & _ & _ & Hports & _).
  fold s' in Hports.
  change (io (axis_body hw true ai ei s' n))
    with (io s' ++ axis_pin_ops hw (stepperAxisPorts s')
                     (alter (load_axis hw ai ei n) n (stepperAxis s')) n).
  change (stepperAxis (axis_body hw true ai ei s' n))
    with (alter (reset_dda hw n) n (alter (load_axis hw ai ei n) n (stepperAxis s'))).
  rewrite IH, Hports, map_app, concat_app, <- app_assoc. f_equal.
  cbn [map concat]. rewrite app_nil_r. f_equal.
  - f_equal. apply map_ext_in. intros i Hi. apply in_seq in Hi.
    apply axis_pin_ops_ext; [reflexivity |].
    rewrite !list_lookup_alter_ne by lia. reflexivity.
  - apply axis_pin_ops_ext; [reflexivity |].
    rewrite !list_lookup_alter_eq.
    destruct (stepperAxis s' !! n); reflexivity.
Qed.

Lemma init_soft_io (s : State hw) :
  io (stepperAxisInit hw false s) = io s /\
  stepperAxisPorts (stepperAxisInit hw false s) = stepperAxisPorts s /\
  pstop_enable (stepperAxisInit hw false s) = pstop_enable s.
Proof.
  rewrite stepperAxisInit_soft.
  change (io (clear_e_steps hw ?x)) with (io x).
  change (stepperAxisPorts (clear_e_steps hw ?x)) with (stepperAxisPorts x).
  change (pstop_enable (clear_e_steps hw ?x)) with (pstop_enable x).
  destruct (loop_frame hw false 0 0 (seq 0 STEPPER_COUNT) s) as (_ & _ & _ & -> & ->).
  rewrite soft_loop_io. tauto.
Qed.

End PinSetup.

(** ** The whole of the state after a reset *)

Section ResetState.

Variable hw : Platform.

Local Abbreviation axes_invert := (eeprom8 hw (AXIS_INVERSION hw) 0).
Local Abbreviation endstops_invert := (eeprom8 hw (ENDSTOP_INVERSION hw) 0).
Local Abbreviation pstop_ops pe :=
  (if PSTOP_SUPPORT hw && (pe =? 1)
   then [PSTOP_setDirection false; PSTOP_setValue false] else []).

Lemma clear_e_steps_hw (s : State hw) :
  stepperAxisPorts (clear_e_steps hw s) = stepperAxisPorts s /\
  pstop_enable (clear_e_steps hw s) = pstop_enable s /\
  io (clear_e_steps hw s) = io s.
Proof. cbn. tauto. Qed.

Lemma clear_enabled_hw (s : State hw) :
  stepperAxisPorts (clear_enabled hw s) = stepperAxisPorts s /\
  pstop_enable (clear_enabled hw s) = pstop_enable s /\
  io (clear_enabled hw s) = io s ++ pstop_ops (pstop_enable s).
Proof. cbn. tauto. Qed.

Lemma load_pstop_io (s : State hw) : io (load_pstop hw s) = io s.
Proof. unfold load_pstop. destruct (PSTOP_SUPPORT hw); reflexivity. Qed.

Lemma init_hard_io (s : State hw) :
  let s' := stepperAxisInit hw true s in
  stepperAxisPorts s' = stepperAxisPorts (load_pstop hw s) /\
  pstop_enable s' = pstop_enable (load_pstop hw s) /\
  io s' = io s
          ++ concat (map (axis_pin_ops hw (stepperAxisPorts s') (stepperAxis s'))
                         (seq 0 STEPPER_COUNT))
          ++ pstop_ops (pstop_enable s').
Proof.
  cbv zeta. rewrite stepperAxisInit_hard.
  remember (load_pstop hw s) as s1 eqn:Hs1.
  remember (foldl (axis_body hw true axes_invert endstops_invert) s1
                  (seq 0 STEPPER_COUNT)) as s2 eqn:Hs2.
  destruct (clear_e_steps_hw (clear_enabled hw s2)) as (-> & -> & ->).
  destruct (clear_e_steps_frame hw (clear_enabled hw s2)) as (-> & _).
  destruct (clear_enabled_hw s2) as (-> & -> & ->).
  destruct (clear_enabled_frame hw s2) as (-> & _).
  pose proof (loop_frame hw true axes_invert endstops_invert (seq 0 STEPPER_COUNT) s1)
    as Hframe.
  cbv zeta in Hframe. rewrite <- Hs2 in Hframe.
  destruct Hframe as (_ & _ & _ & Hports & Hpe).
  rewrite Hports, Hpe.
  split; [reflexivity |]. split; [reflexivity |].
  pose proof (hard_loop_io hw axes_invert endstops_invert STEPPER_COUNT s1) as Hio.
  rewrite <- Hs2 in Hio. rewrite Hio, <- app_assoc.
  rewrite Hs1 at 1. rewrite load_pstop_io. reflexivity.
Qed.

Lemma foldl_alter_length {A} (f : nat -> A -> A) (idx : list nat) (l : list A) :
  length (foldl (fun l i => alter (f i) i l) l idx) = length l.
Proof.
  revert l. induction idx as [| i idx IH]; intros l; [reflexivity |].
  cbn [foldl]. rewrite IH. apply length_alter.
Qed.

(** The arrays keep their sizes. *)
Lemma init_lengths h (s : State hw) :
  let s' := stepperAxisInit hw h s in
  length (stepperAxis s') = length (stepperAxis s) /\
  length (stepperAxisPorts s') = length (stepperAxisPorts s) /\
  length (dda_position s') = length (dda_position s) /\
  length (axis_homing s') = length (axis_homing s) /\
  length (e_steps s') = length (e_steps s).
Proof.
  cbv zeta.
  assert (Hlen : forall {A} (l l' : list A),
             (forall j, is_Some (l' !! j) <-> is_Some (l !! j)) -> length l' = length l).
  { intros A l l' H.
    destruct (Nat.lt_trichotomy (length l') (length l)) as [Hlt | [Heq | Hlt]];
      [| exact Heq |].
    - apply lookup_lt_is_Some_2, H, lookup_lt_is_Some_1 in Hlt. lia.
    - apply lookup_lt_is_Some_2, H, lookup_lt_is_Some_1 in Hlt. lia. }
  repeat split.
  - apply Hlen. intros j. destruct h.
    + rewrite init_hard_stepperAxis. destruct (decide (j < STEPPER_COUNT)%nat);
        [rewrite fmap_is_Some |]; reflexivity.
    + rewrite init_soft_stepperAxis. destruct (decide (j < STEPPER_COUNT)%nat);
        [rewrite fmap_is_Some |]; reflexivity.
  - destruct h.
    + destruct (init_hard_io s) as (-> & _).
      unfold load_pstop. destruct (PSTOP_SUPPORT hw); [| reflexivity].
      apply length_alter.
    + destruct (init_soft_io hw s) as (_ & -> & _). reflexivity.
  - apply Hlen. intros j. destruct h.
    + rewrite init_hard_dda_position. destruct (decide (j < STEPPER_COUNT)%nat);
        [rewrite fmap_is_Some |]; reflexivity.
    + rewrite init_soft_dda_position. reflexivity.
  - apply Hlen. intros j. rewrite init_axis_homing.
    destruct (decide (j < STEPPER_COUNT)%nat); [rewrite fmap_is_Some |]; reflexivity.
  - rewrite init_e_steps. apply foldl_insert_length.
Qed.

End ResetState.

Section ResetTheorems.

Variable hw : Platform.

Local Abbreviation axes_invert := (eeprom8 hw (AXIS_INVERSION hw) 0).
Local Abbreviation endstops_invert := (eeprom8 hw (ENDSTOP_INVERSION hw) 0).
Local Abbreviation pstop_ops pe :=
  (if PSTOP_SUPPORT hw && (pe =? 1)
   then [PSTOP_setDirection false; PSTOP_setValue false] else []).

(** X1: a hard reset zeroes [dda_position], clears [axis_homing], both
    enable masks and the [hasHomed] and [hasDefinePosition] flags of every
    axis. *)
Theorem hard_reset_clears_motion_state (s : State hw) :
  length (stepperAxis s) = STEPPER_COUNT ->
  length (dda_position s) = STEPPER_COUNT ->
  length (axis_homing s) = STEPPER_COUNT ->
  let s' := stepperAxisInit hw true s in
  dda_position s' = replicate STEPPER_COUNT 0 /\
  axis_homing s' = replicate STEPPER_COUNT false /\
  axesEnabled s' = 0 /\
  axesHardwareEnabled s' = 0 /\
  forall i, (i < STEPPER_COUNT)%nat ->
    exists a, stepperAxis s' !! i = Some a /\
              hasHomed a = false /\ hasDefinePosition a = false.
Proof.
  intros Hax Hpos Hhome s'. subst s'.
  split; [| split].
  - apply list_eq. intros j. rewrite init_hard_dda_position.
    destruct (decide (j < STEPPER_COUNT)%nat) as [Hj | Hj].
    + destruct (lookup_lt_is_Some_2 (dda_position s) j) as [x Hx]; [lia |].
      rewrite Hx. symmetry. apply lookup_replicate_2. exact Hj.
    + rewrite lookup_ge_None_2 by lia. symmetry. apply lookup_replicate_None. lia.
  - apply list_eq. intros j. rewrite init_axis_homing.
    destruct (decide (j < STEPPER_COUNT)%nat) as [Hj | Hj].
    + destruct (lookup_lt_is_Some_2 (axis_homing s) j) as [x Hx]; [lia |].
      rewrite Hx. symmetry. apply lookup_replicate_2. exact Hj.
    + rewrite lookup_ge_None_2 by lia. symmetry. apply lookup_replicate_None. lia.
  - destruct (init_hard_enabled hw s) as [He Hh].
    split; [exact He |]. split; [exact Hh |].
    intros i Hi. destruct (hard_axis_lookup hw s i Hax Hi) as (a & _ & Ha').
    eexists. split; [exact Ha' |]. split; reflexivity.
Qed.

(** X2: after a hard reset [invert_axis] of axis [i] is bit [i] of the
    stored axis-inversion mask. *)
Theorem axis_inversion_after_hard_reset (s : State hw) (i : nat) :
  length (stepperAxis s) = STEPPER_COUNT -> (i < STEPPER_COUNT)%nat ->
  exists a,
    stepperAxis (stepperAxisInit hw true s) !! i = Some a /\
    invert_axis a = Z.testbit axes_invert (Z.of_nat i).
Proof.
  intros Hlen Hi.
  destruct (hard_axis_lookup hw s i Hlen Hi) as (a & _ & Ha').
  eexists. split; [exact Ha' |].
  change (invert_axis (axis_update hw true axes_invert endstops_invert i a))
    with (bit_set axes_invert (Z.of_nat i)).
  apply bit_set_testbit. lia.
Qed.

(** X3: after a call with either value of [hard_reset] the motion
    descriptor of A and B is marked as an extruder axis, that of X, Y and
    Z is not. *)
Theorem extruder_axes_marked (h : bool) (s : State hw) (i : nat) :
  length (stepperAxis s) = STEPPER_COUNT -> (i < STEPPER_COUNT)%nat ->
  exists a,
    stepperAxis (stepperAxisInit hw h s) !! i = Some a /\
    (eAxis (dda a) = true <-> i = A_AXIS \/ i = B_AXIS).
Proof.
  intros Hlen Hi.
  assert (Ha : exists a0, stepperAxis (stepperAxisInit hw h s) !! i
                          = Some (reset_dda hw i a0)).
  { destruct h.
    - destruct (hard_axis_lookup hw s i Hlen Hi) as (a & _ & Ha'). eexists. exact Ha'.
    - destruct (soft_axis_lookup hw s i Hlen Hi) as (a & _ & Ha'). eexists. exact Ha'. }
  destruct Ha as [a0 Ha]. eexists. split; [exact Ha |].
  cbn [reset_dda dda eAxis]. unfold A_AXIS, B_AXIS, STEPPER_COUNT in *.
  rewrite Nat.leb_le. lia.
Qed.

(** X4: a call with [hard_reset = false] makes no hardware access and
    leaves the port table and the P-Stop setting as they were. *)
Theorem soft_reset_touches_no_pin (s : State hw) :
  let s' := stepperAxisInit hw false s in
  io s' = io s /\
  stepperAxisPorts s' = stepperAxisPorts s /\
  pstop_enable s' = pstop_enable s.
Proof. apply init_soft_io. Qed.

Lemma pin_ops_zip (ports : list StepperAxisPorts) (axes : list (StepperAxis hw)) :
  length ports = STEPPER_COUNT -> length axes = STEPPER_COUNT ->
  concat (map (axis_pin_ops hw ports axes) (seq 0 STEPPER_COUNT))
  = concat (zip_with (fun p a => setup_pins hw p (invert_endstop a)) ports axes).
Proof.
  intros Hp Ha.
  do 6 (destruct ports as [| ? ports]; try discriminate).
  do 6 (destruct axes as [| ? axes]; try discriminate).
  reflexivity.
Qed.

(** The port accesses of a hard reset, by [setup_pins]. *)
Lemma hard_reset_pin_ops (s : State hw) :
  length (stepperAxisPorts s) = STEPPER_COUNT ->
  length (stepperAxis s) = STEPPER_COUNT ->
  let s' := stepperAxisInit hw true s in
  io s' = io s
          ++ concat (zip_with (fun p a => setup_pins hw p (invert_endstop a))
                              (stepperAxisPorts s') (stepperAxis s'))
          ++ pstop_ops (pstop_enable s').
Proof.
  intros Hp Ha s'. subst s'.
  destruct (init_hard_io hw s) as (_ & _ & Hio).
  destruct (init_lengths hw true s) as (Hla & Hlp & _).
  rewrite <- pin_ops_zip by congruence. exact Hio.
Qed.

(** X5: the port accesses of a hard reset, in the order they are made.
    For each axis in turn, on its entry of the port table: the direction
    port is made an output, the step port is made an output, the enable
    port is written high and then made an output; then the maximum
    endstop port, unless it is null, is made an input and written with
    the axis's [invert_endstop], and then the minimum endstop port
    likewise.  Last, in a build with P-Stop support and with the P-Stop
    setting at 1, the P-Stop port is made an input and written low. *)
Theorem hard_reset_pin_sequence (s : State hw) :
  length (stepperAxisPorts s) = STEPPER_COUNT ->
  length (stepperAxis s) = STEPPER_COUNT ->
  let s' := stepperAxisInit hw true s in
  io s'
  = io s
    ++ concat
         (zip_with
            (fun p a =>
               [SET_DIRECTION (dir p) true;
                SET_DIRECTION (step p) true;
                WRITE (enable p) true;
                SET_DIRECTION (enable p) true]
               ++ (if STEPPER_IOPORT_NULL hw (maximum p) then []
                   else [SET_DIRECTION (maximum p) false;
                         WRITE (maximum p) (invert_endstop a)])
               ++ (if STEPPER_IOPORT_NULL hw (minimum p) then []
                   else [SET_DIRECTION (minimum p) false;
                         WRITE (minimum p) (invert_endstop a)]))
            (stepperAxisPorts s') (stepperAxis s'))
    ++ (if PSTOP_SUPPORT hw && (pstop_enable s' =? 1)
        then [PSTOP_setDirection false; PSTOP_setValue false]
        else []).
Proof.
  intros Hp Ha s'.
  pose proof (hard_reset_pin_ops s Hp Ha) as Hio. cbv zeta in Hio. fold s' in Hio.
  rewrite Hio. f_equal. f_equal. f_equal.
  apply zip_with_ext; [| reflexivity | reflexivity].
  intros p a. unfold setup_pins.
  destruct (STEPPER_IOPORT_NULL hw (maximum p)),
           (STEPPER_IOPORT_NULL hw (minimum p)); reflexivity.
Qed.

Lemma setup_pins_inputs (p : StepperAxisPorts) (inv : bool) :
  Forall (fun op => forall q, op = SET_DIRECTION q false ->
                              STEPPER_IOPORT_NULL hw q = false)
         (setup_pins hw p inv).
Proof.
  unfold setup_pins.
  repeat (apply Forall_cons; split; [intros q Hq; discriminate |]).
  apply Forall_app. split.
  - destruct (STEPPER_IOPORT_NULL hw (maximum p)) eqn:Hn; cbn [negb];
      [apply Forall_nil_2 |].
    apply Forall_cons. split; [intros q Hq; injection Hq as <-; exact Hn |].
    apply Forall_cons. split; [intros q Hq; discriminate | apply Forall_nil_2].
  - destruct (STEPPER_IOPORT_NULL hw (minimum p)) eqn:Hn; cbn [negb];
      [apply Forall_nil_2 |].
    apply Forall_cons. split; [intros q Hq; injection Hq as <-; exact Hn |].
    apply Forall_cons. split; [intros q Hq; discriminate | apply Forall_nil_2].
Qed.

(** X6: a hard reset never makes an input of a port that
    [STEPPER_IOPORT_NULL] recognises: an axis without an endstop on one
    side has no pin configured for it. *)
Theorem hard_reset_skips_null_endstops (s : State hw) :
  exists ops,
    io (stepperAxisInit hw true s) = io s ++ ops /\
    Forall (fun op => forall q, op = SET_DIRECTION q false ->
                                STEPPER_IOPORT_NULL hw q = false) ops.
Proof.
  destruct (init_hard_io hw s) as (_ & _ & Hio).
  eexists. split; [exact Hio |].
  apply Forall_app. split.
  - apply Forall_concat, Forall_map, Forall_forall. intros i _.
    unfold axis_pin_ops.
    destruct (stepperAxisPorts (stepperAxisInit hw true s) !! i) as [p |];
      [| apply Forall_nil_2].
    destruct (stepperAxis (stepperAxisInit hw true s) !! i) as [a |];
      [| apply Forall_nil_2].
    apply setup_pins_inputs.
  - destruct (PSTOP_SUPPORT hw && (pstop_enable (stepperAxisInit hw true s) =? 1));
      [| apply Forall_nil_2].
    repeat (apply Forall_cons; split; [intros q Hq; discriminate |]).
    apply Forall_nil_2.
Qed.

(** X7: in a build with P-Stop support a hard reset reads the P-Stop
    setting and binds the X minimum endstop accordingly: to no port when
    the setting is 1, to [X_STEPPER_MIN] otherwise; the other bindings
    of X and the bindings of the other axes stay.  In a build without,
    the port table and the setting are not touched. *)
Theorem pstop_rebinds_x_minimum (s : State hw) :
  let s' := stepperAxisInit hw true s in
  let pe := eeprom8 hw (PSTOP_ENABLE hw) 0 in
  (PSTOP_SUPPORT hw = false ->
   stepperAxisPorts s' = stepperAxisPorts s /\ pstop_enable s' = pstop_enable s) /\
  (PSTOP_SUPPORT hw = true ->
   pstop_enable s' = pe /\
   (forall i, i <> X_AXIS -> stepperAxisPorts s' !! i = stepperAxisPorts s !! i) /\
   (forall p, stepperAxisPorts s !! X_AXIS = Some p ->
      stepperAxisPorts s' !! X_AXIS
      = Some {| step := step p; dir := dir p; enable := enable p;
                minimum := if pe =? 1 then STEPPER_NULL else X_STEPPER_MIN hw;
                maximum := maximum p |})).
Proof.
  intros s' pe. subst s'.
  destruct (init_hard_io hw s) as (-> & -> & _).
  unfold load_pstop. split; intros ->; [split; reflexivity |].
  cbn [stepperAxisPorts pstop_enable]. fold pe.
  split; [reflexivity |]. split.
  - intros i Hi. unfold set_x_minimum. apply list_lookup_alter_ne. congruence.
  - intros p Hp. unfold set_x_minimum. rewrite list_lookup_alter_eq, Hp.
    destruct (pe =? 1); reflexivity.
Qed.

Lemma axis_update_hard_any ai ei i (a b : StepperAxis hw) :
  (i < STEPPER_COUNT)%nat ->
  axis_update hw true ai ei i a = axis_update hw true ai ei i b.
Proof.
  intros Hi. unfold axis_update, reset_dda, load_axis.
  cbn [invert_endstop invert_axis steps_per_mm max_feedrate min_interval
       max_axis_steps_limit min_axis_steps_limit hasHomed hasDefinePosition dda].
  assert (Hl : forall L old old', axis_limits hw i L old = axis_limits hw i L old').
  { intros L old old'. unfold STEPPER_COUNT in Hi.
    destruct i as [| [| [| [| [| i]]]]]; try reflexivity. lia. }
  rewrite (Hl _ _ (max_axis_steps_limit b, min_axis_steps_limit b)). reflexivity.
Qed.

(** X8: a hard reset forgets what was there: the axis records, positions,
    homing flags, extruder counters and enable masks it leaves are the
    same from any two states. *)
Theorem hard_reset_forgets (s1 s2 : State hw) :
  length (stepperAxis s1) = STEPPER_COUNT -> length (stepperAxis s2) = STEPPER_COUNT ->
  length (dda_position s1) = STEPPER_COUNT -> length (dda_position s2) = STEPPER_COUNT ->
  length (axis_homing s1) = STEPPER_COUNT -> length (axis_homing s2) = STEPPER_COUNT ->
  length (e_steps s1) = EXTRUDERS hw -> length (e_steps s2) = EXTRUDERS hw ->
  let r1 := stepperAxisInit hw true s1 in
  let r2 := stepperAxisInit hw true s2 in
  stepperAxis r1 = stepperAxis r2 /\
  dda_position r1 = dda_position r2 /\
  axis_homing r1 = axis_homing r2 /\
  e_steps r1 = e_steps r2 /\
  axesEnabled r1 = axesEnabled r2 /\
  axesHardwareEnabled r1 = axesHardwareEnabled r2.
Proof.
  intros Ha1 Ha2 Hp1 Hp2 Hh1 Hh2 He1 He2 r1 r2. subst r1 r2.
  assert (Hconst : forall {A} (v : A) (l1 l2 : list A) (j : nat),
             length l1 = length l2 ->
             (fun _ => v) <$> l1 !! j = (fun _ => v) <$> l2 !! j).
  { intros A v l1 l2 j Hl.
    destruct (decide (j < length l1)%nat) as [Hj | Hj].
    - destruct (lookup_lt_is_Some_2 l1 j Hj) as [x ->].
      destruct (lookup_lt_is_Some_2 l2 j) as [y ->]; [lia | reflexivity].
    - rewrite !lookup_ge_None_2 by lia. reflexivity. }
  split; [| split; [| split; [| split]]].
  - apply list_eq. intros j. rewrite !init_hard_stepperAxis.
    destruct (decide (j < STEPPER_COUNT)%nat) as [Hj | Hj].
    + destruct (lookup_lt_is_Some_2 (stepperAxis s1) j) as [a ->]; [lia |].
      destruct (lookup_lt_is_Some_2 (stepperAxis s2) j) as [b ->]; [lia |].
      cbn [fmap option_fmap option_map]. f_equal. apply axis_update_hard_any, Hj.
    + rewrite !lookup_ge_None_2 by lia. reflexivity.
  - apply list_eq. intros j. rewrite !init_hard_dda_position.
    destruct (decide (j < STEPPER_COUNT)%nat) as [Hj | Hj].
    + apply Hconst. congruence.
    + rewrite !lookup_ge_None_2 by lia. reflexivity.
  - apply list_eq. intros j. rewrite !init_axis_homing.
    destruct (decide (j < STEPPER_COUNT)%nat) as [Hj | Hj].
    + apply Hconst. congruence.
    + rewrite !lookup_ge_None_2 by lia. reflexivity.
  - assert (Hz : forall l : list Z,
               length l = EXTRUDERS hw ->
               foldl (fun l i => <[i := 0]> l) l (seq 0 (EXTRUDERS hw))
               = replicate (EXTRUDERS hw) 0).
    { intros l Hl. rewrite <- Hl. apply foldl_insert_replicate. }
    rewrite !init_e_steps, (Hz _ He1), (Hz _ He2). reflexivity.
  - destruct (init_hard_enabled hw s1) as [E1 H1].
    destruct (init_hard_enabled hw s2) as [E2 H2].
    split; [exact (eq_trans E1 (eq_sym E2)) | exact (eq_trans H1 (eq_sym H2))].
Qed.

Lemma State_eq (s1 s2 : State hw) :
  stepperAxisPorts s1 = stepperAxisPorts s2 ->
  stepperAxis s1 = stepperAxis s2 ->
  dda_position s1 = dda_position s2 ->
  axis_homing s1 = axis_homing s2 ->
  e_steps s1 = e_steps s2 ->
  axesEnabled s1 = axesEnabled s2 ->
  axesHardwareEnabled s1 = axesHardwareEnabled s2 ->
  pstop_enable s1 = pstop_enable s2 ->
  io s1 = io s2 ->
  s1 = s2.
Proof.
  destruct s1, s2. cbn. intros -> -> -> -> -> -> -> -> ->. reflexivity.
Qed.

Lemma reset_dda_again i (a : StepperAxis hw) :
  reset_dda hw i (reset_dda hw i a) = reset_dda hw i a.
Proof. reflexivity. Qed.

(** X9: a soft reset right after a reset of either kind changes
    nothing at all. *)
Theorem soft_reset_after_reset_is_identity (h : bool) (s : State hw) :
  stepperAxisInit hw false (stepperAxisInit hw h s) = stepperAxisInit hw h s.
Proof.
  remember (stepperAxisInit hw h s) as r eqn:Hr.
  destruct (init_soft_io hw r) as (Hio & Hports & Hpe).
  destruct (init_soft_enabled hw r) as (Hen & Hhw).
  apply State_eq; try assumption.
  - apply list_eq. intros j. rewrite init_soft_stepperAxis.
    destruct (decide (j < STEPPER_COUNT)%nat) as [Hj | Hj]; [| reflexivity].
    rewrite Hr. destruct h.
    + rewrite init_hard_stepperAxis, decide_True by exact Hj.
      destruct (stepperAxis s !! j); reflexivity.
    + rewrite init_soft_stepperAxis, decide_True by exact Hj.
      destruct (stepperAxis s !! j); reflexivity.
  - apply init_soft_dda_position.
  - apply list_eq. intros j. rewrite init_axis_homing.
    destruct (decide (j < STEPPER_COUNT)%nat) as [Hj | Hj]; [| reflexivity].
    rewrite Hr, init_axis_homing, decide_True by exact Hj.
    apply fmap_const_again.
  - apply list_eq. intros j. rewrite init_e_steps, foldl_insert_lookup.
    destruct (decide (j < EXTRUDERS hw)%nat) as [Hj | Hj]; [| reflexivity].
    rewrite Hr, init_e_steps, foldl_insert_lookup, decide_True by exact Hj.
    apply fmap_const_again.
Qed.

(** X10: in a build that homes Z to its maximum, after a hard reset the
    Z maximum is the stored home position read as an [int32_t], whatever
    the axis length, and the Z minimum is 0. *)
Theorem z_limits_when_homing_to_max (s : State hw) :
  Z_HOME_MAX hw = true ->
  length (stepperAxis s) = STEPPER_COUNT ->
  exists a,
    stepperAxis (stepperAxisInit hw true s) !! Z_AXIS = Some a /\
    max_axis_steps_limit a
    = Int.int32 (eeprom32 hw (AXIS_HOME_POSITIONS_STEPS hw + 8) 0) /\
    min_axis_steps_limit a = 0.
Proof.
  intros Hz Hlen.
  destruct (hard_axis_lookup hw s Z_AXIS Hlen) as (a & _ & Ha');
    [unfold Z_AXIS, STEPPER_COUNT; lia |].
  eexists. split; [exact Ha' |].
  pose proof (loaded_limits hw axes_invert endstops_invert Z_AXIS a) as Hlim.
  cbv zeta in Hlim. cbn [axis_limits Z_AXIS] in Hlim. rewrite Hz in Hlim.
  apply pair_equal_spec in Hlim as [-> ->]. split; reflexivity.
Qed.

End ResetTheorems.

(** ** Sign symmetry of the floating point operations *)

Section FloatSymmetry.

Lemma round_aux_opp s m e l :
  binary_round_aux Float.prec Float.emax (negb s) m e l
  = opp (binary_round_aux Float.prec Float.emax s m e l).
Proof.
  unfold binary_round_aux.
  destruct (shr_fexp Float.prec Float.emax m e l) as [mrs e'].
  destruct (shr_fexp Float.prec Float.emax
              (round_nearest_even (shr_m mrs) (loc_of_shr_record mrs)) e' loc_Exact)
    as [mrs' e''].
  destruct (shr_m mrs'); [reflexivity | | reflexivity].
  destruct (e'' <=? Float.emax - Float.prec); reflexivity.
Qed.

Lemma mul_opp_l x y : Float.mul (opp x) y = opp (Float.mul x y).
Proof.
  destruct x as [sx | sx | | sx mx ex], y as [sy | sy | | sy my ey];
    cbn [opp SFopp Float.mul SFmul]; rewrite <- ?negb_xorb_l; try reflexivity.
  apply round_aux_opp.
Qed.

Lemma div_opp_l x y : Float.div (opp x) y = opp (Float.div x y).
Proof.
  destruct x as [sx | sx | | sx mx ex], y as [sy | sy | | sy my ey];
    cbn [opp SFopp Float.div SFdiv]; rewrite <- ?negb_xorb_l; try reflexivity.
  destruct (SFdiv_core_binary Float.prec Float.emax (Z.pos mx) ex (Z.pos my) ey)
    as [[mz ez] lz].
  apply round_aux_opp.
Qed.

Lemma of_Z_opp z : z <> 0 -> Float.of_Z (- z) = opp (Float.of_Z z).
Proof.
  intros Hz.
  assert (Hr : forall s p,
             Float.of_Z (cond_Zopp s (Zpos p)) = binary_round Float.prec Float.emax s p 0)
    by (intros [] p; reflexivity).
  assert (Ho : forall s p,
             binary_round Float.prec Float.emax (negb s) p 0
             = opp (binary_round Float.prec Float.emax s p 0)).
  { intros s p. unfold binary_round.
    destruct (shl_align p 0 (fexp Float.prec Float.emax (Z.pos (digits2_pos p) + 0)))
      as [mz ez].
    apply round_aux_opp. }
  destruct z as [| p | p]; [contradiction | |].
  - change (- Z.pos p) with (cond_Zopp true (Zpos p)).
    change (Z.pos p) with (cond_Zopp false (Zpos p)) at 2.
    rewrite !Hr. apply (Ho false).
  - change (- Z.neg p) with (cond_Zopp false (Zpos p)).
    change (Z.neg p) with (cond_Zopp true (Zpos p)).
    rewrite !Hr, (Ho false).
    destruct (binary_round Float.prec Float.emax false p 0) as [[] | [] | | [] ? ?];
      reflexivity.
Qed.

Lemma trunc_opp x n : Float.trunc x = Some n -> Float.trunc (opp x) = Some (- n).
Proof.
  destruct x as [sx | sx | | sx mx ex]; cbn [opp SFopp Float.trunc]; intros H;
    try discriminate; injection H as <-; [reflexivity |].
  destruct sx; cbn [negb cond_Zopp]; f_equal; lia.
Qed.

End FloatSymmetry.

(** ** Symmetry of the conversions about zero *)

Section ConversionSymmetry.

Variable hw : Platform.

Lemma in_signed_abs bits z :
  0 < bits -> Z.abs z < 2 ^ (bits - 1) ->
  Int.in_signed bits z = true /\ Int.in_signed bits (- z) = true.
Proof.
  intros Hb Hz. unfold Int.in_signed, Int.min_signed, Int.max_signed.
  rewrite !andb_true_iff, !Z.leb_le. lia.
Qed.

(** X15: within the integer ranges [stepperAxisMMToSteps] is odd, and keeps
    the sign: the steps of [- mm] are the negated steps of [mm], and a
    distance that is not negative, on an axis whose [steps_per_mm] is not
    negative, gives a step count that is not negative. *)
Theorem mm_to_steps_odd (s : State hw) (axis : nat) (a : StepperAxis hw)
        (mm : float) (n k : Z) :
  stepperAxis s !! axis = Some a ->
  Float.trunc (Float.mul mm (Float.of_Z 1000)) = Some n ->
  Float.trunc (steps_per_mm a) = Some k ->
  Z.abs n < 2 ^ 63 -> Z.abs k < 2 ^ 63 -> Z.abs (n * k) < 2 ^ 63 ->
  Z.abs (Z.quot (n * k) 1000) < 2 ^ 31 ->
  exists r,
    stepperAxisMMToSteps hw s mm axis = Some r /\
    stepperAxisMMToSteps hw s (opp mm) axis = Some (- r) /\
    (not_negative mm -> not_negative (steps_per_mm a) -> 0 <= r).
Proof.
  intros Ha Hn Hk Rn Rk Rnk Rq.
  destruct (in_signed_abs 64 n ltac:(lia) Rn) as [Rn1 Rn2].
  destruct (in_signed_abs 64 k ltac:(lia) Rk) as [Rk1 _].
  destruct (in_signed_abs 64 (n * k) ltac:(lia) Rnk) as [Rnk1 Rnk2].
  destruct (in_signed_abs 32 _ ltac:(lia) Rq) as [Rq1 Rq2].
  exists (Z.quot (n * k) 1000). split; [| split].
  - apply (mm_to_steps_in_range hw s axis a mm n k); assumption.
  - rewrite <- Z.quot_opp_l by lia. rewrite <- Z.mul_opp_l.
    apply (mm_to_steps_in_range hw s axis a (opp mm) (- n) k); try assumption.
    + rewrite mul_opp_l. apply trunc_opp, Hn.
    + rewrite Z.mul_opp_l. exact Rnk2.
    + rewrite Z.mul_opp_l, Z.quot_opp_l by lia. exact Rq2.
  - intros Hmm Hspm.
    assert (0 <= n).
    { apply (trunc_not_negative (Float.mul mm (Float.of_Z 1000))); [| exact Hn].
      apply mul_not_negative; [exact Hmm | apply of_Z_not_negative; lia]. }
    assert (0 <= k) by (apply (trunc_not_negative (steps_per_mm a)); assumption).
    apply Z.quot_pos; nia.
Qed.

(** X16: [stepperAxisStepsToMM] is odd: the distance of [- steps] is the
    negated distance of [steps], for every step count other than 0 whose
    negation is an [int32_t] too; and a step count that is not negative,
    on an axis whose [steps_per_mm] is not negative, gives a distance
    that is not negative. *)
Theorem steps_to_mm_odd (s : State hw) (axis : nat) (steps : Z) :
  steps <> 0 -> Z.abs steps < 2 ^ 31 ->
  stepperAxisStepsToMM hw s (- steps) axis
  = opp <$> stepperAxisStepsToMM hw s steps axis /\
  forall a, stepperAxis s !! axis = Some a ->
            0 <= steps -> not_negative (steps_per_mm a) ->
            exists d, stepperAxisStepsToMM hw s steps axis = Some d /\ not_negative d.
Proof.
  intros Hs _. unfold stepperAxisStepsToMM. split.
  - destruct (stepperAxis s !! axis) as [a |]; [| reflexivity].
    cbn [mbind option_bind fmap option_fmap option_map].
    rewrite of_Z_opp, div_opp_l by exact Hs. reflexivity.
  - intros a -> Hpos Hspm. cbn [mbind option_bind]. eexists. split; [reflexivity |].
    apply div_not_negative; [apply of_Z_not_negative; exact Hpos | exact Hspm].
Qed.

End ConversionSymmetry.

(** ** Accuracy of the loaded calibration and of [stepperAxisStepsToMM] *)

Section Accuracy.

Local Open Scope Q_scope.

(** [(float) n] for an integer of at most 32 bits, the range of a
    [uint32_t] and of the magnitude of an [int32_t]. *)
Lemma of_Z_32 s p :
  (Zpos p < 2 ^ 32)%Z ->
  exists m e,
    Float.of_Z (cond_Zopp s (Zpos p)) = S754_finite s m e /\
    Qabs (mag (Zpos m) e - inject_Z (Zpos p)) <= inject_Z (Zpos p) * (1 # 16777216) /\
    (1 # 2) <= mag (Zpos m) e <= 2 ^ 32.
Proof.
  intros Hp.
  assert (Hof : Float.of_Z (cond_Zopp s (Zpos p)) = binary_round Float.prec Float.emax s p 0)
    by (destruct s; reflexivity).
  rewrite Hof. unfold binary_round.
  destruct (shl_align_spec p 0 (fexp Float.prec Float.emax (Zpos (digits2_pos p) + 0)))
    as (mz & ez & -> & Hez0 & Hez & Hmz).
  assert (Hez' : (-149 <= ez)%Z).
  { pose proof (fexp_ge_emin (Zpos (digits2_pos p) + 0)). lia. }
  assert (HV : mag (Zpos mz) ez == inject_Z (Zpos p)).
  { rewrite Hmz. rewrite <- (mag_split (Zpos p) ez 0 Hez0). unfold mag.
    change (2 ^ 0) with 1. ring. }
  destruct (round_aux_relative s (Zpos mz) ez loc_Exact (Zpos mz) 1)
    as (m1 & Hm1 & Herr & He1 & Hres).
  - lia.
  - apply located_exact. lia.
  - right. split; [lia | exact Hez'].
  - cbn [Zdigits2] in *.
    set (e1 := Z.max (fexp Float.prec Float.emax (Zpos (digits2_pos mz) + ez)) ez) in *.
    assert (Hde : (Zpos (digits2_pos mz) + ez <= 32)%Z).
    { pose proof (mag_digits_ge mz ez) as Hge. rewrite HV in Hge.
      assert (H32 : 2 ^ (Zpos (digits2_pos mz) - 1 + ez) < 2 ^ 32).
      { eapply Qle_lt_trans; [exact Hge |].
        change (2 ^ 32) with (inject_Z (2 ^ 32)). rewrite <- Zlt_Qlt. exact Hp. }
      apply pow2_lt_inv in H32. lia. }
    assert (He8 : (e1 <= 8)%Z)
      by (subst e1; unfold fexp, emin, Float.prec, Float.emax; lia).
    destruct (pack_finite s m1 e1 Hm1 ltac:(lia)) as (m & e & Hpk & Hmag).
    exists m, e. rewrite Hres. split; [exact Hpk |].
    pose proof (relative_error_Q m1 (Zpos mz) 1 ez e1 ltac:(lia) ltac:(subst e1; lia) Herr)
      as HQ.
    change (inject_Z 1) with 1 in HQ. rewrite Qmult_1_r in HQ.
    rewrite HV in HQ. rewrite Hmag.
    split; [exact HQ |].
    assert (H1 : 1 <= inject_Z (Zpos p)).
    { change 1 with (inject_Z 1). rewrite <- Zle_Qle. lia. }
    apply Qabs_Qle_condition in HQ. destruct HQ as [HQ1 HQ2].
    split; [set (P := inject_Z (Zpos p)) in *; clearbody P; lra |].
    unfold mag. apply Qle_trans with (inject_Z (2 ^ 24) * 2 ^ 8); [| discriminate].
    apply Qle_trans with (inject_Z (2 ^ 24) * 2 ^ e1).
    + apply Qmult_le_compat_r; [rewrite <- Zle_Qle; lia |].
      apply Qlt_le_weak, pow2_pos.
    + apply Qmult_le_l; [reflexivity | apply pow2_le; lia].
Qed.


(** [(float) n / d] for a 32-bit [n] and a divisor between 1 and
    [2 ^ 31]: a finite float with the sign of [n], which times the divisor
    gives [n] to within one part in [2 ^ 22]. *)
Lemma div_of_Z_spec s p mk ek :
  (Zpos p < 2 ^ 32)%Z ->
  1 <= mag (Zpos mk) ek <= 2 ^ 31 ->
  exists m e,
    Float.div (Float.of_Z (cond_Zopp s (Zpos p))) (S754_finite false mk ek)
    = S754_finite s m e /\
    Qabs (mag (Zpos m) e * mag (Zpos mk) ek - inject_Z (Zpos p))
    <= inject_Z (Zpos p) * (1 # 4194304).
Proof.
  intros Hp HK.
  destruct (of_Z_32 s p Hp) as (mf & ef & -> & HF & HFr).
  destruct (div_spec s mf ef mk ek HFr HK) as (m1 & e1 & -> & Hm1 & He1 & HB).
  destruct (pack_finite s m1 e1 Hm1 He1) as (m & e & -> & Hmag).
  exists m, e. split; [reflexivity |]. rewrite Hmag.
  assert (H1 : 1 <= inject_Z (Zpos p)).
  { change 1 with (inject_Z 1). rewrite <- Zle_Qle. lia. }
  apply Qabs_Qle_condition in HF, HB. apply Qabs_Qle_condition.
  set (B := mag m1 e1) in *. set (K := mag (Zpos mk) ek) in *.
  set (F := mag (Zpos mf) ef) in *. set (P := inject_Z (Zpos p)) in *.
  clearbody B K F P. destruct HF, HB. split; lra.
Qed.

End Accuracy.

Section CalibrationAccuracy.

Variable hw : Platform.

Local Abbreviation axes_invert := (eeprom8 hw (AXIS_INVERSION hw) 0).
Local Abbreviation endstops_invert := (eeprom8 hw (ENDSTOP_INVERSION hw) 0).

Local Open Scope Q_scope.

Lemma to_Q_positive (x : float) (K : Q) :
  Float.to_Q x = Some K -> 0 < K ->
  exists m e, x = S754_finite false m e /\ K = mag (Zpos m) e.
Proof.
  destruct x as [sx | sx | | sx mx ex]; cbn [Float.to_Q]; intros HK Hpos;
    try discriminate; injection HK as <-.
  - exfalso. revert Hpos. apply Qlt_irrefl.
  - destruct sx; [| eexists _, _; split; reflexivity].
    exfalso. cbn [cond_Zopp] in Hpos.
    pose proof (pow2_pos ex) as Hp.
    change (Z.neg mx) with (- Zpos mx)%Z in Hpos. rewrite inject_Z_opp in Hpos.
    assert (H1 : 1 <= inject_Z (Zpos mx)).
    { change 1 with (inject_Z 1). rewrite <- Zle_Qle. lia. }
    set (a := inject_Z (Zpos mx)) in *. set (P := 2 ^ ex) in *. clearbody a P. nra.
Qed.

Lemma to_Q_finite s m e :
  exists b, Float.to_Q (S754_finite s m e) = Some b /\ b == signed_mag s (mag (Zpos m) e).
Proof.
  eexists. split; [reflexivity |]. unfold signed_mag, mag. destruct s; cbn [cond_Zopp].
  - change (Z.neg m) with (- Zpos m)%Z. rewrite inject_Z_opp. ring.
  - reflexivity.
Qed.

(** X17: [stepperAxisStepsToMM] is as accurate as floating point is: for
    [steps_per_mm] between 1 and [2 ^ 31] and every [int32_t] step count
    the distance returned is finite, and times [steps_per_mm] it gives
    the step count to within one part in [2 ^ 22]. *)
Theorem steps_to_mm_accuracy (s : State hw) (axis : nat) (a : StepperAxis hw)
        (steps : Z) (K : Q) :
  stepperAxis s !! axis = Some a ->
  Float.to_Q (steps_per_mm a) = Some K -> 1 <= K <= 2 ^ 31 ->
  Int.in_signed 32 steps = true ->
  exists back b,
    stepperAxisStepsToMM hw s steps axis = Some back /\
    Float.to_Q back = Some b /\
    Qabs (b * K - inject_Z steps) <= Qabs (inject_Z steps) * (1 # 4194304).
Proof.
  intros Ha HK HKr Hr.
  destruct (to_Q_positive _ K HK ltac:(lra)) as (mk & ek & Hspm & ->).
  unfold stepperAxisStepsToMM. rewrite Ha. cbn [mbind option_bind]. rewrite Hspm.
  apply in_signed32_bounds in Hr.
  destruct steps as [| p | p].
  - exists (S754_zero false), 0. split; [reflexivity |]. split; [reflexivity |].
    change (inject_Z 0) with 0.
    assert (E : 0 * mag (Z.pos mk) ek - 0 == 0) by ring.
    rewrite E. vm_compute. discriminate.
  - destruct (div_of_Z_spec false p mk ek ltac:(lia) HKr) as (m & e & Hd & Herr).
    cbn [cond_Zopp] in Hd. rewrite Hd.
    eexists _, _. split; [reflexivity |]. split; [reflexivity |].
    cbn [cond_Zopp]. rewrite (Qabs_pos (inject_Z (Z.pos p))); [exact Herr |].
    change 0 with (inject_Z 0). rewrite <- Zle_Qle. lia.
  - destruct (div_of_Z_spec true p mk ek ltac:(lia) HKr) as (m & e & Hd & Herr).
    change (cond_Zopp true (Z.pos p)) with (Z.neg p) in Hd. rewrite Hd.
    eexists _, _. split; [reflexivity |]. split; [reflexivity |].
    cbn [cond_Zopp]. change (Z.neg m) with (- Zpos m)%Z.
    change (Z.neg p) with (- Zpos p)%Z. rewrite !inject_Z_opp.
    rewrite Qabs_opp. rewrite (Qabs_pos (inject_Z (Z.pos p)));
      [| change 0 with (inject_Z 0); rewrite <- Zle_Qle; lia].
    apply Qabs_Qle_condition in Herr. apply Qabs_Qle_condition.
    set (Kq := mag (Z.pos mk) ek) in *.
    change (mag (Z.pos m) e) with (inject_Z (Z.pos m) * 2 ^ e) in Herr.
    set (B := inject_Z (Z.pos m) * 2 ^ e) in *.
    assert (E : - inject_Z (Z.pos m) * 2 ^ e * Kq == - (B * Kq)) by (subst B; ring).
    rewrite E. set (P := inject_Z (Z.pos p)) in *. clearbody B Kq P.
    destruct Herr. split; lra.
Qed.


Lemma loaded_spm_value ai ei i (a0 : StepperAxis hw) :
  let u := stored_steps_per_mm hw i in
  let spm := steps_per_mm (axis_update hw true ai ei i a0) in
  (0 <= u < 2 ^ 32)%Z /\
  ((u = 0%Z /\ spm = S754_zero false) \/
   (0 < u)%Z /\
   exists m e, spm = S754_finite false m e /\
               Qabs (mag (Zpos m) e * 1000000 - inject_Z u) <= inject_Z u * (1 # 4194304)).
Proof.
  cbv zeta. rewrite loaded_steps_per_mm.
  assert (Hu : (0 <= stored_steps_per_mm hw i < 2 ^ 32)%Z).
  { unfold stored_steps_per_mm, eeprom32, Int.uint32, Int.unsigned.
    apply Z.mod_pos_bound. lia. }
  split; [exact Hu |].
  destruct (stored_steps_per_mm hw i) as [| p | p]; [left; split; reflexivity | | lia].
  right. split; [lia |].
  change (Float.of_Z 1000000) with (S754_finite false 16000000 (-4)).
  destruct (div_of_Z_spec false p 16000000 (-4) ltac:(lia)) as (m & e & Hd & Herr).
  { split; discriminate. }
  exists m, e. split; [exact Hd |].
  assert (E : mag 16000000 (-4) == 1000000) by reflexivity.
  rewrite E in Herr. exact Herr.
Qed.

Lemma trunc_finite m e :
  exists n, Float.trunc (S754_finite false m e) = Some n /\ (0 <= n)%Z /\
            inject_Z n <= mag (Zpos m) e /\ mag (Zpos m) e < inject_Z n + 1.
Proof.
  exists (Z.shiftl (Zpos m) e). split; [reflexivity |].
  split; [apply Z.shiftl_nonneg; lia |]. apply shiftl_floor. lia.
Qed.

(** What a hard reset makes of the calibration word of axis [i]. *)
Lemma loaded_spm_range ai ei i (a0 : StepperAxis hw) :
  let u := stored_steps_per_mm hw i in
  let spm := steps_per_mm (axis_update hw true ai ei i a0) in
  exists q k,
    Float.to_Q spm = Some q /\
    Qabs (q * 1000000 - inject_Z u) <= inject_Z u * (1 # 4194304) /\
    Float.trunc spm = Some k /\ (0 <= k <= 4294)%Z /\
    ((u < 1000000)%Z -> k = 0%Z) /\
    to_int64 hw spm = k.
Proof.
  cbv zeta.
  destruct (loaded_spm_value ai ei i a0) as [Hu [[Hu0 Hz] | (Hpos & m & e & Hf & Herr)]].
  - rewrite Hz, Hu0. exists 0, 0%Z.
    split; [reflexivity |]. split; [vm_compute; discriminate |].
    split; [reflexivity |]. split; [lia |]. split; reflexivity.
  - rewrite Hf. destruct (trunc_finite m e) as (n & Hn & Hn0 & Hlo & Hhi).
    exists (mag (Zpos m) e), n.
    split; [reflexivity |]. split; [exact Herr |]. split; [exact Hn |].
    apply Qabs_Qle_condition in Herr.
    assert (Hu32 : inject_Z (stored_steps_per_mm hw i) <= 4294967295).
    { change 4294967295 with (inject_Z 4294967295). rewrite <- Zle_Qle. lia. }
    assert (H0 : 0 <= inject_Z (stored_steps_per_mm hw i)).
    { change 0 with (inject_Z 0). rewrite <- Zle_Qle. lia. }
    assert (Hk : (n <= 4294)%Z).
    { assert (Hlt : inject_Z n < inject_Z 4295).
      { change (inject_Z 4295) with 4295.
        set (M := mag (Z.pos m) e) in *. set (U := inject_Z (stored_steps_per_mm hw i)) in *.
        set (N := inject_Z n) in *. clearbody M U N. destruct Herr. lra. }
      rewrite <- Zlt_Qlt in Hlt. lia. }
    split; [lia |]. split.
    + intros Hsmall.
      assert (Hlt : inject_Z n < inject_Z 1).
      { change (inject_Z 1) with 1.
        assert (Hs : inject_Z (stored_steps_per_mm hw i) <= 999999).
        { change 999999 with (inject_Z 999999). rewrite <- Zle_Qle. lia. }
        set (M := mag (Z.pos m) e) in *. set (U := inject_Z (stored_steps_per_mm hw i)) in *.
        set (N := inject_Z n) in *. clearbody M U N. destruct Herr. lra. }
      rewrite <- Zlt_Qlt in Hlt. lia.
    + apply to_int_trunc; [exact Hn |].
      unfold Int.in_signed, Int.min_signed, Int.max_signed.
      rewrite andb_true_iff, !Z.leb_le. change (2 ^ (64 - 1))%Z with 9223372036854775808%Z. lia.
Qed.

(** X11: after a hard reset [stepperAxisStepsPerMM] returns a finite value
    that is not negative, the stored calibration word over 1000000 to
    within one part in [2 ^ 22]; its integer part, which is what the
    conversion to steps multiplies by, lies between 0 and 4294 and is 0
    for a word below 1000000; the conversion to [int64_t] is defined. *)
Theorem calibration_after_hard_reset (s : State hw) (i : nat) :
  length (stepperAxis s) = STEPPER_COUNT -> (i < STEPPER_COUNT)%nat ->
  let u := stored_steps_per_mm hw i in
  exists spm q k,
    stepperAxisStepsPerMM hw (stepperAxisInit hw true s) i = Some spm /\
    Float.to_Q spm = Some q /\ 0 <= q /\
    Qabs (q * 1000000 - inject_Z u) <= inject_Z u * (1 # 4194304) /\
    Float.trunc spm = Some k /\ (0 <= k <= 4294)%Z /\
    ((u < 1000000)%Z -> k = 0%Z) /\
    Float.cast_defined 64 spm = true.
Proof.
  intros Hlen Hi u.
  destruct (hard_axis_lookup hw s i Hlen Hi) as (a0 & _ & Ha').
  destruct (loaded_spm_range axes_invert endstops_invert i a0)
    as (q & k & Hq & Herr & Hk & Hkr & Hsmall & _).
  eexists _, q, k. split.
  { unfold stepperAxisStepsPerMM. rewrite Ha'. reflexivity. }
  split; [exact Hq |]. split.
  { apply Qabs_Qle_condition in Herr. fold u in Herr.
    assert (H0 : 0 <= inject_Z u).
    { change 0 with (inject_Z 0). rewrite <- Zle_Qle.
      apply (loaded_spm_value axes_invert endstops_invert i a0). }
    set (U := inject_Z u) in *. clearbody U. destruct Herr. lra. }
  split; [exact Herr |]. split; [exact Hk |]. split; [exact Hkr |].
  split; [exact Hsmall |].
  unfold Float.cast_defined. rewrite Hk.
  unfold Int.in_signed, Int.min_signed, Int.max_signed.
  rewrite andb_true_iff, !Z.leb_le. change (2 ^ (64 - 1))%Z with 9223372036854775808%Z. lia.
Qed.

End CalibrationAccuracy.

Section CalibrationEdges.

Variable hw : Platform.

Local Abbreviation axes_invert := (eeprom8 hw (AXIS_INVERSION hw) 0).
Local Abbreviation endstops_invert := (eeprom8 hw (ENDSTOP_INVERSION hw) 0).

(** X13: an axis calibrated below one step per mm converts every distance
    to no steps: after a hard reset with a calibration word below 1000000,
    [stepperAxisMMToSteps] returns 0 for every [mm] whose scaled value
    fits [int64_t]. *)
Theorem sub_unit_calibration_gives_no_steps (s : State hw) (i : nat) (mm : float) :
  length (stepperAxis s) = STEPPER_COUNT -> (i < STEPPER_COUNT)%nat ->
  stored_steps_per_mm hw i < 1000000 ->
  Float.cast_defined 64 (Float.mul mm (Float.of_Z 1000)) = true ->
  stepperAxisMMToSteps hw (stepperAxisInit hw true s) mm i = Some 0.
Proof.
  intros Hlen Hi Hsmall Hd.
  destruct (hard_axis_lookup hw s i Hlen Hi) as (a0 & _ & Ha').
  destruct (loaded_spm_range hw axes_invert endstops_invert i a0)
    as (q & k & _ & _ & Hk & _ & Hk0 & _).
  rewrite (Hk0 Hsmall) in Hk.
  destruct (to_int_defined (fix_overflow hw) 64 _ Hd) as (n & Hn & Hr & _).
  rewrite (mm_to_steps_in_range hw _ i _ mm n 0 Ha' Hn Hk Hr);
    rewrite ?Z.mul_0_r; reflexivity.
Qed.

(** X14: an axis whose calibration word is 0 has no distance for any step
    count: after a hard reset [stepperAxisStepsToMM] returns NaN for 0
    steps and the infinity of the sign of [steps] otherwise. *)
Theorem zero_calibration_gives_no_distance (s : State hw) (i : nat) (steps : Z) :
  length (stepperAxis s) = STEPPER_COUNT -> (i < STEPPER_COUNT)%nat ->
  stored_steps_per_mm hw i = 0 ->
  Int.in_signed 32 steps = true ->
  stepperAxisStepsToMM hw (stepperAxisInit hw true s) steps i
  = Some (if steps =? 0 then S754_nan else S754_infinity (steps <? 0)).
Proof.
  intros Hlen Hi Hzero Hr.
  destruct (hard_axis_lookup hw s i Hlen Hi) as (a0 & _ & Ha').
  unfold stepperAxisStepsToMM. rewrite Ha'. cbn [mbind option_bind].
  rewrite loaded_steps_per_mm, Hzero. change (Float.div (Float.of_Z 0) (Float.of_Z 1000000))
    with (S754_zero false).
  apply in_signed32_bounds in Hr. f_equal.
  destruct steps as [| p | p]; [reflexivity | |].
  - destruct (of_Z_32 false p ltac:(lia)) as (m & e & Hf & _).
    cbn [cond_Zopp] in Hf. rewrite Hf. reflexivity.
  - destruct (of_Z_32 true p ltac:(lia)) as (m & e & Hf & _).
    change (cond_Zopp true (Z.pos p)) with (Z.neg p) in Hf. rewrite Hf. reflexivity.
Qed.

Lemma loads_whole_upto_1074 : forallb loads_whole (map Z.of_nat (seq 1 1074)) = true.
Proof. vm_compute. reflexivity. Qed.

(** X12: a whole number of steps per mm from 1 to 1074, stored as
    [k * 1000000], is loaded exactly: after a hard reset
    [stepperAxisStepsPerMM] returns the float of [k], whose value and
    integer part are [k].  Above, it need not be: the word 1077000000
    loads as a value below 1077, whose integer part is 1076. *)
Theorem whole_calibration_loads_exactly (s : State hw) (i : nat) :
  length (stepperAxis s) = STEPPER_COUNT -> (i < STEPPER_COUNT)%nat ->
  (forall k, 1 <= k <= 1074 -> stored_steps_per_mm hw i = k * 1000000 ->
     exists q,
       stepperAxisStepsPerMM hw (stepperAxisInit hw true s) i = Some (Float.of_Z k) /\
       Float.to_Q (Float.of_Z k) = Some q /\ (q == inject_Z k)%Q /\
       Float.trunc (Float.of_Z k) = Some k) /\
  (stored_steps_per_mm hw i = 1077000000 ->
     exists spm,
       stepperAxisStepsPerMM hw (stepperAxisInit hw true s) i = Some spm /\
       Float.trunc spm = Some 1076).
Proof.
  intros Hlen Hi.
  destruct (hard_axis_lookup hw s i Hlen Hi) as (a0 & _ & Ha').
  unfold stepperAxisStepsPerMM. rewrite Ha'. cbn [mbind option_bind].
  rewrite loaded_steps_per_mm. split.
  - intros k Hk Hst. rewrite Hst.
    pose proof loads_whole_upto_1074 as Hall.
    rewrite forallb_forall in Hall. specialize (Hall k).
    assert (Hin : In k (map Z.of_nat (seq 1 1074))).
    { apply in_map_iff. exists (Z.to_nat k). split; [lia |]. apply in_seq. lia. }
    apply Hall in Hin. unfold loads_whole in Hin.
    apply andb_true_iff in Hin as [Hsame Hrest].
    destruct (Float.trunc (Float.of_Z k)) as [t |]; [| discriminate].
    destruct (Float.to_Q (Float.of_Z k)) as [q |]; [| discriminate].
    apply andb_true_iff in Hrest as [Ht Hq].
    apply Z.eqb_eq in Ht. apply Qeq_bool_iff in Hq. subst t.
    exists q. split; [| split; [reflexivity | split; [exact Hq | reflexivity]]].
    f_equal. unfold same_finite in Hsame.
    destruct (Float.div (Float.of_Z (k * 1000000)) (Float.of_Z 1000000))
      as [| | | s1 m1 e1]; try discriminate.
    destruct (Float.of_Z k) as [| | | s2 m2 e2]; try discriminate.
    apply andb_true_iff in Hsame as [Hsame He]. apply andb_true_iff in Hsame as [Hs Hm].
    apply Bool.eqb_prop in Hs. apply Pos.eqb_eq in Hm. apply Z.eqb_eq in He.
    congruence.
  - intros ->. eexists. split; [reflexivity |]. vm_compute. reflexivity.
Qed.

End CalibrationEdges.

(** ** Order: a longer distance never gives fewer steps *)

Section Monotone.

Local Open Scope Q_scope.

(** [mm * 1000.0], with the exponent the product is rounded at: the
    result is within half a unit of that exponent of the exact product. *)
Lemma mul_1000_round mx ex :
  mag (Zpos mx) ex <= 2 ^ 30 ->
  exists m1 e1 L,
    Float.mul (S754_finite false mx ex) (Float.of_Z 1000) = pack false m1 e1 /\
    (0 <= m1 <= 2 ^ 24)%Z /\ (e1 < 104)%Z /\
    e1 = Z.max (L - 24) (-149) /\
    2 ^ (L - 1) <= 1000 * mag (Zpos mx) ex /\ 1000 * mag (Zpos mx) ex < 2 ^ L /\
    Qabs (mag m1 e1 - 1000 * mag (Zpos mx) ex) * 2 <= 2 ^ e1.
Proof.
  intros Hx.
  change (Float.of_Z 1000) with (S754_finite false 16384000 (-14)).
  cbn [Float.mul SFmul xorb].
  set (m := Zpos (mx * 16384000)). set (e := (ex + -14)%Z).
  assert (HV : mag m e == 1000 * mag (Zpos mx) ex).
  { unfold mag, m, e. rewrite Pos2Z.inj_mul, inject_Z_mult, pow2_add.
    assert (H14 : inject_Z 16384000 * 2 ^ (-14) == 1000) by reflexivity.
    rewrite <- H14. ring. }
  pose proof (mag_digits_ge (mx * 16384000) e) as Hge.
  pose proof (mag_digits_lt (mx * 16384000) e) as Hlt.
  fold m in Hge, Hlt.
  pose proof (digits2_bounds (mx * 16384000)) as [_ Hd].
  set (d := Zpos (digits2_pos (mx * 16384000))) in *.
  assert (Hd24 : (24 <= d)%Z).
  { assert (H23 : (2 ^ 23 < 2 ^ d)%Z) by (rewrite Pos2Z.inj_mul in Hd; lia).
    apply Z.pow_lt_mono_r_iff in H23; lia. }
  assert (Hde : (d + e <= 41)%Z).
  { assert (H40 : 2 ^ (d - 1 + e) < 2 ^ 41).
    { eapply Qle_lt_trans; [exact Hge |]. rewrite HV.
      assert (2 ^ 30 == 1073741824) by reflexivity.
      assert (2 ^ 41 == 2199023255552) by reflexivity. lra. }
    apply pow2_lt_inv in H40. lia. }
  destruct (round_aux_spec false m e loc_Exact m 1) as (m1 & Hm1 & Herr & Hres).
  { subst m. lia. }
  { apply located_exact. subst m. lia. }
  change (Zdigits2 m) with d in *.
  set (e1 := Z.max (fexp Float.prec Float.emax (d + e)) e) in *.
  assert (He1 : e1 = Z.max (d + e - 24) (-149))
    by (subst e1; unfold fexp, emin, Float.prec, Float.emax; lia).
  assert (Hee : (e <= e1)%Z) by (subst e1; lia).
  exists m1, e1, (d + e)%Z.
  split; [exact Hres |]. split; [exact Hm1 |]. split; [lia |]. split; [exact He1 |].
  rewrite <- HV. replace (d + e - 1)%Z with (d - 1 + e)%Z by lia.
  split; [exact Hge |]. split; [exact Hlt |].
  rewrite Z.mul_1_l in Herr.
  set (T := (2 ^ (e1 - e))%Z) in *.
  assert (HT : 2 ^ e1 == inject_Z T * 2 ^ e) by (apply pow2_split; exact Hee).
  unfold mag. rewrite HT.
  pose proof (pow2_pos e) as HP. set (P := 2 ^ e) in *.
  assert (Ha : inject_Z (2 * (m1 * T - m)) == 2 * (inject_Z m1 * inject_Z T - inject_Z m)).
  { unfold Z.sub. rewrite inject_Z_mult, inject_Z_plus, inject_Z_opp, inject_Z_mult.
    reflexivity. }
  assert (H1 : - inject_Z T <= 2 * (inject_Z m1 * inject_Z T - inject_Z m)).
  { rewrite <- Ha, <- inject_Z_opp, <- Zle_Qle. lia. }
  assert (H2 : 2 * (inject_Z m1 * inject_Z T - inject_Z m) <= inject_Z T).
  { rewrite <- Ha, <- Zle_Qle. lia. }
  clear Ha.
  assert (Hgoal : Qabs (inject_Z m1 * (inject_Z T * P) - inject_Z m * P) * 2
                  == Qabs ((2 * (inject_Z m1 * inject_Z T - inject_Z m)) * P)).
  { rewrite <- (Qabs_pos 2) at 1 by discriminate. rewrite <- Qabs_Qmult.
    apply Qabs_wd. ring. }
  rewrite Hgoal. apply Qabs_Qle_condition.
  set (a := 2 * (inject_Z m1 * inject_Z T - inject_Z m)) in *.
  set (t := inject_Z T) in *. clearbody a t P. split; nra.
Qed.


(** Rounding to nearest keeps the order of two values that differ. *)
Lemma round_monotone (V V' : Q) (m1 e1 L m1' e1' L' : Z) :
  (0 <= m1 <= 2 ^ 24)%Z -> (0 <= m1' <= 2 ^ 24)%Z ->
  e1 = Z.max (L - 24) (-149) -> e1' = Z.max (L' - 24) (-149) ->
  2 ^ (L - 1) <= V -> V < 2 ^ L -> 2 ^ (L' - 1) <= V' -> V' < 2 ^ L' ->
  Qabs (mag m1 e1 - V) * 2 <= 2 ^ e1 ->
  Qabs (mag m1' e1' - V') * 2 <= 2 ^ e1' ->
  V < V' ->
  mag m1 e1 <= mag m1' e1'.
Proof.
  intros Hm1 Hm1' He1 He1' HL1 HL2 HL1' HL2' HR HR' HVV.
  assert (HLL : (L <= L')%Z).
  { assert (H : 2 ^ (L - 1) < 2 ^ L') by lra. apply pow2_lt_inv in H. lia. }
  pose proof (pow2_pos e1) as HP. pose proof (pow2_pos e1') as HP'.
  assert (HRa : - 2 ^ e1 <= (mag m1 e1 - V) * 2 <= 2 ^ e1).
  { apply Qabs_Qle_condition. rewrite Qabs_Qmult. exact HR. }
  assert (HRa' : - 2 ^ e1' <= (mag m1' e1' - V') * 2 <= 2 ^ e1').
  { apply Qabs_Qle_condition. rewrite Qabs_Qmult. exact HR'. }
  clear HR HR'. unfold mag in *.
  destruct (Z.eq_dec e1 e1') as [Heq | Hne].
  - rewrite <- Heq in *. clear Heq.
    assert (Hm : inject_Z m1 < inject_Z m1' + 1).
    { set (a := inject_Z m1) in *. set (b := inject_Z m1') in *.
      set (P := 2 ^ e1) in *. clearbody a b P. destruct HRa, HRa'. nra. }
    change 1 with (inject_Z 1) in Hm. rewrite <- inject_Z_plus, <- Zlt_Qlt in Hm.
    apply Qmult_le_compat_r; [rewrite <- Zle_Qle; lia | lra].
  - assert (Hlt : (e1 + 1 <= e1')%Z) by lia.
    assert (He1'v : e1' = (L' - 24)%Z) by lia.
    assert (H2P : 2 * 2 ^ e1 <= 2 ^ e1').
    { apply Qle_trans with (2 ^ (e1 + 1)); [| apply pow2_le; exact Hlt].
      rewrite pow2_add. lra. }
    assert (HLP : 2 ^ (L' - 1) == 8388608 * 2 ^ e1').
    { replace (L' - 1)%Z with (23 + e1')%Z by lia. rewrite pow2_add. reflexivity. }
    rewrite HLP in HL1'.
    assert (Hm1q : inject_Z m1 <= 16777216).
    { change 16777216 with (inject_Z (2 ^ 24)). rewrite <- Zle_Qle. lia. }
    assert (Hm1'q : inject_Z 8388607 < inject_Z m1').
    { change (inject_Z 8388607) with 8388607.
      set (b := inject_Z m1') in *. set (P' := 2 ^ e1') in *.
      clearbody b P'. destruct HRa'. nra. }
    rewrite <- Zlt_Qlt in Hm1'q.
    assert (Hm1'q2 : 8388608 <= inject_Z m1').
    { change 8388608 with (inject_Z 8388608). rewrite <- Zle_Qle. lia. }
    assert (H0 : 0 <= inject_Z m1).
    { change 0 with (inject_Z 0). rewrite <- Zle_Qle. lia. }
    set (a := inject_Z m1) in *. set (b := inject_Z m1') in *.
    set (P := 2 ^ e1) in *. set (P' := 2 ^ e1') in *. clearbody a b P P'.
    clear - H2P Hm1q Hm1'q2 HP HP' H0. nra.
Qed.

(** The integer part of [mm * 1000.0] for a distance that is not
    negative. *)
Lemma scaled_trunc mx ex :
  mag (Zpos mx) ex <= 2 ^ 30 ->
  exists n,
    Float.trunc (Float.mul (S754_finite false mx ex) (Float.of_Z 1000)) = Some n /\
    (0 <= n)%Z /\
    inject_Z n <= 1000 * mag (Zpos mx) ex * (16777217 # 16777216) /\
    1000 * mag (Zpos mx) ex * (16777215 # 16777216) < inject_Z n + 1.
Proof.
  intros HX.
  destruct (mul_1000_spec false mx ex HX) as (m1 & e1 & Hmul & Hm1 & He1 & HU).
  destruct (trunc_pack false m1 e1 Hm1 He1) as (n & Htr & Hn0 & Hn1 & Hn2).
  rewrite <- Hmul in Htr. exists n. split; [exact Htr |]. split; [exact Hn0 |].
  assert (HX0 : 0 <= mag (Zpos mx) ex) by (apply mag_nonneg; lia).
  assert (Hnq : 0 <= inject_Z n).
  { change 0 with (inject_Z 0). rewrite <- Zle_Qle. exact Hn0. }
  set (X := mag (Zpos mx) ex) in *. set (U := mag m1 e1) in *.
  destruct HU as [HU | [HU1 HU2]].
  - apply Qabs_Qle_condition in HU. clearbody X U. destruct HU. split; lra.
  - assert (Hlt : inject_Z n < inject_Z 1) by (change (inject_Z 1) with 1; lra).
    rewrite <- Zlt_Qlt in Hlt. replace n with 0%Z by lia.
    change (inject_Z 0) with 0. clearbody X. split; lra.
Qed.

Lemma scaled_trunc_mono mx ex my ey nx ny :
  mag (Zpos mx) ex < mag (Zpos my) ey -> mag (Zpos my) ey <= 2 ^ 30 ->
  Float.trunc (Float.mul (S754_finite false mx ex) (Float.of_Z 1000)) = Some nx ->
  Float.trunc (Float.mul (S754_finite false my ey) (Float.of_Z 1000)) = Some ny ->
  (nx <= ny)%Z.
Proof.
  intros Hlt HY Hnx Hny.
  assert (HX : mag (Zpos mx) ex <= 2 ^ 30) by lra.
  destruct (mul_1000_round mx ex HX)
    as (m1 & e1 & L & Hmul & Hm1 & He1 & He1v & HL1 & HL2 & HR).
  destruct (mul_1000_round my ey HY)
    as (m1' & e1' & L' & Hmul' & Hm1' & He1' & He1v' & HL1' & HL2' & HR').
  assert (Hle : mag m1 e1 <= mag m1' e1').
  { apply (round_monotone (1000 * mag (Zpos mx) ex) (1000 * mag (Zpos my) ey)
             m1 e1 L m1' e1' L'); try assumption. lra. }
  destruct (trunc_pack false m1 e1 Hm1 He1) as (n & Htr & _ & Hn1 & _).
  destruct (trunc_pack false m1' e1' Hm1' He1') as (n' & Htr' & _ & _ & Hn2').
  rewrite <- Hmul, Hnx in Htr. rewrite <- Hmul', Hny in Htr'.
  cbn [cond_Zopp] in Htr, Htr'. injection Htr as ->. injection Htr' as ->.
  assert (H : inject_Z n < inject_Z (n' + 1)).
  { rewrite inject_Z_plus. change (inject_Z 1) with 1. lra. }
  rewrite <- Zlt_Qlt in H. lia.
Qed.

End Monotone.

(** ** The product [mm * 1000.0] depends on the value of [mm] only *)

Section SameValue.

Lemma located_unique r r' N D : located r N D -> located r' N D -> r = r'.
Proof.
  destruct r as [m r s], r' as [m' r' s']. unfold located.
  cbn [shr_m shr_r shr_s]. intros (Hm & HD & Hrem & Hr & Hs) (Hm' & _ & Hrem' & Hr' & Hs').
  assert (m = m') by nia. subst m'.
  assert (r = r') by (destruct r, r'; try reflexivity; lia). subst r'.
  assert (s = s') by (destruct s, s'; try reflexivity; lia). subst s'.
  reflexivity.
Qed.

Lemma located_scale r N D c : 0 < c -> located r N D -> located r (N * c) (D * c).
Proof.
  unfold located. intros Hc (Hm & HD & Hrem & Hr & Hs).
  replace (N * c - shr_m r * (D * c)) with ((N - shr_m r * D) * c) by ring.
  set (rem := N - shr_m r * D) in *.
  split; [exact Hm |]. split; [nia |]. split; [nia |]. split.
  - destruct (shr_r r); nia.
  - destruct (shr_s r); [split; nia |]. destruct Hs as [Hs | Hs]; [left | right]; nia.
Qed.

Local Open Scope Q_scope.

Lemma mul_1000_same_value s mx ex my ey :
  mag (Zpos mx) ex == mag (Zpos my) ey ->
  Float.mul (S754_finite s mx ex) (Float.of_Z 1000)
  = Float.mul (S754_finite s my ey) (Float.of_Z 1000).
Proof.
  assert (Hwlog : forall mx ex my ey,
             (ex <= ey)%Z -> mag (Zpos mx) ex == mag (Zpos my) ey ->
             Float.mul (S754_finite s mx ex) (Float.of_Z 1000)
             = Float.mul (S754_finite s my ey) (Float.of_Z 1000)).
  { clear mx ex my ey. intros mx ex my ey Hee Hv.
    change (Float.of_Z 1000) with (S754_finite false 16384000 (-14)).
    cbn [Float.mul SFmul]. rewrite xorb_false_r.
    set (m := Zpos (mx * 16384000)). set (e := (ex + -14)%Z).
    set (m' := Zpos (my * 16384000)). set (e' := (ey + -14)%Z).
    set (c := (2 ^ (ey - ex))%Z).
    assert (Hc : (0 < c)%Z) by (apply Z.pow_pos_nonneg; lia).
    assert (Hmm : m = (m' * c)%Z).
    { assert (Hx : Zpos mx = (Zpos my * c)%Z).
      { rewrite (mag_split (Zpos my) ex ey Hee) in Hv. fold c in Hv. unfold mag in Hv.
        pose proof (pow2_pos ex) as HP.
        assert (Hq : inject_Z (Zpos mx) == inject_Z (Zpos my * c)).
        { set (a := inject_Z (Zpos mx)) in *. set (b := inject_Z (Zpos my * c)) in *.
          set (P := 2 ^ ex) in *. clearbody a b P. nra. }
        exact (proj1 (inject_Z_injective _ _) Hq). }
      subst m m'. rewrite !Pos2Z.inj_mul, Hx. ring. }
    assert (Hd : forall p, (24 <= Zpos (digits2_pos (p * 16384000)))%Z).
    { intros p. pose proof (digits2_bounds (p * 16384000)) as [_ Hd].
      assert (H23 : (2 ^ 23 < 2 ^ Zpos (digits2_pos (p * 16384000)))%Z)
        by (rewrite Pos2Z.inj_mul in Hd; lia).
      apply Z.pow_lt_mono_r_iff in H23; lia. }
    assert (HL : (Zdigits2 m + e = Zdigits2 m' + e')%Z).
    { assert (HV : mag m e == mag m' e').
      { rewrite (mag_split m' e e') by (subst e e'; lia).
        replace (e' - e)%Z with (ey - ex)%Z by (subst e e'; lia). fold c.
        rewrite Hmm. reflexivity. }
      pose proof (mag_digits_ge (mx * 16384000) e) as H1.
      pose proof (mag_digits_lt (mx * 16384000) e) as H2.
      pose proof (mag_digits_ge (my * 16384000) e') as H3.
      pose proof (mag_digits_lt (my * 16384000) e') as H4.
      fold m in H1, H2. fold m' in H3, H4. rewrite HV in H1, H2.
      assert (Ha : 2 ^ (Z.pos (digits2_pos (mx * 16384000)) - 1 + e)
                   < 2 ^ (Z.pos (digits2_pos (my * 16384000)) + e')) by lra.
      assert (Hb : 2 ^ (Z.pos (digits2_pos (my * 16384000)) - 1 + e')
                   < 2 ^ (Z.pos (digits2_pos (mx * 16384000)) + e)) by lra.
      apply pow2_lt_inv in Ha, Hb. subst m m'. cbn [Zdigits2]. lia. }
    destruct (shr_fexp_located m e loc_Exact m 1 ltac:(subst m; lia)
                (located_exact m ltac:(subst m; lia))) as (r1 & Hshr & Hloc).
    destruct (shr_fexp_located m' e' loc_Exact m' 1 ltac:(subst m'; lia)
                (located_exact m' ltac:(subst m'; lia))) as (r1' & Hshr' & Hloc').
    cbv zeta in Hshr, Hshr', Hloc, Hloc'.
    pose proof (Hd mx) as Hdx. pose proof (Hd my) as Hdy.
    change (Zpos (digits2_pos (mx * 16384000))) with (Zdigits2 m) in Hdx.
    change (Zpos (digits2_pos (my * 16384000))) with (Zdigits2 m') in Hdy.
    set (e1 := Z.max (fexp Float.prec Float.emax (Zdigits2 m + e)) e) in *.
    set (e1' := Z.max (fexp Float.prec Float.emax (Zdigits2 m' + e')) e') in *.
    assert (He1 : e1 = e1' /\ (e' <= e1')%Z /\ (e <= e')%Z).
    { subst e1 e1'. rewrite <- HL. unfold fexp, emin, Float.prec, Float.emax.
      subst e e'. lia. }
    destruct He1 as (He1 & Hee1 & Hee').
    rewrite Z.mul_1_l in Hloc, Hloc'.
    apply (located_scale _ _ _ c Hc) in Hloc'.
    rewrite <- Hmm in Hloc'.
    assert (Hpow : (2 ^ (e1' - e') * c = 2 ^ (e1 - e))%Z).
    { subst c. rewrite <- Z.pow_add_r by lia. f_equal. subst e e'. lia. }
    rewrite Hpow in Hloc'.
    pose proof (located_unique _ _ _ _ Hloc Hloc') as Hr. subst r1'.
    unfold binary_round_aux. rewrite Hshr, Hshr', He1. reflexivity. }
  intros Hv. destruct (Z_le_gt_dec ex ey) as [Hle | Hgt].
  - apply Hwlog; assumption.
  - symmetry. apply Hwlog; [lia | symmetry; exact Hv].
Qed.

End SameValue.

Section MonotoneSteps.

Variable hw : Platform.

Local Open Scope Q_scope.

(** The steps of a finite distance of sign [sx] and magnitude [X], from
    the integer part [n] of [X * 1000.0]. *)
Lemma mm_to_steps_finite (s : State hw) (axis : nat) (a : StepperAxis hw) sx mx ex k :
  stepperAxis s !! axis = Some a ->
  Float.trunc (steps_per_mm a) = Some k -> (1 <= k <= 2 ^ 31)%Z ->
  mag (Zpos mx) ex * inject_Z k <= 2 ^ 30 ->
  exists n,
    Float.trunc (Float.mul (S754_finite false mx ex) (Float.of_Z 1000)) = Some n /\
    (0 <= n)%Z /\
    stepperAxisMMToSteps hw s (S754_finite sx mx ex) axis
    = Some (cond_Zopp sx (n * k / 1000)).
Proof.
  intros Ha Hk Hkr HXk.
  set (X := mag (Zpos mx) ex) in *.
  assert (HX0 : 0 <= X) by (apply mag_nonneg; lia).
  assert (Hkq : 1 <= inject_Z k <= 2147483648).
  { change 1 with (inject_Z 1). change 2147483648 with (inject_Z (2 ^ 31)).
    rewrite <- !Zle_Qle. exact Hkr. }
  assert (H30 : 2 ^ 30 == 1073741824) by reflexivity.
  rewrite H30 in HXk.
  assert (HX : X <= 2 ^ 30) by (rewrite H30; nra).
  destruct (scaled_trunc mx ex HX) as (n & Hn & Hn0 & Hnb & _). fold X in Hnb.
  exists n. split; [exact Hn |]. split; [exact Hn0 |].
  assert (Hnq : 0 <= inject_Z n) by (change 0 with (inject_Z 0); rewrite <- Zle_Qle; exact Hn0).
  assert (Hnk : inject_Z (n * k) <= 1073741888000).
  { rewrite inject_Z_mult.
    set (nq := inject_Z n) in *. set (kq := inject_Z k) in *. clearbody nq kq X. nra. }
  change 1073741888000 with (inject_Z 1073741888000) in Hnk. rewrite <- Zle_Qle in Hnk.
  assert (HS : (0 <= n * k / 1000 <= 1073741888)%Z).
  { split; [apply Z.div_pos; nia |]. apply Z.div_le_upper_bound; lia. }
  assert (Htr : Float.trunc (Float.mul (S754_finite sx mx ex) (Float.of_Z 1000))
                = Some (cond_Zopp sx n)).
  { destruct sx; [| exact Hn].
    change (S754_finite true mx ex) with (opp (S754_finite false mx ex)).
    rewrite mul_opp_l. apply trunc_opp, Hn. }
  replace (cond_Zopp sx (n * k / 1000)) with (Z.quot (cond_Zopp sx n * k) 1000)
    by (apply quot_cond_Zopp; lia).
  apply (mm_to_steps_in_range hw s axis a _ (cond_Zopp sx n) k Ha Htr Hk).
  - apply in_signed_cond_Zopp; [lia |].
    change (2 ^ (64 - 1))%Z with 9223372036854775808%Z. nia.
  - apply (in_signed_cond_Zopp 64 false k); [lia |].
    change (2 ^ (64 - 1))%Z with 9223372036854775808%Z. lia.
  - replace (cond_Zopp sx n * k)%Z with (cond_Zopp sx (n * k))
      by (destruct sx; cbn [cond_Zopp]; lia).
    apply in_signed_cond_Zopp; [lia |].
    change (2 ^ (64 - 1))%Z with 9223372036854775808%Z. nia.
  - rewrite (quot_cond_Zopp sx n k) by lia.
    apply in_signed_cond_Zopp; [lia |].
    change (2 ^ (32 - 1))%Z with 2147483648%Z. lia.
Qed.

Lemma mm_to_steps_of_zero (s : State hw) (axis : nat) (a : StepperAxis hw) sx k :
  stepperAxis s !! axis = Some a ->
  Float.trunc (steps_per_mm a) = Some k -> (1 <= k <= 2 ^ 31)%Z ->
  stepperAxisMMToSteps hw s (S754_zero sx) axis = Some 0%Z.
Proof.
  intros Ha Hk Hkr.
  rewrite (mm_to_steps_in_range hw s axis a (S754_zero sx) 0 k Ha); try reflexivity.
  - exact Hk.
  - apply (in_signed_cond_Zopp 64 false k); [lia |].
    change (2 ^ (64 - 1))%Z with 9223372036854775808%Z. lia.
Qed.

Lemma to_Q_signed s m e :
  Float.to_Q (S754_finite s m e) = Some (inject_Z (cond_Zopp s (Zpos m)) * 2 ^ e) /\
  inject_Z (cond_Zopp s (Zpos m)) * 2 ^ e == signed_mag s (mag (Zpos m) e) /\
  Qabs (inject_Z (cond_Zopp s (Zpos m)) * 2 ^ e) == mag (Zpos m) e /\
  0 < mag (Zpos m) e.
Proof.
  split; [reflexivity |].
  assert (Hpos : 0 < mag (Zpos m) e).
  { unfold mag. pose proof (pow2_pos e).
    assert (1 <= inject_Z (Zpos m)) by (change 1 with (inject_Z 1); rewrite <- Zle_Qle; lia).
    set (a := inject_Z (Zpos m)) in *. set (P := 2 ^ e) in *. clearbody a P. nra. }
  assert (Hs : inject_Z (cond_Zopp s (Zpos m)) * 2 ^ e == signed_mag s (mag (Zpos m) e)).
  { unfold signed_mag, mag. destruct s; cbn [cond_Zopp]; [| reflexivity].
    change (Z.neg m) with (- Zpos m)%Z. rewrite inject_Z_opp. ring. }
  split; [exact Hs |]. split; [| exact Hpos].
  rewrite Hs. unfold signed_mag. destruct s; [rewrite Qabs_opp |]; apply Qabs_pos; lra.
Qed.

Lemma mm_to_steps_strict_order (s : State hw) (axis : nat) (a : StepperAxis hw)
        (k : Z) (x y : float) (vx vy : Q) :
  stepperAxis s !! axis = Some a ->
  Float.trunc (steps_per_mm a) = Some k -> (1 <= k <= 2 ^ 31)%Z ->
  Float.to_Q x = Some vx -> Float.to_Q y = Some vy ->
  Qabs vx * inject_Z k <= 2 ^ 30 -> Qabs vy * inject_Z k <= 2 ^ 30 ->
  vx < vy ->
  exists rx ry,
    stepperAxisMMToSteps hw s x axis = Some rx /\
    stepperAxisMMToSteps hw s y axis = Some ry /\
    (rx <= ry)%Z.
Proof.
  intros Ha Hk Hkr Hx Hy Rx Ry Hlt.
  assert (Hkq : 1 <= inject_Z k).
  { change 1 with (inject_Z 1). rewrite <- Zle_Qle. lia. }
  assert (Hdiv : forall n n', (0 <= n <= n')%Z -> (n * k / 1000 <= n' * k / 1000)%Z).
  { intros n n' Hn. apply Z.div_le_mono; [lia | nia]. }
  assert (Hdiv0 : forall n, (0 <= n)%Z -> (0 <= n * k / 1000)%Z).
  { intros n Hn. apply Z.div_pos; nia. }
  destruct x as [sx | sx | | sx mx ex]; cbn [Float.to_Q] in Hx; try discriminate;
    destruct y as [sy | sy | | sy my ey]; cbn [Float.to_Q] in Hy; try discriminate;
    injection Hx as <-; injection Hy as <-.
  - exfalso. revert Hlt. apply Qlt_irrefl.
  - destruct (to_Q_signed sy my ey) as (_ & Hvs & Hva & Hpos).
    rewrite Hva in Ry. rewrite Hvs in Hlt.
    destruct (mm_to_steps_finite s axis a sy my ey k Ha Hk Hkr Ry) as (n & _ & Hn0 & Hs).
    exists 0%Z, (cond_Zopp sy (n * k / 1000)).
    split; [apply (mm_to_steps_of_zero s axis a sx k Ha Hk Hkr) |]. split; [exact Hs |].
    destruct sy; cbn [signed_mag cond_Zopp] in *; [lra | apply Hdiv0, Hn0].
  - destruct (to_Q_signed sx mx ex) as (_ & Hvs & Hva & Hpos).
    rewrite Hva in Rx. rewrite Hvs in Hlt.
    destruct (mm_to_steps_finite s axis a sx mx ex k Ha Hk Hkr Rx) as (n & _ & Hn0 & Hs).
    exists (cond_Zopp sx (n * k / 1000)), 0%Z.
    split; [exact Hs |]. split; [apply (mm_to_steps_of_zero s axis a sy k Ha Hk Hkr) |].
    destruct sx; cbn [signed_mag cond_Zopp] in *; [| lra].
    pose proof (Hdiv0 n Hn0). lia.
  - destruct (to_Q_signed sx mx ex) as (_ & Hxs & Hxa & Hxpos).
    destruct (to_Q_signed sy my ey) as (_ & Hys & Hya & Hypos).
    rewrite Hxa in Rx. rewrite Hya in Ry. rewrite Hxs, Hys in Hlt.
    destruct (mm_to_steps_finite s axis a sx mx ex k Ha Hk Hkr Rx) as (nx & Hnx & Hnx0 & Hsx).
    destruct (mm_to_steps_finite s axis a sy my ey k Ha Hk Hkr Ry) as (ny & Hny & Hny0 & Hsy).
    exists (cond_Zopp sx (nx * k / 1000)), (cond_Zopp sy (ny * k / 1000)).
    split; [exact Hsx |]. split; [exact Hsy |].
    assert (HX30 : mag (Zpos mx) ex <= 2 ^ 30).
    { set (X := mag (Zpos mx) ex) in *. set (kq := inject_Z k) in *.
      assert (H30 : 2 ^ 30 == 1073741824) by reflexivity. rewrite H30 in *.
      clearbody X kq. nra. }
    assert (HY30 : mag (Zpos my) ey <= 2 ^ 30).
    { set (Y := mag (Zpos my) ey) in *. set (kq := inject_Z k) in *.
      assert (H30 : 2 ^ 30 == 1073741824) by reflexivity. rewrite H30 in *.
      clearbody Y kq. nra. }
    pose proof (Hdiv0 nx Hnx0). pose proof (Hdiv0 ny Hny0).
    destruct sx, sy; cbn [signed_mag cond_Zopp] in *.
    + assert (Hm : mag (Zpos my) ey < mag (Zpos mx) ex) by lra.
      pose proof (scaled_trunc_mono my ey mx ex ny nx Hm HX30 Hny Hnx) as Hle.
      pose proof (Hdiv ny nx ltac:(lia)). lia.
    + lia.
    + lra.
    + pose proof (scaled_trunc_mono mx ex my ey nx ny Hlt HY30 Hnx Hny) as Hle.
      apply Hdiv. lia.
Qed.

(** X18: [stepperAxisMMToSteps] keeps the order: for a [steps_per_mm] whose
    integer part is between 1 and [2 ^ 31] and two finite distances no
    further from zero than [2 ^ 30] steps, the greater distance never
    gives the smaller step count. *)
Theorem mm_to_steps_monotone (s : State hw) (axis : nat) (a : StepperAxis hw)
        (k : Z) (x y : float) (vx vy : Q) :
  stepperAxis s !! axis = Some a ->
  Float.trunc (steps_per_mm a) = Some k -> (1 <= k <= 2 ^ 31)%Z ->
  Float.to_Q x = Some vx -> Float.to_Q y = Some vy ->
  Qabs vx * inject_Z k <= 2 ^ 30 -> Qabs vy * inject_Z k <= 2 ^ 30 ->
  vx <= vy ->
  exists rx ry,
    stepperAxisMMToSteps hw s x axis = Some rx /\
    stepperAxisMMToSteps hw s y axis = Some ry /\
    (rx <= ry)%Z.
Proof.
  intros Ha Hk Hkr Hx Hy Rx Ry Hle.
  destruct (Qle_lt_or_eq _ _ Hle) as [Hlt | Heq].
  { apply (mm_to_steps_strict_order s axis a k x y vx vy); assumption. }
  assert (Hsame : exists r, stepperAxisMMToSteps hw s x axis = Some r /\
                            stepperAxisMMToSteps hw s y axis = Some r).
  { destruct x as [sx | sx | | sx mx ex]; cbn [Float.to_Q] in Hx; try discriminate;
      destruct y as [sy | sy | | sy my ey]; cbn [Float.to_Q] in Hy; try discriminate;
      injection Hx as <-; injection Hy as <-.
    - exists 0%Z. split; apply (mm_to_steps_of_zero s axis a _ k Ha Hk Hkr).
    - exfalso. destruct (to_Q_signed sy my ey) as (_ & _ & Hva & Hpos).
      rewrite <- Heq in Hva. change (Qabs 0) with 0 in Hva. lra.
    - exfalso. destruct (to_Q_signed sx mx ex) as (_ & _ & Hva & Hpos).
      rewrite Heq in Hva. change (Qabs 0) with 0 in Hva. lra.
    - destruct (to_Q_signed sx mx ex) as (_ & Hxs & Hxa & Hxpos).
      destruct (to_Q_signed sy my ey) as (_ & Hys & Hya & Hypos).
      rewrite Hxa in Rx. rewrite Hxs, Hys in Heq.
      destruct (mm_to_steps_finite s axis a sx mx ex k Ha Hk Hkr Rx) as (n & _ & _ & Hs).
      eexists. split; [exact Hs |]. rewrite <- Hs.
      assert (Hss : sx = sy /\ mag (Zpos mx) ex == mag (Zpos my) ey).
      { unfold signed_mag in Heq. destruct sx, sy; split; try reflexivity; lra. }
      destruct Hss as [<- Hm].
      unfold stepperAxisMMToSteps.
      rewrite (mul_1000_same_value sx mx ex my ey Hm). reflexivity. }
  destruct Hsame as (r & Hrx & Hry). exists r, r. split; [exact Hrx |].
  split; [exact Hry | lia].
Qed.

End MonotoneSteps.

(** ** Steps to millimetres and back *)

Section StepsRoundTrip.

Variable hw : Platform.

Local Open Scope Q_scope.

(** The arithmetic of the way back on exact values: [P] the steps, [W] the
    distance times [k], [nk] the scaled integer part times [k], [S] the
    steps returned. *)
Lemma way_back_bound (P W k nk n S q : Q) :
  1 <= P <= 1048576 -> 1 <= k -> 0 <= n -> k < 1000 * (q + 1) ->
  - (P * (1 # 4194304)) <= W - P <= P * (1 # 4194304) ->
  nk <= 1000 * W * (16777217 # 16777216) ->
  1000 * W * (16777215 # 16777216) < nk + k ->
  1000 * S <= nk -> nk < 1000 * S + 1000 ->
  S < P + 1 /\ P - q - 3 < S.
Proof. intros. split; lra. Qed.

(** X19: steps to millimetres and back: for an integer-valued
    [steps_per_mm = k] of at least 1 and at most [2 ^ 20] and a step
    count of at most [2 ^ 20] either way, the count that
    [stepperAxisMMToSteps] makes of the distance of [stepperAxisStepsToMM]
    has the sign of the count put in, is never further from zero, and
    falls short by at most [2 + k / 1000] steps. *)
Theorem steps_round_trip (s : State hw) (axis : nat) (a : StepperAxis hw)
        (steps : Z) (K : Q) (k : Z) :
  stepperAxis s !! axis = Some a ->
  Float.to_Q (steps_per_mm a) = Some K -> K == inject_Z k -> (1 <= k <= 2 ^ 20)%Z ->
  (Z.abs steps <= 2 ^ 20)%Z ->
  exists mm back,
    stepperAxisStepsToMM hw s steps axis = Some mm /\
    stepperAxisMMToSteps hw s mm axis = Some back /\
    (0 <= back * steps)%Z /\
    (Z.abs steps - (2 + k / 1000) <= Z.abs back <= Z.abs steps)%Z.
Proof.
  intros Ha HK HKk Hkr Hsr.
  destruct (steps_per_mm_integer _ K k HK HKk ltac:(lia)) as (mk & ek & Hspm & Hmag & Htr).
  assert (Hk31 : (1 <= k <= 2 ^ 31)%Z) by lia.
  assert (Hkq : 1 <= inject_Z k <= 1048576).
  { change 1 with (inject_Z 1). change 1048576 with (inject_Z (2 ^ 20)).
    rewrite <- !Zle_Qle. exact Hkr. }
  assert (Hback0 : stepperAxisStepsToMM hw s steps axis
                   = Some (Float.div (Float.of_Z steps) (S754_finite false mk ek))).
  { unfold stepperAxisStepsToMM. rewrite Ha. cbn [mbind option_bind]. rewrite Hspm.
    reflexivity. }
  assert (Hsteps : steps = 0%Z \/ exists sg p, steps = cond_Zopp sg (Zpos p)).
  { destruct steps as [| p | p]; [left; reflexivity | right; exists false, p; reflexivity
                                  | right; exists true, p; reflexivity]. }
  destruct Hsteps as [-> | (sg & p & ->)].
  - exists (S754_zero false), 0%Z. split; [exact Hback0 |].
    split; [apply (mm_to_steps_of_zero hw s axis a false k Ha Htr Hk31) |].
    pose proof (Z.div_pos k 1000 ltac:(lia) ltac:(lia)). cbn [Z.abs]. lia.
  - assert (Hp : (Zpos p <= 2 ^ 20)%Z) by (destruct sg; cbn [cond_Zopp Z.abs] in Hsr; lia).
    destruct (div_of_Z_spec sg p mk ek ltac:(lia)) as (m & e & Hd & Herr).
    { rewrite Hmag. assert (H31 : 2 ^ 31 == 2147483648) by reflexivity.
      rewrite H31. lra. }
    rewrite Hd in Hback0. rewrite Hmag in Herr.
    set (X := mag (Zpos m) e) in *. set (P := inject_Z (Zpos p)) in *.
    assert (HP : 1 <= P <= 1048576).
    { subst P. change 1 with (inject_Z 1). change 1048576 with (inject_Z (2 ^ 20)).
      rewrite <- !Zle_Qle. lia. }
    apply Qabs_Qle_condition in Herr.
    assert (HX0 : 0 <= X) by (apply mag_nonneg; lia).
    assert (H30 : 2 ^ 30 == 1073741824) by reflexivity.
    assert (HXk : X * inject_Z k <= 2 ^ 30).
    { rewrite H30. set (W := X * inject_Z k) in *. clearbody W P. lra. }
    assert (HX30 : X <= 2 ^ 30).
    { rewrite H30 in *. set (kq := inject_Z k) in *. clearbody X kq. nra. }
    destruct (mm_to_steps_finite hw s axis a sg m e k Ha Htr Hk31 HXk) as (n & Hn & Hn0 & Hs).
    destruct (scaled_trunc m e HX30) as (n' & Hn' & _ & Hup & Hlo).
    rewrite Hn in Hn'. injection Hn' as <-. fold X in Hup, Hlo.
    exists (S754_finite sg m e), (cond_Zopp sg (n * k / 1000)).
    split; [exact Hback0 |]. split; [exact Hs |].
    set (S := (n * k / 1000)%Z) in *.
    assert (HS0 : (0 <= S)%Z) by (subst S; apply Z.div_pos; nia).
    assert (HSdiv : (1000 * S <= n * k < 1000 * S + 1000)%Z).
    { subst S. pose proof (Z.mul_div_le (n * k) 1000 ltac:(lia)).
      pose proof (Z.mul_succ_div_gt (n * k) 1000 ltac:(lia)). lia. }
    set (q := (k / 1000)%Z).
    assert (Hq : (k < 1000 * (q + 1))%Z).
    { subst q. pose proof (Z.mul_succ_div_gt k 1000 ltac:(lia)). lia. }
    assert (Hnq : 0 <= inject_Z n).
    { change 0 with (inject_Z 0). rewrite <- Zle_Qle. exact Hn0. }
    destruct (way_back_bound P (X * inject_Z k) (inject_Z k)
                (inject_Z (n * k)) (inject_Z n) (inject_Z S) (inject_Z q))
      as [Hupper Hlower].
    + exact HP.
    + lra.
    + exact Hnq.
    + change 1000 with (inject_Z 1000). change 1 with (inject_Z 1).
      rewrite <- inject_Z_plus, <- inject_Z_mult, <- Zlt_Qlt. exact Hq.
    + exact Herr.
    + rewrite inject_Z_mult.
      set (nq := inject_Z n) in *. set (kq := inject_Z k) in *. clearbody nq kq X. nra.
    + rewrite inject_Z_mult.
      set (nq := inject_Z n) in *. set (kq := inject_Z k) in *. clearbody nq kq X. nra.
    + change 1000 with (inject_Z 1000). rewrite <- inject_Z_mult, <- Zle_Qle. lia.
    + change 1000 with (inject_Z 1000).
      rewrite <- inject_Z_mult, <- inject_Z_plus, <- Zlt_Qlt. lia.
    + assert (HSle : (S <= Zpos p)%Z).
      { assert (H : inject_Z S < inject_Z (Zpos p + 1)).
        { rewrite inject_Z_plus. exact Hupper. }
        rewrite <- Zlt_Qlt in H. lia. }
      assert (HSge : (Zpos p - q - 2 <= S)%Z).
      { assert (H : inject_Z (Zpos p - q - 3) < inject_Z S).
        { unfold Z.sub. rewrite !inject_Z_plus, !inject_Z_opp. exact Hlower. }
        rewrite <- Zlt_Qlt in H. lia. }
      destruct sg; cbn [cond_Zopp]; split; nia || lia.
Qed.

End StepsRoundTrip.

(** ** Feed rates and step intervals *)

Section FeedRates.

Variable hw : Platform.

Local Abbreviation axes_invert := (eeprom8 hw (AXIS_INVERSION hw) 0).
Local Abbreviation endstops_invert := (eeprom8 hw (ENDSTOP_INVERSION hw) 0).

Local Open Scope Q_scope.

Lemma loaded_max_feedrate ai ei i (a0 : StepperAxis hw) :
  max_feedrate (axis_update hw true ai ei i a0)
  = FTOFP hw (Float.div (Float.of_Z (stored_max_feedrate hw i)) (Float.of_Z 60)).
Proof. reflexivity. Qed.

Lemma loaded_min_interval ai ei i (a0 : StepperAxis hw) :
  let a := axis_update hw true ai ei i a0 in
  let f := to_int32 hw (Float.mul (steps_per_mm a) (FPTOF hw (max_feedrate a))) in
  min_interval a = if (f =? 0)%Z then 500%Z else Z.quot 1000000 f.
Proof. reflexivity. Qed.

(** X20: after a hard reset [max_feedrate] of an axis is [FTOFP] of a
    finite float that is not negative: the stored feed rate word, in mm
    per minute, over 60 to within one part in [2 ^ 22]. *)
Theorem feedrate_after_hard_reset (s : State hw) (i : nat) :
  length (stepperAxis s) = STEPPER_COUNT -> (i < STEPPER_COUNT)%nat ->
  let u := stored_max_feedrate hw i in
  exists a f q,
    stepperAxis (stepperAxisInit hw true s) !! i = Some a /\
    max_feedrate a = FTOFP hw f /\
    Float.to_Q f = Some q /\ 0 <= q /\
    Qabs (q * 60 - inject_Z u) <= inject_Z u * (1 # 4194304).
Proof.
  intros Hlen Hi. cbv zeta.
  destruct (hard_axis_lookup hw s i Hlen Hi) as (a0 & _ & Ha').
  assert (Hu : (0 <= stored_max_feedrate hw i < 2 ^ 32)%Z).
  { unfold stored_max_feedrate, eeprom32, Int.uint32, Int.unsigned.
    apply Z.mod_pos_bound. lia. }
  assert (Hq : exists q,
             Float.to_Q (Float.div (Float.of_Z (stored_max_feedrate hw i)) (Float.of_Z 60))
             = Some q /\ 0 <= q /\
             Qabs (q * 60 - inject_Z (stored_max_feedrate hw i))
             <= inject_Z (stored_max_feedrate hw i) * (1 # 4194304)).
  { destruct (stored_max_feedrate hw i) as [| p | p]; [| | lia].
    - exists 0. split; [reflexivity |]. split; [discriminate | vm_compute; discriminate].
    - change (Float.of_Z 60) with (S754_finite false 15728640 (-18)).
      destruct (div_of_Z_spec false p 15728640 (-18) ltac:(lia)) as (m & e & Hd & Herr).
      { split; discriminate. }
      cbn [cond_Zopp] in Hd. rewrite Hd.
      exists (mag (Zpos m) e). split; [reflexivity |]. split; [apply mag_nonneg; lia |].
      assert (E : mag 15728640 (-18) == 60) by reflexivity.
      rewrite E in Herr. exact Herr. }
  destruct Hq as (q & Hq & Hq0 & Herr).
  exists (axis_update hw true axes_invert endstops_invert i a0),
    (Float.div (Float.of_Z (stored_max_feedrate hw i)) (Float.of_Z 60)), q.
  split; [exact Ha' |]. split; [apply loaded_max_feedrate |].
  split; [exact Hq |]. split; [exact Hq0 | exact Herr].
Qed.

Local Open Scope Z_scope.

(** X21: after a hard reset, wherever the feed rate that [FPTOF] gives
    back is not negative and the conversion of the product to [int32_t]
    is defined, [min_interval] lies between 0 and 1000000 microseconds,
    and is 0 only for a product above 1000000 steps per second. *)
Theorem min_interval_bounds (s : State hw) (i : nat) :
  length (stepperAxis s) = STEPPER_COUNT -> (i < STEPPER_COUNT)%nat ->
  exists a,
    stepperAxis (stepperAxisInit hw true s) !! i = Some a /\
    forall f,
      not_negative (FPTOF hw (max_feedrate a)) ->
      Float.trunc (Float.mul (steps_per_mm a) (FPTOF hw (max_feedrate a))) = Some f ->
      Int.in_signed 32 f = true ->
      0 <= f /\
      0 <= min_interval a <= 1000000 /\
      (min_interval a = 0 <-> 1000000 < f).
Proof.
  intros Hlen Hi.
  destruct (hard_axis_lookup hw s i Hlen Hi) as (a0 & _ & Ha').
  eexists. split; [exact Ha' |].
  set (a := axis_update hw true axes_invert endstops_invert i a0).
  intros f Hfeed Hf Hr.
  pose proof (loaded_min_interval axes_invert endstops_invert i a0) as Hint.
  cbv zeta in Hint. fold a in Hint.
  rewrite (to_int_trunc (fix_overflow hw) 32 _ f Hf Hr : to_int32 hw _ = f) in Hint.
  assert (Hf0 : 0 <= f).
  { apply (trunc_not_negative _ f) in Hf; [exact Hf |].
    apply mul_not_negative; [| exact Hfeed].
    apply loaded_steps_per_mm_sign. }
  split; [exact Hf0 |]. rewrite Hint.
  destruct (Z.eqb_spec f 0) as [-> | Hne]; [lia |].
  rewrite Z.quot_div_nonneg by lia.
  assert (Hq0 : 0 <= 1000000 / f) by (apply Z.div_pos; lia).
  assert (Hq1 : 1000000 / f <= 1000000) by (apply Z.div_le_upper_bound; nia).
  split; [lia |]. split.
  - intros Hz. apply Z.div_small_iff in Hz; lia.
  - intros Hbig. apply Z.div_small. lia.
Qed.

End FeedRates.

(** * The properties at the concrete machine *)

Section Instances.

Lemma five_axes x l : length (stepperAxis (Machine.running x l)) = STEPPER_COUNT.
Proof. reflexivity. Defined.

Lemma mm_to_steps_truncates_witness :
  stepperAxisMMToSteps hw100 s100 mm_1_2345 X_AXIS = Some 123 /\
  stepperAxisMMToSteps hw100 s100 (Float.of_Z 250) X_AXIS = Some 25000 /\
  mmToSteps_spec (Float.of_Z 250) (Float.of_Z 100) = Some 25000.
Proof.
  destruct (mm_to_steps_truncates hw100 s100 X_AXIS
              (axis_update hw100 true 23 151 X_AXIS (Machine.busy_axis hw100 (Float.of_Z 30)))
              eq_refl) as [Hgen Hex].
  split; [apply Hex; reflexivity |].
  destruct (Hgen (Float.of_Z 250) 250000 100) as [H1 H2]; try reflexivity.
  split; [exact H1 | exact (eq_trans (eq_sym H2) H1)].
Defined.

(** C1 as stated fails where the quotient does not fit the result type:
    at 33554432 mm and 100 steps per mm the specification's formula gives
    3355443200, and the function returns -939524096. *)
Lemma mm_to_steps_overflow_counterexample :
  stepperAxisMMToSteps hw100 s100 (Float.of_Z 33554432) X_AXIS = Some (-939524096) /\
  stepperAxisStepsPerMM hw100 s100 X_AXIS = Some (Float.of_Z 100) /\
  mmToSteps_spec (Float.of_Z 33554432) (Float.of_Z 100) = Some 3355443200.
Proof. repeat split; vm_compute; reflexivity. Qed.

Lemma endstop_inversion_witness :
  exists a,
    stepperAxis (stepperAxisInit hw88 true s88) !! A_AXIS = Some a /\
    invert_endstop a = false.
Proof.
  destruct (endstop_inversion_after_hard_reset hw88 s88 A_AXIS (five_axes _ _))
    as (a & Ha & _ & Hset); [unfold A_AXIS, STEPPER_COUNT; lia |].
  exists a. split; [exact Ha |]. apply Hset. reflexivity.
Defined.

Lemma travel_limits_witness :
  exists a,
    stepperAxis (stepperAxisInit hw88 true s88) !! X_AXIS = Some a /\
    max_axis_steps_limit a = 8800 /\ min_axis_steps_limit a = -8800.
Proof.
  destruct (travel_limits_after_hard_reset hw88 s88 X_AXIS (five_axes _ _))
    as (a & Ha & _ & Hex); [unfold X_AXIS, STEPPER_COUNT; lia |].
  exists a. split; [exact Ha |]. apply Hex; reflexivity.
Defined.

(** C4 as stated fails where the product has a fraction of a half or
    more: with 94.139704 steps per mm and 227 mm stored for X the product
    is 21369.71; its nearest integer 21370 would give a maximum of 10685,
    and the code stores 10684. *)
Lemma travel_limits_round_counterexample :
  exists a,
    stepperAxis (stepperAxisInit (Machine.hw 94139704 227) true
                                 (Machine.running 94139704 227)) !! X_AXIS = Some a /\
    spec_axis_length (Machine.hw 94139704 227) X_AXIS (steps_per_mm a) = Some 21370 /\
    Z.quot 21370 2 = 10685 /\
    max_axis_steps_limit a = 10684.
Proof. eexists. repeat split; vm_compute; reflexivity. Qed.

Lemma soft_reset_keeps_calibration_witness :
  let s' := stepperAxisInit hw88 false s88 in
  dda_position s' = [120; -45; 3000; 77; -8] /\
  exists a',
    stepperAxis s' !! Z_AXIS = Some a' /\
    steps_per_mm a' = Float.of_Z 47 /\
    max_axis_steps_limit a' = 900 /\
    axis_homing s' !! Z_AXIS = Some false /\
    steps (dda a') = 0.
Proof.
  destruct (soft_reset_keeps_calibration hw88 s88 (five_axes _ _) eq_refl)
    as [Hpos Haxes].
  split; [exact Hpos |].
  destruct (Haxes Z_AXIS) as (a & a' & Ha & Ha' & Hs & _ & _ & Hm & Hh & Hd);
    [unfold Z_AXIS, STEPPER_COUNT; lia |].
  exists a'. injection Ha as <-.
  split; [exact Ha' | split; [exact Hs | split; [exact Hm | split; [exact Hh | apply Hd]]]].
Defined.

Lemma soft_reset_keeps_flags_witness :
  let s' := stepperAxisInit hw88 false s88 in
  axesEnabled s' = 31 /\
  axesHardwareEnabled s' = 7 /\
  exists a',
    stepperAxis s' !! Y_AXIS = Some a' /\
    hasHomed a' = true /\ min_interval a' = 70.
Proof.
  destruct (soft_reset_keeps_flags hw88 s88 (five_axes _ _)) as (He & Hh & Haxes).
  split; [exact He |]. split; [exact Hh |].
  destruct (Haxes Y_AXIS) as (a & a' & Ha & Ha' & Hhomed & _ & _ & _ & Hint);
    [unfold Y_AXIS, STEPPER_COUNT; lia |].
  exists a'. injection Ha as <-.
  split; [exact Ha' | split; [exact Hhomed | exact Hint]].
Defined.

Lemma limits_contain_origin_witness :
  exists a,
    stepperAxis (stepperAxisInit hw88 true s88) !! B_AXIS = Some a /\
    min_axis_steps_limit a <= 0 <= max_axis_steps_limit a.
Proof.
  destruct (limits_contain_origin hw88 s88 B_AXIS (five_axes _ _))
    as (a & Ha & _ & Hin); [unfold B_AXIS, STEPPER_COUNT; lia |].
  exists a. split; [exact Ha |].
  apply Hin; [discriminate |].
  assert (Hb : stepperAxis (stepperAxisInit hw88 true s88) !! B_AXIS
               = Some (axis_update hw88 true 23 151 B_AXIS
                         (Machine.busy_axis hw88 (Float.of_Z 30)))) by reflexivity.
  rewrite Hb in Ha. injection Ha as <-. reflexivity.
Defined.

(** C6 as stated fails where the axis length in steps does not fit
    [int32_t]: with 3000000000 mm stored for X at one step per mm the
    conversion is out of range, the length read is the most negative
    [int32_t], and the X limits come out as a maximum of -1073741824 and
    a minimum of 1073741824, with zero outside them. *)
Lemma limits_exclude_origin_counterexample :
  exists a,
    stepperAxis (stepperAxisInit hw_long true s_long) !! X_AXIS = Some a /\
    stored_length hw_long X_AXIS = 3000000000 /\
    Float.trunc (length_product hw_long X_AXIS (steps_per_mm a)) = Some 3000000000 /\
    Float.cast_defined 32 (length_product hw_long X_AXIS (steps_per_mm a)) = false /\
    max_axis_steps_limit a = -1073741824 /\
    min_axis_steps_limit a = 1073741824 /\
    ~ (min_axis_steps_limit a <= 0 <= max_axis_steps_limit a).
Proof.
  eexists. split; [vm_compute; reflexivity |].
  split; [reflexivity |]. split; [vm_compute; reflexivity |].
  split; [vm_compute; reflexivity |]. split; [vm_compute; reflexivity |].
  split; [vm_compute; reflexivity |].
  vm_compute. intros [H _]. apply H. reflexivity.
Qed.

Lemma min_interval_witness :
  exists a,
    stepperAxis (stepperAxisInit hw88 true s88) !! Z_AXIS = Some a /\
    min_interval a = 128.
Proof.
  destruct (min_interval_after_hard_reset hw88 s88 Z_AXIS (five_axes _ _))
    as (a & Ha & _ & Hf & _); [unfold Z_AXIS, STEPPER_COUNT; lia |].
  exists a. split; [exact Ha |].
  assert (Hz : stepperAxis (stepperAxisInit hw88 true s88) !! Z_AXIS
               = Some (axis_update hw88 true 23 151 Z_AXIS
                         (Machine.busy_axis hw88 (Float.of_Z 30)))) by reflexivity.
  rewrite Hz in Ha. injection Ha as <-.
  rewrite Hf; [reflexivity | discriminate].
Defined.

Lemma e_steps_zero_witness :
  e_steps (stepperAxisInit hw88 true s88) = [0; 0] /\
  e_steps (stepperAxisInit hw88 false s88) = [0; 0].
Proof.
  split; apply (e_steps_zero_after_init hw88 _ s88); reflexivity.
Defined.

Lemma round_trip_witness :
  exists back b,
    round_trip hw88 ready88 mm_1_2345 Z_AXIS = Some back /\
    Float.to_Q back = Some b /\
    (Qabs (b - inject_Z 10355737 * 2 ^ (-23))
     <= 1 / inject_Z 400 + (1 # 1000)
        + Qabs (inject_Z 10355737 * 2 ^ (-23)) * (1 # 4194304))%Q.
Proof.
  apply (round_trip_within_step_and_milli hw88 ready88 Z_AXIS
           (axis_update hw88 true 23 151 Z_AXIS (Machine.busy_axis hw88 (Float.of_Z 30)))
           mm_1_2345 (inject_Z 13107200 * 2 ^ (-15))%Q
           (inject_Z 10355737 * 2 ^ (-23))%Q 400).
  - reflexivity.
  - reflexivity.
  - vm_compute. reflexivity.
  - lia.
  - reflexivity.
  - vm_compute. discriminate.
Defined.

(** C2 as stated fails on the cut to 1/1000 mm: at 400 steps per mm on Z,
    0.0029 mm lies within the travel range, is cut to 0.002 mm, which is
    0.8 of a step and so no step at all; the round trip gives 0 mm, which
    is 0.0029 mm away, and one step is 0.0025 mm. *)
Lemma round_trip_one_step_counterexample :
  mm_0_0029 = Float.div (Float.of_Z 29) (Float.of_Z 10000) /\
  in_travel_range hw88 ready88 mm_0_0029 Z_AXIS /\
  stepperAxisStepsPerMM hw88 ready88 Z_AXIS = Some (Float.of_Z 400) /\
  stepperAxisMMToSteps hw88 ready88 mm_0_0029 Z_AXIS = Some 0 /\
  round_trip hw88 ready88 mm_0_0029 Z_AXIS = Some (S754_zero false) /\
  exists err step,
    round_trip_error hw88 ready88 mm_0_0029 Z_AXIS = Some err /\
    one_step hw88 ready88 Z_AXIS = Some step /\
    (step == 1 # 400)%Q /\
    (step < err)%Q.
Proof.
  split; [vm_compute; reflexivity |].
  split; [vm_compute; split; discriminate |].
  split; [vm_compute; reflexivity |].
  split; [vm_compute; reflexivity |].
  split; [vm_compute; reflexivity |].
  eexists _, _. split; [| split; [| split]].
  - vm_compute. reflexivity.
  - vm_compute. reflexivity.
  - vm_compute. reflexivity.
  - vm_compute. reflexivity.
Qed.

(** Where [steps_per_mm] has a fraction the conversion drops it: with
    94.139704 steps per mm on X, 100 mm lies within the travel range and
    is 9413.97 steps; [stepperAxisMMToSteps] returns 100000 * 94 / 1000 =
    9400, and the round trip comes back more than ten steps short. *)
Lemma round_trip_fractional_steps_per_mm :
  in_travel_range hw94 ready94 (Float.of_Z 100) X_AXIS /\
  stepperAxisMMToSteps hw94 ready94 (Float.of_Z 100) X_AXIS = Some 9400 /\
  exists err step,
    round_trip_error hw94 ready94 (Float.of_Z 100) X_AXIS = Some err /\
    one_step hw94 ready94 X_AXIS = Some step /\
    (10 * step < err)%Q.
Proof.
  split; [vm_compute; split; discriminate |].
  split; [vm_compute; reflexivity |].
  eexists _, _. split; [| split].
  - vm_compute. reflexivity.
  - vm_compute. reflexivity.
  - vm_compute. reflexivity.
Qed.

(** ** The further properties at the concrete machines *)

Lemma hard_reset_clears_witness :
  dda_position ready88 = [0; 0; 0; 0; 0] /\
  axis_homing ready88 = [false; false; false; false; false] /\
  axesEnabled ready88 = 0 /\
  axesHardwareEnabled ready88 = 0 /\
  exists a,
    stepperAxis ready88 !! Z_AXIS = Some a /\
    hasHomed a = false /\ hasDefinePosition a = false.
Proof.
  destruct (hard_reset_clears_motion_state hw88 s88 eq_refl eq_refl eq_refl)
    as (Hpos & Hhome & He & Hh & Hax).
  split; [exact Hpos |]. split; [exact Hhome |]. split; [exact He |].
  split; [exact Hh |].
  apply Hax. unfold Z_AXIS, STEPPER_COUNT. lia.
Defined.

Lemma axis_inversion_witness :
  exists a,
    stepperAxis ready88 !! A_AXIS = Some a /\ invert_axis a = false.
Proof.
  destruct (axis_inversion_after_hard_reset hw88 s88 A_AXIS eq_refl)
    as (a & Ha & Hinv); [unfold A_AXIS, STEPPER_COUNT; lia |].
  exists a. split; [exact Ha |]. rewrite Hinv. reflexivity.
Defined.

Lemma extruder_axes_witness :
  exists a,
    stepperAxis (stepperAxisInit hw88 false s88) !! A_AXIS = Some a /\
    eAxis (dda a) = true.
Proof.
  destruct (extruder_axes_marked hw88 false s88 A_AXIS eq_refl)
    as (a & Ha & He); [unfold A_AXIS, STEPPER_COUNT; lia |].
  exists a. split; [exact Ha |]. apply He. left. reflexivity.
Defined.

Lemma hard_reset_pin_sequence_witness :
  io ready88
  = [SET_DIRECTION (Machine.line 103) true; SET_DIRECTION (Machine.line 100) true;
     WRITE (Machine.line 106) true; SET_DIRECTION (Machine.line 106) true;
     SET_DIRECTION (Machine.line 112) false; WRITE (Machine.line 112) true;
     SET_DIRECTION (Machine.line 203) true; SET_DIRECTION (Machine.line 200) true;
     WRITE (Machine.line 206) true; SET_DIRECTION (Machine.line 206) true;
     SET_DIRECTION (Machine.line 212) false; WRITE (Machine.line 212) true;
     SET_DIRECTION (Machine.line 209) false; WRITE (Machine.line 209) true;
     SET_DIRECTION (Machine.line 303) true; SET_DIRECTION (Machine.line 300) true;
     WRITE (Machine.line 306) true; SET_DIRECTION (Machine.line 306) true;
     SET_DIRECTION (Machine.line 312) false; WRITE (Machine.line 312) true;
     SET_DIRECTION (Machine.line 309) false; WRITE (Machine.line 309) true;
     SET_DIRECTION (Machine.line 403) true; SET_DIRECTION (Machine.line 400) true;
     WRITE (Machine.line 406) true; SET_DIRECTION (Machine.line 406) true;
     SET_DIRECTION (Machine.line 503) true; SET_DIRECTION (Machine.line 500) true;
     WRITE (Machine.line 506) true; SET_DIRECTION (Machine.line 506) true;
     PSTOP_setDirection false; PSTOP_setValue false] /\
  io (stepperAxisInit hw_long true s_long)
  = [SET_DIRECTION (Machine.line 103) true; SET_DIRECTION (Machine.line 100) true;
     WRITE (Machine.line 106) true; SET_DIRECTION (Machine.line 106) true;
     SET_DIRECTION (Machine.line 112) false; WRITE (Machine.line 112) false;
     SET_DIRECTION (Machine.line 109) false; WRITE (Machine.line 109) false;
     SET_DIRECTION (Machine.line 203) true; SET_DIRECTION (Machine.line 200) true;
     WRITE (Machine.line 206) true; SET_DIRECTION (Machine.line 206) true;
     SET_DIRECTION (Machine.line 212) false; WRITE (Machine.line 212) true;
     SET_DIRECTION (Machine.line 209) false; WRITE (Machine.line 209) true;
     SET_DIRECTION (Machine.line 303) true; SET_DIRECTION (Machine.line 300) true;
     WRITE (Machine.line 306) true; SET_DIRECTION (Machine.line 306) true;
     SET_DIRECTION (Machine.line 312) false; WRITE (Machine.line 312) false;
     SET_DIRECTION (Machine.line 309) false; WRITE (Machine.line 309) false;
     SET_DIRECTION (Machine.line 403) true; SET_DIRECTION (Machine.line 400) true;
     WRITE (Machine.line 406) true; SET_DIRECTION (Machine.line 406) true;
     SET_DIRECTION (Machine.line 503) true; SET_DIRECTION (Machine.line 500) true;
     WRITE (Machine.line 506) true; SET_DIRECTION (Machine.line 506) true].
Proof.
  split.
  - refine (eq_trans (hard_reset_pin_sequence hw88 s88 eq_refl eq_refl) _).
    vm_compute. reflexivity.
  - refine (eq_trans (hard_reset_pin_sequence hw_long s_long eq_refl eq_refl) _).
    vm_compute. reflexivity.
Defined.

Lemma pstop_rebinds_witness :
  stepperAxisPorts ready88 !! X_AXIS
  = Some {| step := Machine.line 100; dir := Machine.line 103;
            enable := Machine.line 106; minimum := STEPPER_NULL;
            maximum := Machine.line 112 |} /\
  stepperAxisPorts (stepperAxisInit hw_zmax true s_zmax) = stepperAxisPorts s_zmax.
Proof.
  split.
  - destruct (pstop_rebinds_x_minimum hw88 s88) as [_ Hon].
    destruct (Hon eq_refl) as (_ & _ & Hx).
    exact (Hx (Machine.ports 100 true) eq_refl).
  - destruct (pstop_rebinds_x_minimum hw_zmax s_zmax) as [Hoff _].
    exact (proj1 (Hoff eq_refl)).
Defined.

Lemma hard_reset_forgets_witness :
  stepperAxis (stepperAxisInit hw88 true s88)
  = stepperAxis (stepperAxisInit hw88 true idle88) /\
  dda_position (stepperAxisInit hw88 true s88)
  = dda_position (stepperAxisInit hw88 true idle88).
Proof.
  destruct (hard_reset_forgets hw88 s88 idle88 eq_refl eq_refl eq_refl eq_refl
                               eq_refl eq_refl eq_refl eq_refl) as (Hax & Hpos & _).
  split; [exact Hax | exact Hpos].
Defined.

Lemma z_limits_zmax_witness :
  exists a,
    stepperAxis (stepperAxisInit hw_zmax true s_zmax) !! Z_AXIS = Some a /\
    max_axis_steps_limit a = 60000 /\ min_axis_steps_limit a = 0.
Proof.
  destruct (z_limits_when_homing_to_max hw_zmax s_zmax eq_refl eq_refl)
    as (a & Ha & Hmax & Hmin).
  exists a. split; [exact Ha |]. split; [rewrite Hmax; reflexivity | exact Hmin].
Defined.

Lemma calibration_after_hard_reset_witness :
  exists spm k,
    stepperAxisStepsPerMM hw94 ready94 X_AXIS = Some spm /\
    Float.trunc spm = Some k /\ 0 <= k <= 4294 /\
    Float.cast_defined 64 spm = true.
Proof.
  destruct (calibration_after_hard_reset hw94 (Machine.running 94139704 227) X_AXIS
              (five_axes _ _))
    as (spm & q & k & Hs & _ & _ & _ & Hk & Hkr & _ & Hd);
    [unfold X_AXIS, STEPPER_COUNT; lia |].
  exists spm, k. split; [exact Hs |]. split; [exact Hk |]. split; [exact Hkr | exact Hd].
Defined.

Lemma whole_calibration_witness :
  stepperAxisStepsPerMM hw88 ready88 X_AXIS = Some (Float.of_Z 88) /\
  Float.trunc (Float.of_Z 88) = Some 88.
Proof.
  destruct (whole_calibration_loads_exactly hw88 s88 X_AXIS eq_refl) as [Hwhole _];
    [unfold X_AXIS, STEPPER_COUNT; lia |].
  destruct (Hwhole 88) as (q & Hs & _ & _ & Ht); [lia | reflexivity |].
  split; [exact Hs | exact Ht].
Defined.

Lemma sub_unit_calibration_witness :
  stepperAxisMMToSteps hw_half (stepperAxisInit hw_half true s_half)
                       (Float.of_Z 250) X_AXIS = Some 0.
Proof.
  apply (sub_unit_calibration_gives_no_steps hw_half s_half X_AXIS (Float.of_Z 250)).
  - reflexivity.
  - unfold X_AXIS, STEPPER_COUNT. lia.
  - reflexivity.
  - reflexivity.
Defined.

Lemma zero_calibration_witness :
  stepperAxisStepsToMM hw_uncal (stepperAxisInit hw_uncal true s_uncal) (-5) X_AXIS
  = Some (S754_infinity true).
Proof.
  apply (zero_calibration_gives_no_distance hw_uncal s_uncal X_AXIS (-5)).
  - reflexivity.
  - unfold X_AXIS, STEPPER_COUNT. lia.
  - reflexivity.
  - reflexivity.
Defined.

Lemma mm_to_steps_odd_witness :
  stepperAxisMMToSteps hw100 s100 mm_1_2345 X_AXIS = Some 123 /\
  stepperAxisMMToSteps hw100 s100 (opp mm_1_2345) X_AXIS = Some (-123).
Proof.
  destruct (mm_to_steps_odd hw100 s100 X_AXIS
              (axis_update hw100 true 23 151 X_AXIS (Machine.busy_axis hw100 (Float.of_Z 30)))
              mm_1_2345 1234 100 eq_refl eq_refl eq_refl)
    as (r & Hr & Hopp & _); try reflexivity.
  assert (E : Some r = Some 123) by (rewrite <- Hr; reflexivity).
  injection E as ->. split; [exact Hr | exact Hopp].
Defined.

Lemma steps_to_mm_odd_witness :
  stepperAxisStepsToMM hw100 s100 (-300) X_AXIS
  = opp <$> stepperAxisStepsToMM hw100 s100 300 X_AXIS.
Proof.
  apply (steps_to_mm_odd hw100 s100 X_AXIS 300); [discriminate | reflexivity].
Defined.

Lemma steps_to_mm_accuracy_witness :
  exists back b,
    stepperAxisStepsToMM hw94 ready94 9413 X_AXIS = Some back /\
    Float.to_Q back = Some b /\
    (Qabs (b * (inject_Z 12339079 * 2 ^ (-17)) - inject_Z 9413)
     <= Qabs (inject_Z 9413) * (1 # 4194304))%Q.
Proof.
  apply (steps_to_mm_accuracy hw94 ready94 X_AXIS
           (axis_update hw94 true 23 151 X_AXIS (Machine.busy_axis hw94 (Float.of_Z 30)))
           9413 (inject_Z 12339079 * 2 ^ (-17))%Q).
  - reflexivity.
  - reflexivity.
  - split; vm_compute; discriminate.
  - reflexivity.
Defined.

Lemma mm_to_steps_monotone_witness :
  exists rx ry,
    stepperAxisMMToSteps hw94 ready94 mm_1_2345 X_AXIS = Some rx /\
    stepperAxisMMToSteps hw94 ready94 (Float.of_Z 250) X_AXIS = Some ry /\
    rx <= ry.
Proof.
  apply (mm_to_steps_monotone hw94 ready94 X_AXIS
           (axis_update hw94 true 23 151 X_AXIS (Machine.busy_axis hw94 (Float.of_Z 30)))
           94 mm_1_2345 (Float.of_Z 250)
           (inject_Z 10355737 * 2 ^ (-23))%Q (inject_Z 16384000 * 2 ^ (-16))%Q).
  - reflexivity.
  - reflexivity.
  - lia.
  - reflexivity.
  - reflexivity.
  - vm_compute. discriminate.
  - vm_compute. discriminate.
  - vm_compute. discriminate.
Defined.

Lemma steps_round_trip_witness :
  exists mm back,
    stepperAxisStepsToMM hw100 s100 123 X_AXIS = Some mm /\
    stepperAxisMMToSteps hw100 s100 mm X_AXIS = Some back /\
    0 <= back * 123 /\
    Z.abs 123 - (2 + 100 / 1000) <= Z.abs back <= Z.abs 123.
Proof.
  apply (steps_round_trip hw100 s100 X_AXIS
           (axis_update hw100 true 23 151 X_AXIS (Machine.busy_axis hw100 (Float.of_Z 30)))
           123 (inject_Z 13107200 * 2 ^ (-17))%Q 100).
  - reflexivity.
  - reflexivity.
  - vm_compute. reflexivity.
  - lia.
  - vm_compute. discriminate.
Defined.

Lemma feedrate_witness :
  exists a f q,
    stepperAxis ready88 !! X_AXIS = Some a /\
    max_feedrate a = f /\
    Float.to_Q f = Some q /\ (0 <= q)%Q /\
    (Qabs (q * 60 - inject_Z 18000) <= inject_Z 18000 * (1 # 4194304))%Q.
Proof.
  exact (feedrate_after_hard_reset hw88 s88 X_AXIS eq_refl
           ltac:(unfold X_AXIS, STEPPER_COUNT; lia)).
Defined.

Lemma min_interval_bounds_witness :
  exists a,
    stepperAxis ready88 !! Z_AXIS = Some a /\
    0 <= min_interval a <= 1000000.
Proof.
  destruct (min_interval_bounds hw88 s88 Z_AXIS eq_refl) as (a & Ha & Hb);
    [unfold Z_AXIS, STEPPER_COUNT; lia |].
  exists a. split; [exact Ha |].
  assert (Hz : stepperAxis (stepperAxisInit hw88 true s88) !! Z_AXIS
               = Some (axis_update hw88 true 23 151 Z_AXIS
                         (Machine.busy_axis hw88 (Float.of_Z 30)))) by reflexivity.
  rewrite Hz in Ha. injection Ha as <-.
  destruct (Hb 7800) as (_ & Hr & _); [reflexivity | reflexivity | reflexivity |].
  exact Hr.
Defined.

End Instances.
